(** * Technical-debt analysis scripts: a shallow embedding

    The development follows the two Python scripts of the repository,
    [github_debt_analysis.py] and [commit_nlp_analysis.py].

    Conventions of the embedding.
    - A Python [int] is a [Z].  A Python [float] is idealised as an exact
      rational [Q]: every arithmetic result is the exact one, where the
      interpreter would round to binary64.  The two are kept apart in
      [pynum], as the interpreter keeps them apart.
    - A Python [str] is a [string] (ASCII text).
    - Where a statement depends on one of these idealisations, or on the
      types of the values a JSON document holds, it says so by a
      hypothesis that keeps to the inputs on which the embedding is the
      script: counts that binary64 holds and orders exactly, messages of
      ASCII characters, documents with fields of the declared types.
    - A raised exception is a value of [exn]; a computation that may raise
      has type [exc A].
    - A [dict] or [Counter] whose iteration order is observable is an
      association list in insertion order. *)

From Stdlib Require Import String Ascii ZArith QArith Qround Qabs Bool Arith.
From Stdlib Require Import Lia Lqa List.
From Stdlib Require Import DecimalString Permutation Sorted.
Import ListNotations.

Local Open Scope string_scope.
Local Open Scope Z_scope.

(** ** Exceptions *)

Module Exc.

Inductive exn : Type :=
| ZeroDivisionError
| StatisticsError
| KeyError (key : string)
| ValueError
| TypeError
| AttributeError
| ReError
| HTTPError (status : Z)
| ConnectionError.

Inductive exc (A : Type) : Type :=
| Ok (a : A)
| Raise (e : exn).

Arguments Ok {A} a.
Arguments Raise {A} e.

Definition bind {A B : Type} (c : exc A) (k : A -> exc B) : exc B :=
  match c with
  | Ok a => k a
  | Raise e => Raise e
  end.

(** [[f(x) for x in l]]: the elements are evaluated left to right and the
    first exception aborts the comprehension. *)
Fixpoint mapM {A B : Type} (f : A -> exc B) (l : list A) : exc (list B) :=
  match l with
  | [] => Ok []
  | x :: l' =>
      bind (f x) (fun y => bind (mapM f l') (fun ys => Ok (y :: ys)))
  end.

End Exc.
Export Exc.

Declare Scope exc_scope.
Delimit Scope exc_scope with exc.
Notation "x <- c ;; k" := (bind c (fun x => k))
  (at level 61, c at next level, right associativity) : exc_scope.
Local Open Scope exc_scope.

(** ** Python numbers *)

Module Num.

Inductive pynum : Type :=
| PInt (z : Z)
| PFloat (q : Q).

Definition to_Q (x : pynum) : Q :=
  match x with
  | PInt z => inject_Z z
  | PFloat q => q
  end.

Definition is_int (x : pynum) : bool :=
  match x with PInt _ => true | PFloat _ => false end.

(** Numeric comparison, across [int] and [float]. *)
Definition num_leb (x y : pynum) : bool := Qle_bool (to_Q x) (to_Q y).
Definition num_ltb (x y : pynum) : bool := negb (Qle_bool (to_Q y) (to_Q x)).

(** [a / b]: true division, always a [float]; raises on a zero divisor. *)
Definition true_div (a b : pynum) : exc pynum :=
  if Qeq_bool (to_Q b) 0 then Raise ZeroDivisionError
  else Ok (PFloat (Qred (to_Q a / to_Q b))).

(** [a * b] and [a + b]: an [int] only when both operands are. *)
Definition mul (a b : pynum) : pynum :=
  match a, b with
  | PInt x, PInt y => PInt (x * y)
  | _, _ => PFloat (Qred (to_Q a * to_Q b))
  end.

Definition add (a b : pynum) : pynum :=
  match a, b with
  | PInt x, PInt y => PInt (x + y)
  | _, _ => PFloat (Qred (to_Q a + to_Q b))
  end.

Definition num_max (a b : pynum) : pynum :=
  if num_ltb a b then b else a.

(** [sum(l)] starts from the [int] 0. *)
Definition sum (l : list pynum) : pynum := fold_left add l (PInt 0).

Definition zsum (l : list Z) : Z := fold_left Z.add l 0.

(** Rounding of a rational to the nearest integer, ties to the even one. *)
Definition round_half_even (q : Q) : Z :=
  let f := Qfloor q in
  match Qcompare (q - inject_Z f) (1 # 2) with
  | Lt => f
  | Gt => f + 1
  | Eq => if Z.even f then f else f + 1
  end.

(** [round(x, d)] for [d >= 0]: an [int] is returned unchanged, a [float]
    is rounded to [d] decimal places. *)
Definition round (x : pynum) (d : nat) : pynum :=
  match x with
  | PInt z => PInt z
  | PFloat q =>
      let s := inject_Z (10 ^ Z.of_nat d) in
      PFloat (Qred (inject_Z (round_half_even (q * s)) / s))
  end.

End Num.
Export Num.

(** ** Python lists: slices and [sorted] *)

Module PyList.

Section Slices.
Context {A : Type}.

(** [l[:n]]: a negative bound counts from the end; out-of-range bounds
    are clamped. *)
Definition slice_to (n : Z) (l : list A) : list A :=
  let len := Z.of_nat (length l) in
  let k := if n <? 0 then Z.max (n + len) 0 else Z.min n len in
  firstn (Z.to_nat k) l.

(** [l[n:]], with the same treatment of the bound. *)
Definition slice_from (n : Z) (l : list A) : list A :=
  let len := Z.of_nat (length l) in
  let k := if n <? 0 then Z.max (n + len) 0 else Z.min n len in
  skipn (Z.to_nat k) l.

(** [l[::-1]]. *)
Definition reversed (l : list A) : list A := rev l.
End Slices.

Section Sorting.
Context {A : Type}.

(** Insertion of a decorated element in front of the first element it may
    precede.  Folding it from the right end of the input keeps elements
    with equal keys in their input order, as Python's sort does, with and
    without [reverse=True]. *)
Fixpoint insert_by (before : pynum -> pynum -> bool)
         (x : pynum * A) (l : list (pynum * A)) : list (pynum * A) :=
  match l with
  | [] => [x]
  | y :: l' =>
      if before (fst x) (fst y) then x :: l else y :: insert_by before x l'
  end.

Definition sort_decorated (reverse : bool) (l : list (pynum * A))
  : list (pynum * A) :=
  let before := if reverse then (fun a b => num_leb b a) else num_leb in
  fold_right (insert_by before) [] l.

(** [sorted(l, key=key, reverse=reverse)]: every key is computed first,
    in order; then the decorated list is sorted. *)
Definition sorted (key : A -> exc pynum) (reverse : bool) (l : list A)
  : exc (list A) :=
  ks <- mapM (fun x => k <- key x ;; Ok (k, x)) l ;;
  Ok (map snd (sort_decorated reverse ks)).
End Sorting.

End PyList.
Export PyList.

(** ** The [statistics] module *)

Module Statistics.

(** The square root of a rational is kept symbolic until it is rounded. *)
Record surd : Type := Sqrt { radicand : Q }.

(** [statistics.mean]: on [int] data the result is an [int] when the mean
    is a whole number, a [float] otherwise. *)
Definition mean (data : list pynum) : exc pynum :=
  match data with
  | [] => Raise StatisticsError
  | _ =>
      let q := Qred (to_Q (sum data) / inject_Z (Z.of_nat (length data))) in
      if forallb is_int data && (Qden q =? 1)%positive
      then Ok (PInt (Qnum q))
      else Ok (PFloat q)
  end.

(** [statistics.median]: the middle element of the sorted data, or the
    true-division mean of the two middle ones. *)
Definition median (data : list pynum) : exc pynum :=
  let s := map fst (sort_decorated false (map (fun x => (x, tt)) data)) in
  let n := length s in
  match n with
  | O => Raise StatisticsError
  | _ =>
      if Nat.odd n then Ok (nth (n / 2) s (PInt 0))
      else true_div (add (nth (n / 2 - 1) s (PInt 0)) (nth (n / 2) s (PInt 0)))
                    (PInt 2)
  end.

(** [statistics.stdev]: the sample standard deviation; it needs two data
    points. *)
Definition stdev (data : list pynum) : exc surd :=
  match data with
  | [] | [_] => Raise StatisticsError
  | _ =>
      let n := inject_Z (Z.of_nat (length data)) in
      let m := (to_Q (sum data) / n)%Q in
      let ss := fold_left Qplus
                  (map (fun x => ((to_Q x - m) * (to_Q x - m))%Q) data) 0%Q in
      Ok (Sqrt (Qred (ss / (n - 1))))
  end.

(** [round(sqrt v, d)], computed exactly: the nearest multiple of
    [10^-d] to the root, ties to the even one. *)
Definition round_surd (s : surd) (d : nat) : pynum :=
  let sc := inject_Z (10 ^ Z.of_nat d) in
  let w := (radicand s * sc * sc)%Q in
  let k := Z.sqrt (Qfloor w) in
  let h := (inject_Z k + (1 # 2))%Q in
  let r := match Qcompare w (h * h) with
           | Lt => k
           | Gt => k + 1
           | Eq => if Z.even k then k else k + 1
           end in
  PFloat (Qred (inject_Z r / sc)).

End Statistics.
Export Statistics.

(** ** The [datetime] class *)

Module DateTime.

(** A [datetime]: the calendar fields and, for an aware value, the offset
    of its time zone from UTC in seconds. *)
Record datetime : Type := mkdt {
  year : Z;
  month : Z;
  day : Z;
  hour : Z;
  minute : Z;
  second : Z;
  microsecond : Z;
  utcoffset : option Z
}.

Definition is_leap (y : Z) : bool :=
  (y mod 4 =? 0) && (negb (y mod 100 =? 0) || (y mod 400 =? 0)).

Definition days_in_month (y m : Z) : Z :=
  match m with
  | 1 | 3 | 5 | 7 | 8 | 10 | 12 => 31
  | 4 | 6 | 9 | 11 => 30
  | 2 => if is_leap y then 29 else 28
  | _ => 0
  end.

(** The ranges the constructor of [datetime] enforces. *)
Definition valid (d : datetime) : bool :=
  (1 <=? year d) && (year d <=? 9999) &&
  (1 <=? month d) && (month d <=? 12) &&
  (1 <=? day d) && (day d <=? days_in_month (year d) (month d)) &&
  (0 <=? hour d) && (hour d <? 24) &&
  (0 <=? minute d) && (minute d <? 60) &&
  (0 <=? second d) && (second d <? 60) &&
  (0 <=? microsecond d) && (microsecond d <? 1000000) &&
  match utcoffset d with
  | None => true
  | Some o => (-86400 <? o) && (o <? 86400)
  end.

(** *** Fixed-width decimal fields *)

Definition digit_char (d : Z) : ascii := ascii_of_nat (Z.to_nat (48 + d)).

(** ["%0wd" % n], for [0 <= n < 10^w]. *)
Fixpoint digits (w : nat) (n : Z) : string :=
  match w with
  | O => EmptyString
  | S w' => String (digit_char ((n / 10 ^ Z.of_nat w') mod 10)) (digits w' n)
  end.

Definition digit_val (c : ascii) : option Z :=
  let k := Z.of_nat (nat_of_ascii c) in
  if (48 <=? k) && (k <=? 57) then Some (k - 48) else None.

(** Reads exactly [w] decimal digits. *)
Fixpoint parse_digits (w : nat) (s : string) (acc : Z)
  : option (Z * string) :=
  match w with
  | O => Some (acc, s)
  | S w' =>
      match s with
      | EmptyString => None
      | String c s' =>
          match digit_val c with
          | Some d => parse_digits w' s' (acc * 10 + d)
          | None => None
          end
      end
  end.

Definition expect (c : ascii) (s : string) : option string :=
  match s with
  | String c' s' => if Ascii.eqb c c' then Some s' else None
  | EmptyString => None
  end.

(** *** [isoformat] *)

Definition format_offset (o : Z) : string :=
  let sign := if o <? 0 then "-" else "+" in
  let a := Z.abs o in
  let tail := if a mod 60 =? 0 then "" else ":" ++ digits 2 (a mod 60) in
  sign ++ digits 2 (a / 3600) ++ ":" ++ digits 2 ((a mod 3600) / 60) ++ tail.

Definition isoformat (d : datetime) : string :=
  let fraction :=
    if microsecond d =? 0 then "" else "." ++ digits 6 (microsecond d) in
  let zone :=
    match utcoffset d with
    | None => ""
    | Some o => format_offset o
    end in
  digits 4 (year d) ++ "-" ++ digits 2 (month d) ++ "-" ++ digits 2 (day d) ++
  "T" ++ digits 2 (hour d) ++ ":" ++ digits 2 (minute d) ++ ":" ++
  digits 2 (second d) ++ fraction ++ zone.

(** [strftime("%Y-%m-%d")] and [strftime("%Y-%m-%d %H:%M:%S")], for the
    years 1000 to 9999, which every platform prints with four digits. *)
Definition strftime_date (d : datetime) : string :=
  digits 4 (year d) ++ "-" ++ digits 2 (month d) ++ "-" ++ digits 2 (day d).

Definition strftime_datetime (d : datetime) : string :=
  strftime_date d ++ " " ++ digits 2 (hour d) ++ ":" ++
  digits 2 (minute d) ++ ":" ++ digits 2 (second d).

(** *** [fromisoformat]

    The reading of the strings [isoformat] writes: a date, a separator,
    [HH:MM:SS], an optional fraction of six digits and an optional offset
    [+HH:MM] or [+HH:MM:SS].  Anything else, and any field out of range,
    is a [ValueError]. *)

Definition offset_of (sg hh mm ss : Z) (rest : string)
  : option (option Z * string) :=
  if (hh <? 24) && (mm <? 60) && (ss <? 60)
  then Some (Some (sg * (hh * 3600 + mm * 60 + ss)), rest)
  else None.

Definition parse_offset (s : string) : option (option Z * string) :=
  match s with
  | EmptyString => Some (None, EmptyString)
  | String c s1 =>
      let sign := if Ascii.eqb c "+" then Some 1
                  else if Ascii.eqb c "-" then Some (-1) else None in
      match sign with
      | None => None
      | Some sg =>
          match parse_digits 2 s1 0 with
          | None => None
          | Some (hh, s2) =>
              match expect ":" s2 with
              | None => None
              | Some s3 =>
                  match parse_digits 2 s3 0 with
                  | None => None
                  | Some (mm, s4) =>
                      match s4 with
                      | String c5 s5 =>
                          if Ascii.eqb c5 ":" then
                            match parse_digits 2 s5 0 with
                            | Some (ss, s6) => offset_of sg hh mm ss s6
                            | None => None
                            end
                          else None
                      | EmptyString => offset_of sg hh mm 0 EmptyString
                      end
                  end
              end
          end
      end
  end.

Definition parse_fraction (s : string) : option (Z * string) :=
  match s with
  | String c s1 =>
      if Ascii.eqb c "." then parse_digits 6 s1 0 else Some (0, s)
  | EmptyString => Some (0, s)
  end.

Definition parse_time (y mo dd : Z) (s : string) : option datetime :=
  match parse_digits 2 s 0 with
  | None => None
  | Some (hh, s) =>
  match expect ":" s with
  | None => None
  | Some s =>
  match parse_digits 2 s 0 with
  | None => None
  | Some (mi, s) =>
  match expect ":" s with
  | None => None
  | Some s =>
  match parse_digits 2 s 0 with
  | None => None
  | Some (ss, s) =>
  match parse_fraction s with
  | None => None
  | Some (us, s) =>
  match parse_offset s with
  | Some (tz, EmptyString) => Some (mkdt y mo dd hh mi ss us tz)
  | _ => None
  end end end end end end end.

Definition parse_iso (s : string) : option datetime :=
  match parse_digits 4 s 0 with
  | None => None
  | Some (y, s) =>
  match expect "-" s with
  | None => None
  | Some s =>
  match parse_digits 2 s 0 with
  | None => None
  | Some (mo, s) =>
  match expect "-" s with
  | None => None
  | Some s =>
  match parse_digits 2 s 0 with
  | None => None
  | Some (dd, s) =>
  match s with
  | EmptyString => Some (mkdt y mo dd 0 0 0 0 None)
  | String _ s => parse_time y mo dd s
  end end end end end end.

Definition fromisoformat (s : string) : exc datetime :=
  match parse_iso s with
  | Some d => if valid d then Ok d else Raise ValueError
  | None => Raise ValueError
  end.

(** *** Ordinals and differences *)

Definition days_before_year (y : Z) : Z :=
  let p := y - 1 in p * 365 + p / 4 - p / 100 + p / 400.

Definition days_before_month (y m : Z) : Z :=
  fold_left Z.add
    (map (days_in_month y) (map Z.of_nat (seq 1 (Z.to_nat (m - 1))))) 0.

Definition toordinal (d : datetime) : Z :=
  days_before_year (year d) + days_before_month (year d) (month d) + day d.

(** The reading of the fields in microseconds, the offset left aside. *)
Definition naive_micros (d : datetime) : Z :=
  (((toordinal d * 24 + hour d) * 60 + minute d) * 60 + second d) * 1000000
  + microsecond d.

(** The clock of the host: what [datetime.now()] reads, and the offset of
    the local time zone from UTC in seconds. *)
Record clock : Type := mkclock {
  local_now : datetime;
  local_offset : Z
}.

(** The reading, in microseconds, of [datetime.now(tz)]: the local time
    for [tz = None], the time at the given offset otherwise. *)
Definition now_micros (c : clock) (tz : option Z) : Z :=
  match tz with
  | None => naive_micros (local_now c)
  | Some o => naive_micros (local_now c) + (o - local_offset c) * 1000000
  end.

(** [(datetime.now(d.tzinfo) - d).days]: both operands carry the time zone
    of [d], so the difference is the difference of their readings; [days]
    rounds towards minus infinity. *)
Definition days_since (c : clock) (d : datetime) : Z :=
  (now_micros c (utcoffset d) - naive_micros d) / 86400000000.

End DateTime.
Export DateTime.

(** ** The [re] module

    The patterns of the scripts use literals, [\b], [\s], [^], groups,
    alternation, character sets and the postfix operators [?], [*] and [+].
    They are parsed from their source text and matched on ASCII text as
    [re.search] with [re.IGNORECASE] does. *)

Module Re.

Inductive regex : Type :=
| Eps
| Lit (c : ascii)
| Cls (cs : list ascii)
| Space
| WordB
| Bol
| Seq (r1 r2 : regex)
| Alt (r1 r2 : regex)
| Opt (r : regex)
| Star (r : regex)
| Plus (r : regex).

(** *** Parsing a pattern *)

Fixpoint parse_set (s : list ascii) (acc : list ascii)
  : option (list ascii * list ascii) :=
  match s with
  | [] => None
  | c :: s' =>
      if Ascii.eqb c "]" then Some (rev acc, s')
      else parse_set s' (c :: acc)
  end.

Definition parse_escape (c : ascii) : option regex :=
  if Ascii.eqb c "b" then Some WordB
  else if Ascii.eqb c "s" then Some Space
  else if Ascii.eqb c "'" then Some (Lit c)
  else None.

Fixpoint parse_postfix (r : regex) (s : list ascii) : regex * list ascii :=
  match s with
  | c :: s' =>
      if Ascii.eqb c "?" then parse_postfix (Opt r) s'
      else if Ascii.eqb c "*" then parse_postfix (Star r) s'
      else if Ascii.eqb c "+" then parse_postfix (Plus r) s'
      else (r, s)
  | [] => (r, s)
  end.

Definition closes (c : ascii) : bool :=
  Ascii.eqb c "|" || Ascii.eqb c ")".

Fixpoint parse_alt (fuel : nat) (s : list ascii)
  : option (regex * list ascii) :=
  match fuel with
  | O => None
  | S f =>
      match parse_seq f s with
      | Some (r1, c :: s') =>
          if Ascii.eqb c "|" then
            match parse_alt f s' with
            | Some (r2, s'') => Some (Alt r1 r2, s'')
            | None => None
            end
          else Some (r1, c :: s')
      | other => other
      end
  end
with parse_seq (fuel : nat) (s : list ascii)
  : option (regex * list ascii) :=
  match fuel with
  | O => None
  | S f =>
      match s with
      | [] => Some (Eps, s)
      | c :: _ =>
          if closes c then Some (Eps, s)
          else
            match parse_atom f s with
            | Some (a, s') =>
                let (a', s'') := parse_postfix a s' in
                match parse_seq f s'' with
                | Some (Eps, s3) => Some (a', s3)
                | Some (r, s3) => Some (Seq a' r, s3)
                | None => None
                end
            | None => None
            end
      end
  end
with parse_atom (fuel : nat) (s : list ascii)
  : option (regex * list ascii) :=
  match fuel with
  | O => None
  | S f =>
      match s with
      | [] => None
      | c :: s' =>
          if Ascii.eqb c "(" then
            match parse_alt f s' with
            | Some (r, c' :: s'') =>
                if Ascii.eqb c' ")" then Some (r, s'') else None
            | _ => None
            end
          else if Ascii.eqb c "[" then
            match parse_set s' [] with
            | Some (cs, s'') => Some (Cls cs, s'')
            | None => None
            end
          else if Ascii.eqb c "\" then
            match s' with
            | e :: s'' =>
                match parse_escape e with
                | Some r => Some (r, s'')
                | None => None
                end
            | [] => None
            end
          else if Ascii.eqb c "^" then Some (Bol, s')
          else Some (Lit c, s')
      end
  end.

Definition compile (pattern : string) : option regex :=
  let s := list_ascii_of_string pattern in
  match parse_alt (3 * length s + 3) s with
  | Some (r, []) => Some r
  | _ => None
  end.

(** *** Matching *)

(** A position in the text: the character before it, if any, and the text
    after it. *)
Definition position : Type := (option ascii * list ascii)%type.

Definition lower (c : ascii) : ascii :=
  let k := nat_of_ascii c in
  if (65 <=? k)%nat && (k <=? 90)%nat then ascii_of_nat (k + 32) else c.

Definition eq_nocase (a b : ascii) : bool := Ascii.eqb (lower a) (lower b).

Definition is_word (c : ascii) : bool :=
  let k := nat_of_ascii c in
  ((48 <=? k) && (k <=? 57) || (65 <=? k) && (k <=? 90) ||
   (97 <=? k) && (k <=? 122) || (k =? 95))%nat.

Definition is_space (c : ascii) : bool :=
  let k := nat_of_ascii c in
  ((k =? 32) || (9 <=? k) && (k <=? 13) || (28 <=? k) && (k <=? 31))%nat.

Definition word_before (p : position) : bool :=
  match fst p with Some c => is_word c | None => false end.

Definition word_after (p : position) : bool :=
  match snd p with c :: _ => is_word c | [] => false end.

Definition eat (test : ascii -> bool) (p : position) : list position :=
  match snd p with
  | x :: t => if test x then [(Some x, t)] else []
  | [] => []
  end.

(** The repetitions of [step] from [p]; an iteration that consumes
    nothing is not repeated. *)
Fixpoint star (step : position -> list position) (fuel : nat) (p : position)
  : list position :=
  p :: match fuel with
       | O => []
       | S f =>
           flat_map (star step f)
             (filter (fun q => (length (snd q) <? length (snd p))%nat)
                     (step p))
       end.

(** The positions at which a match of [r] that starts at [p] may end. *)
Fixpoint ends (r : regex) (p : position) : list position :=
  match r with
  | Eps => [p]
  | Lit c => eat (eq_nocase c) p
  | Cls cs => eat (fun x => existsb (eq_nocase x) cs) p
  | Space => eat is_space p
  | WordB => if xorb (word_before p) (word_after p) then [p] else []
  | Bol => match fst p with None => [p] | Some _ => [] end
  | Seq r1 r2 => flat_map (ends r2) (ends r1 p)
  | Alt r1 r2 => ends r1 p ++ ends r2 p
  | Opt r1 => ends r1 p ++ [p]
  | Star r1 => star (ends r1) (length (snd p)) p
  | Plus r1 => flat_map (star (ends r1) (length (snd p))) (ends r1 p)
  end.

(** Every position of a text, from its start to its end. *)
Fixpoint positions (prev : option ascii) (s : list ascii) : list position :=
  (prev, s) :: match s with
               | [] => []
               | c :: s' => positions (Some c) s'
               end.

Definition matches_somewhere (r : regex) (text : string) : bool :=
  existsb (fun p => match ends r p with [] => false | _ => true end)
          (positions None (list_ascii_of_string text)).

(** [bool(re.search(pattern, text, re.IGNORECASE))]. *)
Definition search (pattern text : string) : exc bool :=
  match compile pattern with
  | Some r => Ok (matches_somewhere r text)
  | None => Raise ReError
  end.

End Re.

(** ** JSON documents and [dict] access *)

Module Json.

(** A parsed JSON document.  The text of a file written by [json.dump] is
    not modelled: a file holds the document itself, and [json.load] gives
    back the document [json.dump] was given. *)
Local Unset Elimination Schemes.
Inductive json : Type :=
| JNull
| JInt (z : Z)
| JStr (s : string)
| JArr (items : list json)
| JObj (fields : list (string * json)).
Local Set Elimination Schemes.

Fixpoint assoc {V : Type} (k : string) (d : list (string * V)) : option V :=
  match d with
  | [] => None
  | (k', v) :: d' => if String.eqb k k' then Some v else assoc k d'
  end.

(** [item[k]]: a [KeyError] when the key is missing, a [TypeError] when
    [item] is not an object. *)
Definition getitem (item : json) (k : string) : exc json :=
  match item with
  | JObj d =>
      match assoc k d with
      | Some v => Ok v
      | None => Raise (KeyError k)
      end
  | _ => Raise TypeError
  end.

(** [item.get(k)] and [item.get(k, default)]. *)
Definition get (item : json) (k : string) (default : json) : exc json :=
  match item with
  | JObj d =>
      match assoc k d with
      | Some v => Ok v
      | None => Ok default
      end
  | _ => Raise AttributeError
  end.

(** The record fields are typed as the annotations of the dataclass say;
    a document of another shape is a [TypeError] here. *)
Definition as_int (v : json) : exc Z :=
  match v with JInt z => Ok z | _ => Raise TypeError end.

Definition as_str (v : json) : exc string :=
  match v with JStr s => Ok s | _ => Raise TypeError end.

Definition as_opt_str (v : json) : exc (option string) :=
  match v with
  | JNull => Ok None
  | JStr s => Ok (Some s)
  | _ => Raise TypeError
  end.

(** The truth value of a document, as [if] and [not] take it. *)
Definition truthy (v : json) : bool :=
  match v with
  | JNull => false
  | JInt z => negb (z =? 0)
  | JStr s => negb (String.eqb s "")
  | JArr l => match l with [] => false | _ => true end
  | JObj d => match d with [] => false | _ => true end
  end.

(** [for item in v]: the items of an array, the keys of an object, the
    characters of a string. *)
Definition iterate (v : json) : exc (list json) :=
  match v with
  | JArr l => Ok l
  | JObj d => Ok (map (fun kv => JStr (fst kv)) d)
  | JStr s => Ok (map (fun c => JStr (String c "")) (list_ascii_of_string s))
  | _ => Raise TypeError
  end.

Definition of_opt_str (o : option string) : json :=
  match o with
  | None => JNull
  | Some s => JStr s
  end.

End Json.
Export Json.

(** ** The outside world: HTTP, the wall clock and [time.sleep] *)

Module Http.

Record request : Type := mkRequest {
  url : string;
  params : list (string * string)
}.

(** What [requests.get] comes back with: a connection failure, or a
    response with its status, its headers and, when the body is JSON, the
    document in it. *)
Inductive outcome : Type :=
| Failed
| Response (status : Z) (headers : list (string * string))
           (body : option json).

Record reply : Type := mkReply {
  latency : Q;
  result : outcome
}.

(** The server: its reply to the [n]-th request of the run. *)
Definition server : Type := nat -> request -> reply.

Inductive event : Type :=
| Get (rq : request) (rp : reply)
| Sleep (seconds : pynum).

(** The state of a run: the reading of [time.time()], the number of
    requests made, and what happened so far, latest first. *)
Record world : Type := mkWorld {
  now : Q;
  sent : nat;
  log : list event
}.

(** A computation that acts on the world and may raise. *)
Definition io (A : Type) : Type := world -> exc A * world.

Definition io_ret {A : Type} (a : A) : io A := fun w => (Ok a, w).

Definition io_bind {A B : Type} (c : io A) (k : A -> io B) : io B :=
  fun w =>
    match c w with
    | (Ok a, w') => k a w'
    | (Raise e, w') => (Raise e, w')
    end.

(** A pure computation that may raise, run inside [io]. *)
Definition lift {A : Type} (c : exc A) : io A := fun w => (c, w).

(** [try: c except Exception: h]. *)
Definition try_except {A : Type} (c : io A) (h : exn -> io A) : io A :=
  fun w =>
    match c w with
    | (Ok a, w') => (Ok a, w')
    | (Raise e, w') => h e w'
    end.

Definition requests_get (srv : server) (rq : request) : io outcome :=
  fun w =>
    let rp := srv (sent w) rq in
    let w' := {| now := Qred (now w + latency rp);
                 sent := S (sent w);
                 log := Get rq rp :: log w |} in
    match result rp with
    | Failed => (Raise ConnectionError, w')
    | r => (Ok r, w')
    end.

Definition time_time : io Q := fun w => (Ok (now w), w).

Definition time_sleep (seconds : pynum) : io unit :=
  fun w =>
    if num_ltb seconds (PInt 0) then (Raise ValueError, w)
    else (Ok tt, {| now := Qred (now w + to_Q seconds);
                    sent := sent w;
                    log := Sleep seconds :: log w |}).

(** [str(z)], as a query parameter or in an f-string. *)
Definition str_of_int (z : Z) : string :=
  NilZero.string_of_int (Z.to_int z).

(** *** Responses *)

Definition status_of (r : outcome) : Z :=
  match r with Response s _ _ => s | Failed => 0 end.

Definition headers_of (r : outcome) : list (string * string) :=
  match r with Response _ h _ => h | Failed => [] end.

(** [response.raise_for_status()]. *)
Definition raise_for_status (r : outcome) : exc unit :=
  if (400 <=? status_of r) && (status_of r <? 600)
  then Raise (HTTPError (status_of r))
  else Ok tt.

(** [response.ok]: whether [raise_for_status] returns. *)
Definition ok (r : outcome) : bool :=
  match raise_for_status r with
  | Ok _ => true
  | Raise _ => false
  end.

(** [response.json()]. *)
Definition response_json (r : outcome) : exc json :=
  match r with
  | Response _ _ (Some doc) => Ok doc
  | _ => Raise ValueError
  end.

Definition string_lower (s : string) : string :=
  string_of_list_ascii (map Re.lower (list_ascii_of_string s)).

(** [response.headers.get(k)]: header names compare without case. *)
Fixpoint header (k : string) (h : list (string * string)) : option string :=
  match h with
  | [] => None
  | (k', v) :: h' =>
      if String.eqb (string_lower k) (string_lower k') then Some v
      else header k h'
  end.

Fixpoint digits_value (s : list ascii) (acc : Z) : option Z :=
  match s with
  | [] => Some acc
  | c :: s' =>
      match digit_val c with
      | Some d => digits_value s' (acc * 10 + d)
      | None => None
      end
  end.

(** [int(s)] on a decimal numeral with an optional sign; any other text
    is a [ValueError]. *)
Definition int_of_string (s : string) : exc Z :=
  let unsigned cs :=
    match cs with
    | [] => None
    | _ => digits_value cs 0
    end in
  let v :=
    match list_ascii_of_string s with
    | c :: cs =>
        if Ascii.eqb c "-" then option_map Z.opp (unsigned cs)
        else if Ascii.eqb c "+" then unsigned cs
        else unsigned (c :: cs)
    | [] => None
    end in
  match v with
  | Some z => Ok z
  | None => Raise ValueError
  end.

(** [int(response.headers.get(k, default))]. *)
Definition int_header (r : outcome) (k : string) (default : Z) : exc Z :=
  match header k (headers_of r) with
  | Some s => int_of_string s
  | None => Ok default
  end.

(** *** Rate limits

    The block both scripts run on a response: below five remaining calls,
    sleep until the reset time, at least one second. *)
Definition rate_limit_wait (reset_time : Z) (t : Q) : pynum :=
  add (num_max (PFloat (Qred (inject_Z reset_time - t))) (PInt 0)) (PInt 1).

Definition respect_rate_limit (r : outcome) : io unit :=
  io_bind (lift (int_header r "X-RateLimit-Remaining" 10)) (fun remaining =>
  if remaining <? 5 then
    io_bind (lift (int_header r "X-RateLimit-Reset" 0)) (fun reset_time =>
    io_bind time_time (fun t =>
    time_sleep (rate_limit_wait reset_time t)))
  else io_ret tt).

End Http.
Export Http.

Declare Scope io_scope.
Delimit Scope io_scope with io.
Notation "x <- c ;; k" := (io_bind c (fun x => k))
  (at level 61, c at next level, right associativity) : io_scope.
Notation "c ;; k" := (io_bind c (fun _ => k))
  (at level 61, right associativity) : io_scope.

(** * [github_debt_analysis.py] *)

Module Debt.

Record RepoMetrics : Type := mkRepo {
  name : string;
  full_name : string;
  stars : Z;
  open_issues : Z;
  created_at : datetime;
  language : option string;
  forks : Z;
  total_issues : Z;
  closed_issues : Z;
  contributors : Z;
  commits : Z;
  updated_at : option datetime
}.

(** Issues per 1000 stars. *)
Definition issues_per_1k_stars (r : RepoMetrics) : exc pynum :=
  if stars r =? 0 then Ok (PInt 0)
  else
    q <- true_div (PInt (open_issues r)) (PInt (stars r)) ;;
    Ok (mul q (PInt 1000)).

(** Percentage of issues that have been closed. *)
Definition issue_close_rate (r : RepoMetrics) : exc pynum :=
  if total_issues r =? 0 then Ok (PInt 0)
  else
    q <- true_div (PInt (closed_issues r)) (PInt (total_issues r)) ;;
    Ok (mul q (PInt 100)).

(** Repository age in days. *)
Definition age_days (c : clock) (r : RepoMetrics) : Z :=
  days_since c (created_at r).

(** Average open issues accumulated per year of existence. *)
Definition issues_per_year (c : clock) (r : RepoMetrics) : exc pynum :=
  a <- true_div (PInt (age_days c r)) (PInt 365) ;;
  let years := num_max a (PFloat (1 # 10)) in
  true_div (PInt (open_issues r)) years.

(** The era of a repository. *)
Definition era (r : RepoMetrics) : string :=
  if year (created_at r) <? 2022 then "pre-ai" else "post-ai".

(** ** [find_extremes] *)

Record summary : Type := mkSummary {
  s_name : string;
  s_stars : Z;
  s_open_issues : Z;
  s_issues_per_1k_stars : pynum;
  s_created : string;
  s_era : string
}.

Definition repo_summary (r : RepoMetrics) : exc summary :=
  q <- issues_per_1k_stars r ;;
  Ok {| s_name := full_name r;
        s_stars := stars r;
        s_open_issues := open_issues r;
        s_issues_per_1k_stars := round q 2;
        s_created := strftime_date (created_at r);
        s_era := era r |}.

Record extremes : Type := mkExtremes {
  highest_debt_ratio : list summary;
  lowest_debt_ratio : list summary
}.

Definition find_extremes (repos : list RepoMetrics) (top_n : Z)
  : exc extremes :=
  sorted_by_ratio <- sorted issues_per_1k_stars true repos ;;
  hi <- mapM repo_summary (slice_to top_n sorted_by_ratio) ;;
  lo <- mapM repo_summary (reversed (slice_from (- top_n) sorted_by_ratio)) ;;
  Ok {| highest_debt_ratio := hi; lowest_debt_ratio := lo |}.

(** ** The cache file *)

(** The files of the working directory, by name. *)
Definition files : Type := string -> option json.

Definition write_file (fs : files) (path : string) (doc : json) : files :=
  fun p => if String.eqb p path then Some doc else fs p.

Definition cache_entry (r : RepoMetrics) : json :=
  JObj [ ("name", JStr (name r));
         ("full_name", JStr (full_name r));
         ("stars", JInt (stars r));
         ("open_issues", JInt (open_issues r));
         ("created_at", JStr (isoformat (created_at r)));
         ("language", of_opt_str (language r));
         ("forks", JInt (forks r));
         ("total_issues", JInt (total_issues r));
         ("closed_issues", JInt (closed_issues r));
         ("contributors", JInt (contributors r)) ].

Definition save_cache (repos : list RepoMetrics) (cache_file : string)
           (fs : files) : files :=
  write_file fs cache_file (JArr (map cache_entry repos)).

Definition load_entry (item : json) : exc RepoMetrics :=
  v_name <- getitem item "name" ;;
  p_name <- as_str v_name ;;
  v_full <- getitem item "full_name" ;;
  p_full <- as_str v_full ;;
  v_stars <- getitem item "stars" ;;
  p_stars <- as_int v_stars ;;
  v_open <- getitem item "open_issues" ;;
  p_open <- as_int v_open ;;
  v_created <- getitem item "created_at" ;;
  s_created <- as_str v_created ;;
  p_created <- fromisoformat s_created ;;
  v_lang <- get item "language" JNull ;;
  p_lang <- as_opt_str v_lang ;;
  v_forks <- getitem item "forks" ;;
  p_forks <- as_int v_forks ;;
  v_total <- get item "total_issues" (JInt 0) ;;
  p_total <- as_int v_total ;;
  v_closed <- get item "closed_issues" (JInt 0) ;;
  p_closed <- as_int v_closed ;;
  v_contrib <- get item "contributors" (JInt 0) ;;
  p_contrib <- as_int v_contrib ;;
  Ok {| name := p_name; full_name := p_full; stars := p_stars;
        open_issues := p_open; created_at := p_created;
        language := p_lang; forks := p_forks;
        total_issues := p_total; closed_issues := p_closed;
        contributors := p_contrib; commits := 0; updated_at := None |}.

(** [load_cache]: no file gives the empty list, and so does any exception
    raised while the file is read. *)
Definition load_cache (cache_file : string) (fs : files)
  : list RepoMetrics :=
  match fs cache_file with
  | None => []
  | Some data =>
      let attempt := (items <- iterate data ;; mapM load_entry items) in
      match attempt with
      | Ok repos => repos
      | Raise _ => []
      end
  end.

(** ** Fetching repositories *)

Definition GITHUB_API_BASE : string := "https://api.github.com".

(** Search GitHub repositories. *)
Definition search_repos (srv : server) (query sort : string)
           (per_page page : Z) : io json :=
  (let rq := {| url := GITHUB_API_BASE ++ "/search/repositories";
                params := [ ("q", query); ("sort", sort); ("order", "desc");
                            ("per_page", str_of_int per_page);
                            ("page", str_of_int page) ] |} in
   response <- requests_get srv rq ;;
   lift (raise_for_status response) ;;
   respect_rate_limit response ;;
   lift (doc <- response_json response ;; get doc "items" (JArr []))%exc)%io.

(** [s.replace("Z", "+00:00")]. *)
Fixpoint replace_Z (s : string) : string :=
  match s with
  | EmptyString => EmptyString
  | String c s' =>
      if Ascii.eqb c "Z" then "+00:00" ++ replace_Z s'
      else String c (replace_Z s')
  end.

(** Parse a GitHub API record into [RepoMetrics]. *)
Definition parse_repo (data : json) : exc RepoMetrics :=
  v_updated <- get data "updated_at" JNull ;;
  updated <-
    (if truthy v_updated then
       v <- getitem data "updated_at" ;;
       s <- as_str v ;;
       d <- fromisoformat (replace_Z s) ;;
       Ok (Some d)
     else Ok None) ;;
  v_name <- getitem data "name" ;;
  p_name <- as_str v_name ;;
  v_full <- getitem data "full_name" ;;
  p_full <- as_str v_full ;;
  v_stars <- getitem data "stargazers_count" ;;
  p_stars <- as_int v_stars ;;
  v_open <- getitem data "open_issues_count" ;;
  p_open <- as_int v_open ;;
  v_created <- getitem data "created_at" ;;
  s_created <- as_str v_created ;;
  p_created <- fromisoformat (replace_Z s_created) ;;
  v_lang <- get data "language" JNull ;;
  p_lang <- as_opt_str v_lang ;;
  v_forks <- getitem data "forks_count" ;;
  p_forks <- as_int v_forks ;;
  Ok {| name := p_name; full_name := p_full; stars := p_stars;
        open_issues := p_open; created_at := p_created;
        language := p_lang; forks := p_forks;
        total_issues := 0; closed_issues := 0; contributors := 0;
        commits := 0; updated_at := updated |}.

(** Fetch detailed repo info including issue counts. *)
Definition fetch_repo_details (srv : server) (full_name : string) : io json :=
  (let rq := {| url := GITHUB_API_BASE ++ "/repos/" ++ full_name;
                params := [] |} in
   response <- requests_get srv rq ;;
   lift (raise_for_status response) ;;
   lift (response_json response))%io.

(** [resp.json().get("total_count", 0) if resp.ok else 0]. *)
Definition total_count (resp : outcome) : exc json :=
  if ok resp then doc <- response_json resp ;; get doc "total_count" (JInt 0)
  else Ok (JInt 0).

Definition issues_url (full_name state : string) : string :=
  GITHUB_API_BASE ++ "/search/issues?q=repo:" ++ full_name ++
  "+type:issue+state:" ++ state ++ "&per_page=1".

(** Fetch open and closed issue counts for a repo: two requests, half a
    second apart; any exception gives the pair of zeros. *)
Definition fetch_issue_counts (srv : server) (full_name : string)
  : io (json * json) :=
  try_except
    (open_resp <- requests_get srv {| url := issues_url full_name "open";
                                      params := [] |} ;;
     open_count <- lift (total_count open_resp) ;;
     time_sleep (PFloat (1 # 2)) ;;
     closed_resp <- requests_get srv {| url := issues_url full_name "closed";
                                        params := [] |} ;;
     closed_count <- lift (total_count closed_resp) ;;
     io_ret (open_count, closed_count))%io
    (fun _ => io_ret (JInt 0, JInt 0)).

Definition default_languages : list string :=
  ["javascript"; "python"; "typescript"; "java"; "go"; "rust"].

(** One [try] block of the loop of [fetch_popular_repos]: a search, the
    records it gives parsed and appended, a pause of one second; any
    exception leaves [repos] as it was. *)
Definition fetch_query (srv : server) (query : string)
           (repos : list RepoMetrics) : io (list RepoMetrics) :=
  try_except
    (items <- search_repos srv query "stars" 30 1 ;;
     parsed <- lift (l <- iterate items ;; mapM parse_repo l)%exc ;;
     time_sleep (PInt 1) ;;
     io_ret (repos ++ parsed)%list)%io
    (fun _ => io_ret repos).

Fixpoint fetch_languages (srv : server) (min_stars : Z)
         (languages : list string) (max_repos : Z)
         (repos : list RepoMetrics) : io (list RepoMetrics) :=
  match languages with
  | [] => io_ret repos
  | lang :: rest =>
      (let query_pre := "language:" ++ lang ++ " stars:>" ++
                        str_of_int min_stars ++ " created:<2022-01-01" in
       repos1 <- fetch_query srv query_pre repos ;;
       let query_post := "language:" ++ lang ++ " stars:>" ++
                         str_of_int min_stars ++ " created:>=2022-01-01" in
       repos2 <- fetch_query srv query_post repos1 ;;
       if max_repos <=? Z.of_nat (length repos2) then io_ret repos2
       else fetch_languages srv min_stars rest max_repos repos2)%io
  end.

(** Fetch popular repositories across different eras. *)
Definition fetch_popular_repos (srv : server) (min_stars : Z)
           (languages : option (list string)) (max_repos : Z)
  : io (list RepoMetrics) :=
  (let languages :=
     match languages with
     | None | Some [] => default_languages
     | Some l => l
     end in
   repos <- fetch_languages srv min_stars languages max_repos [] ;;
   io_ret (slice_to max_repos repos))%io.

(** ** Statistics by era and by language *)

(** A [dict] of statistics, in insertion order. *)
Definition stats : Type := list (string * pynum).

Definition calc_stats (c : clock) (repo_list : list RepoMetrics)
  : exc stats :=
  match repo_list with
  | [] => Ok [("count", PInt 0)]
  | _ =>
      ratios <- mapM issues_per_1k_stars repo_list ;;
      let stars_l := map (fun r => PInt (stars r)) repo_list in
      let issues := map (fun r => PInt (open_issues r)) repo_list in
      per_year <- mapM (issues_per_year c) repo_list ;;
      close_rates <- mapM issue_close_rate
                       (filter (fun r => 0 <? total_issues r) repo_list) ;;
      let contribs :=
        map (fun r => PInt (contributors r))
            (filter (fun r => 0 <? contributors r) repo_list) in
      avg_ratio <- mean ratios ;;
      med_ratio <- median ratios ;;
      dev <- (if (1 <? length ratios)%nat
              then s <- stdev ratios ;; Ok (round_surd s 2)
              else Ok (PInt 0)) ;;
      avg_stars <- mean stars_l ;;
      avg_issues <- mean issues ;;
      avg_year <- mean per_year ;;
      med_year <- median per_year ;;
      let base :=
        [ ("count", PInt (Z.of_nat (length repo_list)));
          ("avg_issues_per_1k_stars", round avg_ratio 2);
          ("median_issues_per_1k_stars", round med_ratio 2);
          ("std_dev_ratio", dev);
          ("total_stars", sum stars_l);
          ("total_open_issues", sum issues);
          ("avg_stars", round avg_stars 0);
          ("avg_open_issues", round avg_issues 0);
          ("avg_issues_per_year", round avg_year 2);
          ("median_issues_per_year", round med_year 2) ] in
      with_rates <-
        match close_rates with
        | [] => Ok base
        | _ =>
            a <- mean close_rates ;;
            m <- median close_rates ;;
            Ok (base ++ [ ("avg_close_rate", round a 1);
                          ("median_close_rate", round m 1) ])%list
        end ;;
      match contribs with
      | [] => Ok with_rates
      | _ =>
          a <- mean contribs ;;
          m <- median contribs ;;
          Ok (with_rates ++ [ ("avg_contributors", round a 0);
                              ("median_contributors", round m 0) ])%list
      end
  end.

Record era_analysis : Type := mkEras {
  pre_ai_era : stats;
  post_ai_era : stats
}.

(** Analyze metrics grouped by pre-AI vs post-AI era. *)
Definition analyze_by_era (c : clock) (repos : list RepoMetrics)
  : exc era_analysis :=
  let pre_ai := filter (fun r => String.eqb (era r) "pre-ai") repos in
  let post_ai := filter (fun r => String.eqb (era r) "post-ai") repos in
  pre <- calc_stats c pre_ai ;;
  post <- calc_stats c post_ai ;;
  Ok {| pre_ai_era := pre; post_ai_era := post |}.

Record lang_stats : Type := mkLangStats {
  l_count : Z;
  l_avg_issues_per_1k_stars : pynum;
  l_median_issues_per_1k_stars : pynum
}.

(** [by_lang[lang].append(repo)], the key created at its first use. *)
Fixpoint group_add (by_lang : list (string * list RepoMetrics))
         (lang : string) (repo : RepoMetrics)
  : list (string * list RepoMetrics) :=
  match by_lang with
  | [] => [(lang, [repo])]
  | (k, l) :: rest =>
      if String.eqb lang k then (k, l ++ [repo])%list :: rest
      else (k, l) :: group_add rest lang repo
  end.

Definition language_or_unknown (r : RepoMetrics) : string :=
  match language r with
  | None | Some EmptyString => "Unknown"
  | Some l => l
  end.

(** Analyze metrics grouped by programming language. *)
Definition analyze_by_language (repos : list RepoMetrics)
  : exc (list (string * lang_stats)) :=
  let by_lang :=
    fold_left (fun acc r => group_add acc (language_or_unknown r) r)
              repos [] in
  groups <- mapM (fun '(lang, repo_list) =>
                    if (length repo_list <? 3)%nat then Ok []
                    else
                      ratios <- mapM issues_per_1k_stars repo_list ;;
                      a <- mean ratios ;;
                      m <- median ratios ;;
                      Ok [ (lang,
                            {| l_count := Z.of_nat (length repo_list);
                               l_avg_issues_per_1k_stars := round a 2;
                               l_median_issues_per_1k_stars := round m 2 |}) ])
                 by_lang ;;
  Ok (concat groups).

(** ** The report *)

(** The report is kept as its lines, and a line as its pieces: literal
    text, a number formatted by [{x}], or a number formatted by [{x:,}].
    The decimal text of a number is not modelled; it is a function of the
    number.  The template is the one of the script, but for two spots
    outside ASCII text or inside quotation marks: the header of the second
    era column is written with [>=], and the words "problems per unit of
    popularity" without their quotation marks. *)
Inductive piece : Type :=
| Txt (s : string)
| Val (x : pynum)
| Sep (x : pynum).

Definition line : Type := list piece.

(** [d.get(k, default)], formatted by [{...}] and by [{...:,}]. *)
Definition stat (d : stats) (k : string) (default : piece) : piece :=
  match assoc k d with
  | Some x => Val x
  | None => default
  end.

Definition stat_sep (d : stats) (k : string) : piece :=
  match assoc k d with
  | Some x => Sep x
  | None => Sep (PInt 0)
  end.

Definition stat_or_zero (d : stats) (k : string) : pynum :=
  match assoc k d with
  | Some x => x
  | None => PInt 0
  end.

(** A row of the era table whose two cells default to ["N/A"]. *)
Definition era_row (label k : string) (pre post : stats) : line :=
  [ Txt ("| " ++ label ++ " | "); stat pre k (Txt "N/A"); Txt " | ";
    stat post k (Txt "N/A"); Txt " |" ].

Definition summary_row (r : summary) : line :=
  [ Txt ("| " ++ s_name r ++ " | "); Sep (PInt (s_stars r)); Txt " | ";
    Sep (PInt (s_open_issues r)); Txt " | "; Val (s_issues_per_1k_stars r);
    Txt (" | " ++ s_created r ++ " | " ++ s_era r ++ " |") ].

Definition language_row (g : string * lang_stats) : line :=
  [ Txt ("| " ++ fst g ++ " | "); Val (PInt (l_count (snd g))); Txt " | ";
    Val (l_avg_issues_per_1k_stars (snd g)); Txt " | ";
    Val (l_median_issues_per_1k_stars (snd g)); Txt " |" ].

Definition text (l : list string) : list line := map (fun s => [Txt s]) l.

Definition report_head (c : clock) (total : nat) (pre post : stats)
  : list line :=
  (text [ "# GitHub Technical Debt Analysis Report"; "" ] ++
   [ [ Txt ("Generated: " ++ strftime_datetime (local_now c)) ];
     [ Txt "Total Repositories Analyzed: "; Val (PInt (Z.of_nat total)) ] ] ++
   text [ "";
          "## Executive Summary";
          "";
          "This analysis examines the relationship between repository popularity (stars) and ";
          "technical debt indicators (open issues) across different time periods.";
          "" ] ++
   [ [ Txt "**Key Finding:** ";
       Txt (if num_ltb (stat_or_zero post "avg_issues_per_1k_stars")
                       (stat_or_zero pre "avg_issues_per_1k_stars")
            then "Pre-AI era repos show HIGHER issue ratios, suggesting debt existed before AI."
            else "Post-AI era shows higher ratios - but sample size and maturity matter.") ] ] ++
   text [ "";
          "---";
          "";
          "## Era Comparison";
          "";
          "| Metric | Pre-AI Era (<2022) | Post-AI Era (>=2022) |";
          "|--------|-------------------|---------------------|" ] ++
   [ [ Txt "| Repos Analyzed | "; stat pre "count" (Val (PInt 0)); Txt " | ";
       stat post "count" (Val (PInt 0)); Txt " |" ];
     era_row "Avg Issues per 1K Stars" "avg_issues_per_1k_stars" pre post;
     era_row "Median Issues per 1K Stars" "median_issues_per_1k_stars"
             pre post;
     era_row "Avg Issues per Year" "avg_issues_per_year" pre post;
     era_row "Median Issues per Year" "median_issues_per_year" pre post;
     era_row "Avg Issue Close Rate %" "avg_close_rate" pre post;
     era_row "Avg Contributors" "avg_contributors" pre post;
     era_row "Std Deviation" "std_dev_ratio" pre post;
     [ Txt "| Total Stars | "; stat_sep pre "total_stars"; Txt " | ";
       stat_sep post "total_stars"; Txt " |" ];
     [ Txt "| Total Open Issues | "; stat_sep pre "total_open_issues";
       Txt " | "; stat_sep post "total_open_issues"; Txt " |" ] ] ++
   text [ "";
          "### Interpretation";
          "";
          "- **Issues per 1K Stars** = normalized measure of problems per unit of popularity";
          "- Higher values suggest more maintenance burden relative to community size";
          "- Pre-AI era projects have had more time to accumulate issues, but also more time to close them";
          "";
          "---";
          "";
          "## Analysis by Language";
          "";
          "| Language | Repos | Avg Issues/1K Stars | Median |";
          "|----------|-------|---------------------|--------|" ])%list.

Definition table_head (title : string) : list line :=
  text [ "";
         "---";
         "";
         title;
         "";
         "| Repository | Stars | Open Issues | Ratio | Created | Era |";
         "|------------|-------|-------------|-------|---------|-----|" ].

Definition report_tail : list line :=
  text [ "";
         "---";
         "";
         "## Methodology Notes";
         "";
         "1. **Data Source**: GitHub Search API";
         "2. **Minimum Stars**: 1,000 (filters out abandoned/toy projects)";
         "3. **Era Definition**: ";
         "   - Pre-AI: Created before January 2022";
         "   - Post-AI: Created January 2022 or later (ChatGPT/Copilot mainstream)";
         "4. **Metric**: Open issues count (closed issues indicate healthy maintenance)";
         "5. **Limitations**:";
         "   - Issue count includes feature requests, not just bugs";
         "   - Older repos have more time to accumulate community";
         "   - Popular repos may attract more issue reports simply due to visibility";
         "";
         "## Conclusion";
         "";
         "Technical debt, as measured by issue accumulation, has been a persistent challenge ";
         "in software development long before AI coding tools existed. While AI may introduce";
         "new patterns of debt, the fundamental problem of maintenance burden is not new." ].

(** Generate a markdown report of the analysis: its lines, in order. *)
Definition generate_report (c : clock) (repos : list RepoMetrics)
  : exc (list line) :=
  eras <- analyze_by_era c repos ;;
  lang_analysis <- analyze_by_language repos ;;
  ext <- find_extremes repos 10 ;;
  let pre := pre_ai_era eras in
  let post := post_ai_era eras in
  let by_avg :=
    map snd (sort_decorated true
               (map (fun g => (l_avg_issues_per_1k_stars (snd g), g))
                    lang_analysis)) in
  Ok (report_head c (length repos) pre post ++
      map language_row by_avg ++
      table_head "## Highest Debt Ratios (Most Issues per Star)" ++
      map summary_row (highest_debt_ratio ext) ++
      table_head "## Lowest Debt Ratios (Fewest Issues per Star)" ++
      map summary_row (lowest_debt_ratio ext) ++
      report_tail)%list.

(** ** Extended metrics *)

(** The text [rel="last"]. *)
Definition REL_LAST : list ascii :=
  list_ascii_of_string "rel=" ++ [ascii_of_nat 34] ++
  list_ascii_of_string "last" ++ [ascii_of_nat 34].

(** [p] is a prefix of [s]. *)
Fixpoint starts_with (p s : list ascii) : bool :=
  match p, s with
  | [], _ => true
  | a :: p', b :: s' => Ascii.eqb a b && starts_with p' s'
  | _ :: _, [] => false
  end.

(** [needle in hay]. *)
Fixpoint contains (needle hay : list ascii) : bool :=
  starts_with needle hay ||
  match hay with
  | [] => false
  | _ :: t => contains needle t
  end.

Definition is_digit (c : ascii) : bool :=
  match digit_val c with Some _ => true | None => false end.

(** The longest run of digits at the start of [s], and what follows
    it. *)
Fixpoint span_digits (s : list ascii) : list ascii * list ascii :=
  match s with
  | c :: t =>
      if is_digit c then
        let (ds, rest) := span_digits t in (c :: ds, rest)
      else ([], s)
  | [] => ([], [])
  end.

(** [s] without the prefix [p], when it starts with it. *)
Fixpoint strip_prefix (p s : list ascii) : option (list ascii) :=
  match p, s with
  | [], _ => Some s
  | a :: p', b :: s' => if Ascii.eqb a b then strip_prefix p' s' else None
  | _ :: _, [] => None
  end.

(** A match of [page=(\d+)>; rel="last"] at the start of [s]: its group.
    What follows the group in the pattern is not a digit, so the group
    can only be the longest run of digits after [page=]. *)
Definition match_here (s : list ascii) : option (list ascii) :=
  match strip_prefix (list_ascii_of_string "page=") s with
  | Some after =>
      let (ds, rest) := span_digits after in
      match ds with
      | [] => None
      | _ =>
          if starts_with (list_ascii_of_string ">; " ++ REL_LAST) rest
          then Some ds
          else None
      end
  | None => None
  end.

(** [re.search(r'page=(\d+)>; rel="last"', link)]: the group of the
    leftmost match. *)
Fixpoint last_page (link : list ascii) : option (list ascii) :=
  match match_here link with
  | Some ds => Some ds
  | None =>
      match link with
      | [] => None
      | _ :: t => last_page t
      end
  end.

(** [len(v)]. *)
Definition len (v : json) : exc Z :=
  match v with
  | JStr s => Ok (Z.of_nat (String.length s))
  | JArr l => Ok (Z.of_nat (length l))
  | JObj d => Ok (Z.of_nat (length d))
  | _ => Raise TypeError
  end.

Definition contributors_url (full_name : string) : string :=
  GITHUB_API_BASE ++ "/repos/" ++ full_name ++
  "/contributors?per_page=1&anon=true".

(** Fetch contributor count for a repo: the number of the last page when
    the [Link] header names one, the length of the document otherwise; 0
    for a response that is not [ok] and after any exception. *)
Definition fetch_contributor_count (srv : server) (full_name : string)
  : io Z :=
  try_except
    (response <- requests_get srv {| url := contributors_url full_name;
                                     params := [] |} ;;
     if ok response then
       let link := match header "Link" (headers_of response) with
                   | Some s => list_ascii_of_string s
                   | None => []
                   end in
       match (if contains REL_LAST link then last_page link else None) with
       | Some ds => lift (int_of_string (string_of_list_ascii ds))
       | None =>
           doc <- lift (response_json response) ;;
           lift (len doc)
       end
     else io_ret 0)%io
    (fun _ => io_ret 0).

(** The statements of a [try] block that mutates an object, each a step
    on the object: an exception ends the block and leaves the object as
    the steps before it made it. *)
Fixpoint try_steps {S : Type} (steps : list (S -> io S)) (s : S) : io S :=
  match steps with
  | [] => io_ret s
  | step :: rest =>
      fun w =>
        match step s w with
        | (Ok s', w') => try_steps rest s' w'
        | (Raise _, w') => (Ok s, w')
        end
  end.

(** [repo.total_issues = open_issues + closed_issues] and
    [repo.closed_issues = closed_issues], after the fetch of the two
    counts.  The counts are integers, as the fields they are assigned to;
    counts of another type are a [TypeError] here. *)
Definition set_issue_counts (srv : server) (repo : RepoMetrics)
  : io RepoMetrics :=
  (counts <- fetch_issue_counts srv (full_name repo) ;;
   open_count <- lift (as_int (fst counts)) ;;
   closed_count <- lift (as_int (snd counts)) ;;
   io_ret {| name := name repo; full_name := full_name repo;
             stars := stars repo; open_issues := open_issues repo;
             created_at := created_at repo; language := language repo;
             forks := forks repo;
             total_issues := open_count + closed_count;
             closed_issues := closed_count;
             contributors := contributors repo; commits := commits repo;
             updated_at := updated_at repo |})%io.

(** [repo.contributors = fetch_contributor_count(repo.full_name)]. *)
Definition set_contributors (srv : server) (repo : RepoMetrics)
  : io RepoMetrics :=
  (n <- fetch_contributor_count srv (full_name repo) ;;
   io_ret {| name := name repo; full_name := full_name repo;
             stars := stars repo; open_issues := open_issues repo;
             created_at := created_at repo; language := language repo;
             forks := forks repo; total_issues := total_issues repo;
             closed_issues := closed_issues repo;
             contributors := n; commits := commits repo;
             updated_at := updated_at repo |})%io.

(** [time.sleep(seconds)], as a step. *)
Definition pause (seconds : pynum) (repo : RepoMetrics) : io RepoMetrics :=
  (time_sleep seconds ;; io_ret repo)%io.

(** Add extended metrics to a repo: the object is mutated, and what is
    returned is the object. *)
Definition enrich_repo_metrics (srv : server) (repo : RepoMetrics)
           (fetch_extended : bool) : io RepoMetrics :=
  if negb fetch_extended then io_ret repo
  else
    try_steps [ set_issue_counts srv; pause (PFloat (1 # 2));
                set_contributors srv; pause (PFloat (1 # 2)) ] repo.

(** ** The repositories of [main]

    The list [repos] of [main] holds objects that [enrich_repo_metrics]
    mutates in place; the objects are told apart by their position in
    the list, and the sort of [--enrich-top] orders positions. *)

Fixpoint set_nth {A : Type} (i : nat) (x : A) (l : list A) : list A :=
  match l, i with
  | [], _ => []
  | _ :: t, O => x :: t
  | y :: t, S j => y :: set_nth j x t
  end.

(** [for repo in ...: enrich_repo_metrics(repo, fetch_extended=True)], on
    the objects at the given positions. *)
Fixpoint enrich_at (srv : server) (positions : list nat)
         (repos : list RepoMetrics) : io (list RepoMetrics) :=
  match positions with
  | [] => io_ret repos
  | i :: rest =>
      match nth_error repos i with
      | Some repo =>
          (repo' <- enrich_repo_metrics srv repo true ;;
           enrich_at srv rest (set_nth i repo' repos))%io
      | None => enrich_at srv rest repos
      end
  end.

Record args : Type := mkArgs {
  extended : bool;
  max_repos : Z;
  min_stars : Z;
  use_cache : bool;
  enrich_top : Z
}.

(** The first block of [main]: the repositories come from the cache
    when it is asked for and gives some, from the search otherwise, and
    what the search gives is saved. *)
Definition obtain_repos (srv : server) (a : args) (fs : files)
  : io (list RepoMetrics * files) :=
  (let cached :=
     if use_cache a then load_cache "repo_cache.json" fs else [] in
   match cached with
   | [] =>
       repos <- fetch_popular_repos srv (min_stars a) None (max_repos a) ;;
       io_ret (repos, save_cache repos "repo_cache.json" fs)
   | _ => io_ret (cached, fs)
   end)%io.

(** The second block of [main]: every repository is enriched, or the
    [--enrich-top] ones with the most stars, or none; after an enrichment
    the cache is saved again. *)
Definition enrich_repos (srv : server) (a : args)
           (repos : list RepoMetrics) (fs : files)
  : io (list RepoMetrics * files) :=
  (if extended a then
     enriched <- enrich_at srv (seq 0 (length repos)) repos ;;
     io_ret (enriched, save_cache enriched "repo_cache.json" fs)
   else if 0 <? enrich_top a then
     sorted_repos <-
       lift (sorted (fun ir => Ok (PInt (stars (snd ir)))) true
                    (combine (seq 0 (length repos)) repos)) ;;
     enriched <-
       enrich_at srv (map fst (slice_to (enrich_top a) sorted_repos)) repos ;;
     io_ret (enriched, save_cache enriched "repo_cache.json" fs)
   else io_ret (repos, fs))%io.

(** [main], up to the list of repositories it analyses. *)
Definition main_repos (srv : server) (a : args) (fs : files)
  : io (list RepoMetrics * files) :=
  (loaded <- obtain_repos srv a fs ;;
   enrich_repos srv a (fst loaded) (snd loaded))%io.

(** [main], up to its report, which is returned with the files. *)
Definition main_report (srv : server) (a : args) (fs : files) (c : clock)
  : io (list line * files) :=
  (loaded <- main_repos srv a fs ;;
   report <- lift (generate_report c (fst loaded)) ;;
   io_ret (report, snd loaded))%io.

End Debt.


(** * [commit_nlp_analysis.py] *)

Module Nlp.

(** ** The signal tables, in source order *)

Definition DEBT_SIGNALS : list (string * string) :=
  [ ("todo", "\bTODO\b");
    ("fixme", "\bFIXME\b");
    ("hack", "\bHACK\b");
    ("xxx", "\bXXX\b");
    ("temporary", "\btemporar(y|ily)\b");
    ("workaround", "\bworkaround\b");
    ("kludge", "\bkludge\b");
    ("broken", "\bbroken\b");
    ("ugly", "\bugly\b");
    ("dirty", "\bdirty\b");
    ("tech.debt", "\btech(nical)?\s*debt\b") ].

Definition BUG_SIGNALS : list (string * string) :=
  [ ("fix", "\bfix(e[sd])?\b");
    ("bug", "\bbug\b");
    ("issue", "\bissue\b");
    ("patch", "\bpatch\b");
    ("hotfix", "\bhotfix\b");
    ("resolve", "\bresolv(e[sd]?|ing)\b");
    ("repair", "\brepair\b") ].

Definition REVERT_SIGNALS : list (string * string) :=
  [ ("revert", "\brevert\b");
    ("undo", "\bundo\b");
    ("rollback", "\brollback\b");
    ("back.out", "\bback(ed|ing)?\s*out\b") ].

Definition FRUSTRATION_SIGNALS : list (string * string) :=
  [ ("finally", "\bfinally\b");
    ("stupid", "\bstupid\b");
    ("wtf", "\bwtf\b");
    ("why", "^why\b");
    ("ugh", "\bu+gh+\b");
    ("argh", "\ba+rgh+\b");
    ("damn", "\bdamn\b");
    ("crap", "\bcrap\b");
    ("cmon", "\bc\'?mon\b");
    ("ffs", "\bffs\b");
    ("sigh", "\bsigh\b");
    ("hate", "\bhate\b");
    ("horrible", "\bhorrible\b");
    ("terrible", "\bterrible\b");
    ("nightmare", "\bnightmare\b") ].

Definition POSITIVE_SIGNALS : list (string * string) :=
  [ ("improve", "\bimprov(e[sd]?|ing|ement)\b");
    ("enhance", "\benhance[sd]?\b");
    ("optimize", "\boptimiz(e[sd]?|ation)\b");
    ("refactor", "\brefactor(ed|ing)?\b");
    ("clean", "\bclean(ed|ing|up)?\b");
    ("simplify", "\bsimplif(y|ied|ies)\b") ].

(** ** [Counter] *)

Definition counter : Type := list (string * Z).

(** [c[k] += n]: a missing key counts as 0 and is added at the end. *)
Fixpoint counter_add (c : counter) (k : string) (n : Z) : counter :=
  match c with
  | [] => [(k, n)]
  | (k', v) :: c' =>
      if String.eqb k k' then (k', v + n) :: c'
      else (k', v) :: counter_add c' k n
  end.

(** [c.update(other)]. *)
Definition counter_update (c other : counter) : counter :=
  fold_left (fun acc kv => counter_add acc (fst kv) (snd kv)) other c.

(** [sum(c.values())]. *)
Definition counter_total (c : counter) : Z := zsum (map snd c).

(** [c.most_common(n)]: by decreasing count, equal counts in insertion
    order. *)
Definition most_common (n : Z) (c : counter) : counter :=
  slice_to n
    (map snd (sort_decorated true (map (fun kv => (PInt (snd kv), kv)) c))).

(** ** [CommitAnalysis] *)

Record CommitAnalysis : Type := mkAnalysis {
  repo : string;
  era : string;
  total_commits : Z;
  debt_signals : counter;
  bug_signals : counter;
  revert_signals : counter;
  frustration_signals : counter;
  positive_signals : counter;
  message_lengths : list Z;
  sample_messages : list string
}.

(** Signals per 100 commits, for one of the five counters. *)
Definition per_100 (signals : counter) (total : Z) : exc pynum :=
  q <- true_div (PInt (counter_total signals)) (PInt total) ;;
  Ok (mul q (PInt 100)).

Definition debt_ratio (a : CommitAnalysis) : exc pynum :=
  if total_commits a =? 0 then Ok (PInt 0)
  else per_100 (debt_signals a) (total_commits a).

Definition bug_ratio (a : CommitAnalysis) : exc pynum :=
  if total_commits a =? 0 then Ok (PInt 0)
  else per_100 (bug_signals a) (total_commits a).

Definition revert_ratio (a : CommitAnalysis) : exc pynum :=
  if total_commits a =? 0 then Ok (PInt 0)
  else per_100 (revert_signals a) (total_commits a).

Definition frustration_ratio (a : CommitAnalysis) : exc pynum :=
  if total_commits a =? 0 then Ok (PInt 0)
  else per_100 (frustration_signals a) (total_commits a).

Definition positive_ratio (a : CommitAnalysis) : exc pynum :=
  if total_commits a =? 0 then Ok (PInt 0)
  else per_100 (positive_signals a) (total_commits a).

Definition avg_message_length (a : CommitAnalysis) : exc pynum :=
  match message_lengths a with
  | [] => Ok (PInt 0)
  | l => mean (map PInt l)
  end.

(** ** Classifying a message *)

Record signals : Type := mkSignals {
  debt : counter;
  bug : counter;
  revert : counter;
  frustration : counter;
  positive : counter
}.

(** One [for name, pattern in TABLE.items()] loop of [analyze_message]. *)
Fixpoint scan (table : list (string * string)) (message : string)
         (c : counter) : exc counter :=
  match table with
  | [] => Ok c
  | (name, pattern) :: rest =>
      hit <- Re.search pattern message ;;
      scan rest message (if hit then counter_add c name 1 else c)
  end.

(** Analyze a single commit message for signals. *)
Definition analyze_message (message : string) : exc signals :=
  d <- scan DEBT_SIGNALS message [] ;;
  b <- scan BUG_SIGNALS message [] ;;
  r <- scan REVERT_SIGNALS message [] ;;
  f <- scan FRUSTRATION_SIGNALS message [] ;;
  p <- scan POSITIVE_SIGNALS message [] ;;
  Ok {| debt := d; bug := b; revert := r; frustration := f; positive := p |}.

(** ** Fetching commits *)

(** The body of the loop of [fetch_commits], inside its [try]: [None]
    stands for [break], [Some commits'] for the next iteration. *)
Definition fetch_page (srv : server) (repo_full_name : string)
           (commits : list json) (page : Z) : io (option (list json)) :=
  try_except
    (let rq := {| url := "https://api.github.com/repos/" ++ repo_full_name
                         ++ "/commits";
                  params := [ ("per_page", str_of_int 100);
                              ("page", str_of_int page) ] |} in
     response <- requests_get srv rq ;;
     respect_rate_limit response ;;
     if negb (ok response) then io_ret None
     else
       data <- lift (response_json response) ;;
       if negb (truthy data) then io_ret None
       else
         items <- lift (iterate data) ;;
         time_sleep (PFloat (3 # 10)) ;;
         io_ret (Some (commits ++ items)%list))%io
    (fun _ => io_ret None).

(** [while len(commits) < max_commits].  Every iteration that does not
    break adds a commit, so [max_commits] iterations are enough. *)
Fixpoint fetch_loop (srv : server) (repo_full_name : string)
         (max_commits : Z) (fuel : nat) (commits : list json) (page : Z)
  : io (list json) :=
  if Z.of_nat (length commits) <? max_commits then
    match fuel with
    | O => io_ret commits
    | S fuel' =>
        (next <- fetch_page srv repo_full_name commits page ;;
         match next with
         | None => io_ret commits
         | Some commits' =>
             fetch_loop srv repo_full_name max_commits fuel' commits'
                        (page + 1)
         end)%io
    end
  else io_ret commits.

(** Fetch commit history for a repo. *)
Definition fetch_commits (srv : server) (repo_full_name : string)
           (max_commits : Z) : io (list json) :=
  (commits <- fetch_loop srv repo_full_name max_commits
                (Z.to_nat max_commits) [] 1 ;;
   io_ret (slice_to max_commits commits))%io.

(** ** Analyzing a repository *)

(** [message.split('\n')[0]]. *)
Fixpoint first_line (message : string) : string :=
  match message with
  | EmptyString => EmptyString
  | String c s =>
      if Ascii.eqb c (ascii_of_nat 10) then EmptyString
      else String c (first_line s)
  end.

Definition nonempty (c : counter) : bool :=
  match c with [] => false | _ => true end.

(** The body of the loop of [analyze_repo] over the commits. *)
Definition analyze_commit (analysis : CommitAnalysis) (commit : json)
  : exc CommitAnalysis :=
  inner <- get commit "commit" (JObj []) ;;
  v_message <- get inner "message" (JStr "") ;;
  if negb (truthy v_message) then Ok analysis
  else
    message <- match v_message with
               | JStr s => Ok s
               | JInt _ => Raise TypeError
               | _ => Raise AttributeError
               end ;;
    sig <- analyze_message message ;;
    let samples :=
      if (nonempty (frustration sig) || nonempty (debt sig)) &&
         (length (sample_messages analysis) <? 20)%nat
      then (sample_messages analysis ++
            [substring 0 100 (first_line message)])%list
      else sample_messages analysis in
    Ok {| repo := repo analysis;
          era := era analysis;
          total_commits := total_commits analysis + 1;
          debt_signals := counter_update (debt_signals analysis) (debt sig);
          bug_signals := counter_update (bug_signals analysis) (bug sig);
          revert_signals :=
            counter_update (revert_signals analysis) (revert sig);
          frustration_signals :=
            counter_update (frustration_signals analysis) (frustration sig);
          positive_signals :=
            counter_update (positive_signals analysis) (positive sig);
          message_lengths :=
            (message_lengths analysis ++
             [Z.of_nat (String.length message)])%list;
          sample_messages := samples |}.

Fixpoint analyze_commits (analysis : CommitAnalysis) (commits : list json)
  : exc CommitAnalysis :=
  match commits with
  | [] => Ok analysis
  | commit :: rest =>
      analysis' <- analyze_commit analysis commit ;;
      analyze_commits analysis' rest
  end.

(** [CommitAnalysis(repo=..., era=...)], every other field at its
    default. *)
Definition new_analysis (repo_full_name era_name : string)
  : CommitAnalysis :=
  {| repo := repo_full_name; era := era_name; total_commits := 0;
     debt_signals := []; bug_signals := []; revert_signals := [];
     frustration_signals := []; positive_signals := [];
     message_lengths := []; sample_messages := [] |}.

(** Analyze all commits for a repository. *)
Definition analyze_repo (srv : server) (repo_full_name : string)
           (created_at : datetime) : io CommitAnalysis :=
  (let era_name := if year created_at <? 2022 then "pre-ai" else "post-ai" in
   let analysis := new_analysis repo_full_name era_name in
   commits <- fetch_commits srv repo_full_name 500 ;;
   lift (analyze_commits analysis commits))%io.

(** ** Aggregating by era *)

Record era_stats : Type := mkEraStats {
  st_repos : Z;
  st_total_commits : Z;
  debt_per_100 : pynum;
  bug_per_100 : pynum;
  revert_per_100 : pynum;
  frustration_per_100 : pynum;
  positive_per_100 : pynum;
  top_debt_signals : counter;
  top_bug_signals : counter;
  top_frustration_signals : counter;
  avg_msg_length : pynum
}.

(** [round((sum(c.values()) / total) * 100, 2) if total else 0]. *)
Definition rounded_per_100 (c : counter) (total : Z) : exc pynum :=
  if total =? 0 then Ok (PInt 0)
  else q <- per_100 c total ;; Ok (round q 2).

(** The statistics of one era; [None] is the empty [dict] an empty list
    gives. *)
Definition calc_stats (analysis_list : list CommitAnalysis)
  : exc (option era_stats) :=
  match analysis_list with
  | [] => Ok None
  | _ =>
      let total := zsum (map total_commits analysis_list) in
      let all_debt :=
        fold_left counter_update (map debt_signals analysis_list) [] in
      let all_bug :=
        fold_left counter_update (map bug_signals analysis_list) [] in
      let all_revert :=
        fold_left counter_update (map revert_signals analysis_list) [] in
      let all_frustration :=
        fold_left counter_update
                  (map frustration_signals analysis_list) [] in
      let all_positive :=
        fold_left counter_update (map positive_signals analysis_list) [] in
      d <- rounded_per_100 all_debt total ;;
      b <- rounded_per_100 all_bug total ;;
      r <- rounded_per_100 all_revert total ;;
      f <- rounded_per_100 all_frustration total ;;
      p <- rounded_per_100 all_positive total ;;
      lengths <- mapM avg_message_length analysis_list ;;
      avg <- mean (filter (fun x => num_ltb (PInt 0) x) lengths) ;;
      Ok (Some {| st_repos := Z.of_nat (length analysis_list);
                  st_total_commits := total;
                  debt_per_100 := d;
                  bug_per_100 := b;
                  revert_per_100 := r;
                  frustration_per_100 := f;
                  positive_per_100 := p;
                  top_debt_signals := most_common 5 all_debt;
                  top_bug_signals := most_common 5 all_bug;
                  top_frustration_signals := most_common 5 all_frustration;
                  avg_msg_length := round avg 1 |})
  end.

Record by_era : Type := mkByEra {
  pre_ai : option era_stats;
  post_ai : option era_stats
}.

(** Aggregate analysis results by era. *)
Definition aggregate_by_era (analyses : list CommitAnalysis) : exc by_era :=
  let pre := filter (fun a => String.eqb (era a) "pre-ai") analyses in
  let post := filter (fun a => String.eqb (era a) "post-ai") analyses in
  pre_stats <- calc_stats pre ;;
  post_stats <- calc_stats post ;;
  Ok {| pre_ai := pre_stats; post_ai := post_stats |}.

(** ** The repositories [main] selects

    [main] reads the cache file as a JSON document and selects, for each
    era, the repositories with the most stars.  The stars are compared as
    the integers [save_cache] writes; a cache with stars of another type
    is a [TypeError] here. *)

(** [[x for x in l if f(x)]], where [f] may raise. *)
Fixpoint filterM {A : Type} (f : A -> exc bool) (l : list A)
  : exc (list A) :=
  match l with
  | [] => Ok []
  | x :: l' =>
      keep <- f x ;;
      rest <- filterM f l' ;;
      Ok (if keep then x :: rest else rest)
  end.

(** [datetime.fromisoformat(r["created_at"]).year]. *)
Definition created_year (r : json) : exc Z :=
  v <- getitem r "created_at" ;;
  s <- as_str v ;;
  d <- fromisoformat s ;;
  Ok (year d).

(** [x["stars"]], the key of the two sorts. *)
Definition stars_key (x : json) : exc pynum :=
  v <- getitem x "stars" ;;
  z <- as_int v ;;
  Ok (PInt z).

(** The selection: the two eras, each by decreasing stars, and the first
    [max_repos // 2] of each. *)
Definition select_repos (repos : json) (max_repos : Z) : exc (list json) :=
  items <- iterate repos ;;
  pre_ai_repos <-
    filterM (fun r => y <- created_year r ;; Ok (y <? 2022)) items ;;
  post_ai_repos <-
    filterM (fun r => y <- created_year r ;; Ok (2022 <=? y)) items ;;
  pre_sorted <- sorted stars_key true pre_ai_repos ;;
  post_sorted <- sorted stars_key true post_ai_repos ;;
  let sample_size := max_repos / 2 in
  Ok (slice_to sample_size pre_sorted ++ slice_to sample_size post_sorted)%list.

(** ** The analyses of [main]

    The names in the cache are strings, as [save_cache] writes them; a
    name of another type is a [TypeError] here. *)

(** The body of the loop of [main] over the selected repositories. *)
Definition analyze_selected (srv : server) (repo : json)
  : io CommitAnalysis :=
  (created <- lift (v <- getitem repo "created_at" ;;
                    s <- as_str v ;;
                    fromisoformat s)%exc ;;
   repo_full_name <- lift (v <- getitem repo "full_name" ;; as_str v)%exc ;;
   analysis <- analyze_repo srv repo_full_name created ;;
   time_sleep (PFloat (1 # 2)) ;;
   io_ret analysis)%io.

Fixpoint analyze_all (srv : server) (selected : list json)
  : io (list CommitAnalysis) :=
  match selected with
  | [] => io_ret []
  | repo :: rest =>
      (analysis <- analyze_selected srv repo ;;
       analyses <- analyze_all srv rest ;;
       io_ret (analysis :: analyses))%io
  end.

(** [main], up to the statistics of its report: the cache file, the
    selection, the analyses, and [aggregate_by_era], which is the first
    thing [generate_nlp_report] calls.  Without a cache file [main]
    returns at once. *)
Definition main_stats (srv : server) (max_repos : Z) (fs : Debt.files)
  : io (option by_era) :=
  match fs "repo_cache.json" with
  | None => io_ret None
  | Some repos =>
      (selected <- lift (select_repos repos max_repos) ;;
       analyses <- analyze_all srv selected ;;
       stats <- lift (aggregate_by_era analyses) ;;
       io_ret (Some stats))%io
  end.

End Nlp.

(** * The vocabulary of the statements *)

Import Debt.

(** The boundary timestamp, as the API writes it. *)
Definition boundary : datetime := mkdt 2022 1 1 0 0 0 0 (Some 0).

(** A repository without a star. *)
Definition unstarred : RepoMetrics :=
  mkRepo "demo" "octo/demo" 0 42 boundary (Some "Go") 3 0 0 0 0 None.

(** A text that starts with "why", in either case, followed by the end of
    the text or by a character that is not a word character. *)
Definition starts_with_why (msg : string) : bool :=
  match msg with
  | String a (String b (String c rest)) =>
      Re.eq_nocase "w" a && Re.eq_nocase "h" b && Re.eq_nocase "y" c &&
      match rest with
      | EmptyString => true
      | String d _ => negb (Re.is_word d)
      end
  | _ => false
  end.

(** The pattern [^why\b], parsed. *)
Definition why_regex : Re.regex :=
  Re.Seq Re.Bol
    (Re.Seq (Re.Lit "w") (Re.Seq (Re.Lit "h") (Re.Seq (Re.Lit "y") Re.WordB))).

(** A repository whose commits cannot be fetched. *)
Definition unreachable : server := fun _ _ => mkReply 0 Failed.

(** The world before the first request. *)
Definition start : world := mkWorld 0 0 [].

(** The analysis of a repository of which no commit was read. *)
Definition no_commits : Nlp.CommitAnalysis :=
  Nlp.new_analysis "octo/demo" "pre-ai".

(** A commit whose message [analyze_repo] can read: an object whose
    ["commit"], when it has one, is an object whose ["message"], when it
    has one, is a string or a value that counts as false. *)
Definition readable (commit : json) : bool :=
  match commit with
  | JObj d =>
      match assoc "commit" d with
      | None => true
      | Some (JObj d') =>
          match assoc "message" d' with
          | None | Some (JStr _) => true
          | Some v => negb (truthy v)
          end
      | Some _ => false
      end
  | _ => false
  end.

(** A server whose documents, taken as lists of commits, hold readable
    commits only. *)
Definition readable_pages (srv : server) : Prop :=
  forall n rq status headers doc items,
    result (srv n rq) = Response status headers (Some doc) ->
    iterate doc = Ok items ->
    Forall (fun commit => readable commit = true) items.

(** [p] may stand before [q] in a list sorted by decreasing key. *)
Definition key_ge {A : Type} (p q : pynum * A) : Prop :=
  (to_Q (fst q) <= to_Q (fst p))%Q.

(** The ratio of a repository, which is always defined. *)
Definition ratio (r : RepoMetrics) : pynum :=
  match issues_per_1k_stars r with
  | Ok v => v
  | Raise _ => PInt 0
  end.

(** The summary of a repository in the lists of [find_extremes]. *)
Definition summary_of (r : RepoMetrics) : summary :=
  {| s_name := full_name r;
     s_stars := stars r;
     s_open_issues := open_issues r;
     s_issues_per_1k_stars := round (ratio r) 2;
     s_created := strftime_date (created_at r);
     s_era := Debt.era r |}.

(** The repositories, by decreasing ratio, as [find_extremes] sorts
    them. *)
Definition by_ratio (repos : list RepoMetrics) : list RepoMetrics :=
  map snd (sort_decorated true (map (fun r => (ratio r, r)) repos)).

(** [a] may stand before [b] in a list sorted by decreasing ratio. *)
Definition ratio_ge (a b : RepoMetrics) : Prop :=
  (to_Q (ratio b) <= to_Q (ratio a))%Q.

(** A repository with 1000 stars and the given number of open issues, so
    that its ratio is that number. *)
Definition repo_with (short : string) (issues : Z) : RepoMetrics :=
  mkRepo short ("octo/" ++ short) 1000 issues boundary None 0 0 0 0 0 None.

(** Five repositories whose ratios are 10, 5, 8, 1 and 20. *)
Definition five : list RepoMetrics :=
  [ repo_with "a" 10; repo_with "b" 5; repo_with "c" 8; repo_with "d" 1;
    repo_with "e" 20 ].

(** The ratios of a list of summaries, in order. *)
Definition ratios_of (l : list summary) : list pynum :=
  map s_issues_per_1k_stars l.

(** Star and issue counts below 2^24 = 16 777 216 in absolute value.
    Two such repositories with different ratios have different binary64
    ratios, in the same order, so that the exact ratios of the embedding
    sort a list as the floating-point ratios of the interpreter do. *)
Definition modest (r : RepoMetrics) : Prop :=
  Z.abs (stars r) < 2 ^ 24 /\ Z.abs (open_issues r) < 2 ^ 24.

(** What a summary says of its repository beside the rounded ratio and
    the date: the name, the stars, the open issues and the era. *)
Definition listing (s : summary) : string * Z * Z * string :=
  (s_name s, s_stars s, s_open_issues s, s_era s).

(** The same, read off the repository. *)
Definition listed (r : RepoMetrics) : string * Z * Z * string :=
  (full_name r, stars r, open_issues r, Debt.era r).

(** The offset, as [isoformat] writes it. *)
Definition zone_text (tz : option Z) : string :=
  match tz with
  | None => ""
  | Some o => format_offset o
  end.

(** What the cache keeps of a repository: every field but [commits] and
    [updated_at]. *)
Definition cached (r : RepoMetrics) : RepoMetrics :=
  mkRepo (name r) (full_name r) (stars r) (open_issues r) (created_at r)
         (language r) (forks r) (total_issues r) (closed_issues r)
         (contributors r) 0 None.

(** The fields the round trip is to keep. *)
Definition same_cached_fields (r r' : RepoMetrics) : Prop :=
  full_name r' = full_name r /\ stars r' = stars r /\
  open_issues r' = open_issues r /\ created_at r' = created_at r /\
  Debt.era r' = Debt.era r.

(** An empty working directory. *)
Definition no_files : files := fun _ => None.

(** Two repositories to save, one of them from a zone west of UTC and
    with a fraction of a second. *)
Definition two_repos : list RepoMetrics :=
  [ unstarred;
    mkRepo "b" "octo/b" 1500 7 (mkdt 2019 2 28 23 59 59 250 (Some (-19800)))
           None 2 0 0 0 0 (Some boundary) ].

(** What the rate-limit rule asks for after a response [r] read at time
    [t]: below five remaining calls, one sleep of
    [max(reset_time - t, 0) + 1] seconds; otherwise, no sleep. *)
Definition expected_sleep (r : outcome) (t : Q) : list event :=
  match int_header r "X-RateLimit-Remaining" 10 with
  | Ok remaining =>
      if remaining <? 5 then
        match int_header r "X-RateLimit-Reset" 0 with
        | Ok reset_time => [Sleep (rate_limit_wait reset_time t)]
        | Raise _ => []
        end
      else []
  | Raise _ => []
  end.

(** The request [search_repos] sends. *)
Definition search_request (query sort : string) (per_page page : Z)
  : request :=
  {| url := GITHUB_API_BASE ++ "/search/repositories";
     params := [ ("q", query); ("sort", sort); ("order", "desc");
                 ("per_page", str_of_int per_page);
                 ("page", str_of_int page) ] |}.

(** The request [fetch_commits] sends for a page. *)
Definition commits_request (repo_full_name : string) (page : Z) : request :=
  {| url := "https://api.github.com/repos/" ++ repo_full_name ++ "/commits";
     params := [ ("per_page", str_of_int 100); ("page", str_of_int page) ] |}.

(** A status on which [raise_for_status] raises. *)
Definition is_error (r : outcome) : bool :=
  (400 <=? status_of r) && (status_of r <? 600).

(** A server that answers every request with "403 rate limit exceeded". *)
Definition limited : server :=
  fun _ _ =>
    mkReply 0 (Response 403
                 [ ("X-RateLimit-Remaining", "0");
                   ("X-RateLimit-Reset", "1700000060") ]
                 (Some (JObj [("message", JStr "API rate limit exceeded")]))).

(** A world whose clock reads 1700000000, one minute before the reset
    time [limited] announces. *)
Definition epoch : world := mkWorld (inject_Z 1700000000) 0%nat [].

(** A server that answers every request with a count and with no call
    left. *)
Definition nearly_out : server :=
  fun _ _ =>
    mkReply 0 (Response 200
                 [ ("X-RateLimit-Remaining", "0");
                   ("X-RateLimit-Reset", "1700000060") ]
                 (Some (JObj [("total_count", JInt 5)]))).

(** The first request of [fetch_issue_counts]. *)
Definition open_issues_request (full_name : string) : request :=
  {| url := issues_url full_name "open"; params := [] |}.

(** The rule as the specification states it, for a computation [c] whose
    first request is [first]: the sleep the rule asks for after the
    response to that request is in the log when [c] ends. *)
Definition backs_off {A : Type} (c : io A) (first : request) (srv : server)
           (w : world) : Prop :=
  let rp := srv (sent w) first in
  forall e,
    In e (expected_sleep (result rp) (Qred (now w + latency rp))) ->
    In e (log (snd (c w))).

(** Events among which the only sleeps are pauses of half a second. *)
Definition pauses_only (l : list event) : Prop :=
  Forall (fun e => match e with
                   | Sleep d => d = PFloat (1 # 2)
                   | Get _ _ => True
                   end) l.

Definition requests (l : list event) : list request :=
  flat_map (fun e => match e with Get rq _ => [rq] | Sleep _ => [] end) l.

(** [adds P c n]: whatever the world, [c] adds to the log at most [n]
    requests, and each of them satisfies [P]. *)
Definition adds (P : request -> Prop) {A : Type} (c : io A) (n : nat) : Prop :=
  forall w, exists new,
    log (snd (c w)) = (new ++ log w)%list /\
    Forall P (requests new) /\
    (length (requests new) <= n)%nat.

(** A computation that never raises. *)
Definition total {A : Type} (c : io A) : Prop :=
  forall w, exists a, fst (c w) = Ok a.

(** The two queries [fetch_popular_repos] makes for a language. *)
Definition query_pre (min_stars : Z) (lang : string) : string :=
  "language:" ++ lang ++ " stars:>" ++ str_of_int min_stars ++
  " created:<2022-01-01".

Definition query_post (min_stars : Z) (lang : string) : string :=
  "language:" ++ lang ++ " stars:>" ++ str_of_int min_stars ++
  " created:>=2022-01-01".



Definition chosen_languages (languages : option (list string))
  : list string :=
  match languages with
  | None | Some [] => default_languages
  | Some l => l
  end.

(** A record of the search API. *)
Definition record : json :=
  JObj [ ("name", JStr "demo"); ("full_name", JStr "octo/demo");
         ("stargazers_count", JInt 1500); ("open_issues_count", JInt 12);
         ("created_at", JStr "2019-05-04T10:20:30Z");
         ("updated_at", JStr "2024-01-02T03:04:05Z");
         ("language", JStr "Go"); ("forks_count", JInt 7) ].

(** A server with one record on every page of every query. *)
Definition one_each : server :=
  fun _ _ =>
    mkReply 0 (Response 200 [ ("X-RateLimit-Remaining", "29") ]
                 (Some (JObj [("items", JArr [record])]))).



Definition at_start : world := mkWorld 0 0 [].

(** Two [dict]s of statistics that agree on every key but the two
    issues-per-year ones. *)
Definition agree (s1 s2 : stats) : Prop :=
  forall k, k <> "avg_issues_per_year" -> k <> "median_issues_per_year" ->
            assoc k s1 = assoc k s2.

(** The lines of the report that read the clock: the line of the
    generation time and the two rows of issues per year. *)
Definition generated_line : nat := 2.
Definition avg_per_year_line : nat := 21.
Definition median_per_year_line : nat := 22.

(** A repository created on 2020-01-01, and the clock on the first day of
    2021 and of 2022. *)
Definition aged : RepoMetrics :=
  mkRepo "demo" "octo/demo" 1000 365 (mkdt 2020 1 1 0 0 0 0 (Some 0))
         (Some "Go") 0 0 0 0 0 None.

Definition new_year_2021 : clock :=
  mkclock (mkdt 2021 1 1 0 0 0 0 None) 0.

Definition new_year_2022 : clock :=
  mkclock (mkdt 2022 1 1 0 0 0 0 None) 0.

(** Two documents that are the same outside the generated-at line. *)
Definition same_outside_generated (d1 d2 : list line) : Prop :=
  length d1 = length d2 /\
  forall i, i <> generated_line -> nth i d1 [] = nth i d2 [].

(** The rule as the specification states it: two runs on the same
    repositories give the same document outside the generated-at line. *)
Definition deterministic_but_for_stamp (repos : list RepoMetrics)
           (c1 c2 : clock) : Prop :=
  exists d1 d2,
    generate_report c1 repos = Ok d1 /\
    generate_report c2 repos = Ok d2 /\
    same_outside_generated d1 d2.

(** ** The vocabulary of the further properties *)

(** Two repositories with the same ratio. *)
Definition same_ratio (a b : RepoMetrics) : bool :=
  Qeq_bool (to_Q (ratio a)) (to_Q (ratio b)).

(** Five repositories, three of them with the ratio 5. *)
Definition tied : list RepoMetrics :=
  [ repo_with "a" 5; repo_with "b" 9; repo_with "c" 5; repo_with "d" 1;
    repo_with "e" 5 ].






(** [v] is the number [q] up to the rounding of binary64 arithmetic: a
    relative error of at most 2^-50, which a few operations, each exact
    to 2^-53, stay within. *)
Definition nearly (v : pynum) (q : Q) : Prop :=
  (Qabs (to_Q v - q) <= Qabs q * (1 # 1125899906842624))%Q.

(** Whether an object has the key [k]. *)
Definition has_key (k : string) (item : json) : bool :=
  match item with
  | JObj d => match assoc k d with Some _ => true | None => false end
  | _ => false
  end.

(** Whether an object has a string under the key [k]. *)
Definition text_at (k : string) (item : json) : bool :=
  match item with
  | JObj d => match assoc k d with Some (JStr _) => true | _ => false end
  | _ => false
  end.

(** An entry of the cache file that cannot be loaded: it is not an
    object, it lacks one of the keys read by subscript, or its
    ["created_at"] is not a string. *)
Definition broken_entry (item : json) : bool :=
  negb (has_key "name" item && has_key "full_name" item &&
        has_key "stars" item && has_key "open_issues" item &&
        text_at "created_at" item && has_key "forks" item).

(** The same for a record of the search API, which [parse_repo] cannot
    parse. *)
Definition broken_record (item : json) : bool :=
  negb (has_key "name" item && has_key "full_name" item &&
        has_key "stargazers_count" item && has_key "open_issues_count" item &&
        text_at "created_at" item && has_key "forks_count" item).

(** A cache of two entries, the second of them without its forks. *)
Definition torn_cache : list json :=
  [ cache_entry unstarred;
    JObj [ ("name", JStr "b"); ("full_name", JStr "octo/b");
           ("stars", JInt 5); ("open_issues", JInt 1);
           ("created_at", JStr "2020-01-01T00:00:00+00:00") ] ].

(** A reply on which [search_repos] raises: no connection, or an error
    status. *)
Definition refused (rp : reply) : Prop :=
  result rp = Failed \/ is_error (result rp) = true.

(** Events that are all requests. *)
Definition gets_only (l : list event) : Prop :=
  Forall (fun e => match e with Get _ _ => True | Sleep _ => False end) l.

(** A server that is down. *)
Definition down : server := fun _ _ => mkReply 0 Failed.

(** A page of two records, the second of them without most of its
    fields. *)
Definition half_page : server :=
  fun _ _ =>
    mkReply 0 (Response 200 [ ("X-RateLimit-Remaining", "29") ]
                 (Some (JObj [("items",
                               JArr [record; JObj [("name", JStr "x")]])]))).

(** The second request of [fetch_issue_counts]. *)
Definition closed_issues_request (full_name : string) : request :=
  {| url := issues_url full_name "closed"; params := [] |}.

(** A server that answers the first request of the run with a count of
    five and is not reachable afterwards. *)
Definition once : server :=
  fun n _ =>
    match n with
    | O => mkReply 0 (Response 200 [] (Some (JObj [("total_count", JInt 5)])))
    | S _ => mkReply 0 Failed
    end.

(** A request for one of the two issue searches of a repository. *)
Definition issue_search (full_name : string) (rq : request) : Prop :=
  params rq = [] /\
  (url rq = issues_url full_name "open" \/
   url rq = issues_url full_name "closed").

(** A text of ASCII characters, those below 128. *)
Definition is_ascii (s : string) : bool :=
  forallb (fun c => (nat_of_ascii c <? 128)%nat) (list_ascii_of_string s).

(** Whether a pattern is found in a message. *)
Definition found (pattern message : string) : bool :=
  match Re.search pattern message with
  | Ok b => b
  | Raise _ => false
  end.

(** The counter of a table on a message: the names whose pattern is found,
    in the order of the table, each counted once. *)
Definition hits (table : list (string * string)) (message : string)
  : Nlp.counter :=
  map (fun p => (fst p, 1)) (filter (fun p => found (snd p) message) table).

(** A table whose patterns are all accepted by [re]. *)
Definition compiles (table : list (string * string)) : Prop :=
  Forall (fun p => exists r, Re.compile (snd p) = Some r) table.

(** A position of the text in lower case. *)
Definition lower_position (p : Re.position) : Re.position :=
  (option_map Re.lower (fst p), map Re.lower (snd p)).

(** A sample as [analyze_repo] keeps it: at most 100 characters, on one
    line. *)
Definition sample_line (s : string) : Prop :=
  (String.length s <= 100)%nat /\
  ~ In (ascii_of_nat 10) (list_ascii_of_string s).

(** What [analyze_repo] keeps true of the analysis it builds. *)
Definition well_counted (a : Nlp.CommitAnalysis) : Prop :=
  Nlp.total_commits a = Z.of_nat (length (Nlp.message_lengths a)) /\
  Forall (fun n => 1 <= n) (Nlp.message_lengths a) /\
  (length (Nlp.sample_messages a) <= 20)%nat /\
  Forall sample_line (Nlp.sample_messages a).

(** A commit of the API with the given message. *)
Definition commit_of (message : string) : json :=
  JObj [("sha", JStr "0a1b2c");
        ("commit", JObj [("message", JStr message)])].

(** A server with one page of three commits, one of them without a
    message. *)
Definition three_commits : server :=
  fun n _ =>
    match n with
    | O => mkReply 0 (Response 200 []
                        (Some (JArr [ commit_of ("TODO: fix the parser" ++
                                                 String (ascii_of_nat 10)
                                                        "it is broken");
                                      commit_of "";
                                      commit_of "Initial commit" ])))
    | S _ => mkReply 0 (Response 200 [] (Some (JArr [])))
    end.

(** The analysis of the repository of that server. *)
Definition analysed : Nlp.CommitAnalysis :=
  match fst (Nlp.analyze_repo three_commits "octo/demo" boundary at_start) with
  | Ok a => a
  | Raise _ => no_commits
  end.

(** [k] consecutive page numbers from [first] on. *)
Definition page_numbers (first : Z) (k : nat) : list Z :=
  map (fun i => first + Z.of_nat i) (seq 0 k).

(** The signals of one kind in a list of analyses. *)
Definition signal_count (field : Nlp.CommitAnalysis -> Nlp.counter)
           (l : list Nlp.CommitAnalysis) : Z :=
  zsum (map (fun a => Nlp.counter_total (field a)) l).

(** The commits of a list of analyses. *)
Definition commit_count (l : list Nlp.CommitAnalysis) : Z :=
  zsum (map Nlp.total_commits l).

(** [v] is a [float] less than a hundredth away from [q]. *)
Definition within_a_hundredth (v : pynum) (q : Q) : Prop :=
  is_int v = false /\ (Qabs (to_Q v - q) < 1 # 100)%Q.

(** [v] is the rate of [signals] per 100 of [commits], to the hundredth;
    the [int] 0 when there is no commit. *)
Definition pooled_rate (signals commits : Z) (v : pynum) : Prop :=
  if commits =? 0 then v = PInt 0
  else within_a_hundredth v (inject_Z signals * 100 / inject_Z commits).

(** An analysis with no more than 15 signals of a kind per commit: 15 is
    the size of the largest table, and a message counts once for a
    name. *)
Definition plausible (a : Nlp.CommitAnalysis) : Prop :=
  Forall (fun c => 0 <= Nlp.counter_total c <= 15 * Nlp.total_commits a)
         [ Nlp.debt_signals a; Nlp.bug_signals a; Nlp.revert_signals a;
           Nlp.frustration_signals a; Nlp.positive_signals a ].

(** The statistics of an era made of the analysis [analysed]. *)
Definition analysed_stats : Nlp.era_stats :=
  match Nlp.calc_stats [analysed] with
  | Ok (Some st) => st
  | _ => Nlp.mkEraStats 0 0 (PInt 0) (PInt 0) (PInt 0) (PInt 0) (PInt 0)
                        [] [] [] (PInt 0)
  end.

(** [a] may stand before [b] in a counter sorted by decreasing count. *)
Definition count_ge (a b : string * Z) : Prop := snd b <= snd a.

(** The counter of one kind of signal, merged over a list of analyses. *)
Definition merged (field : Nlp.CommitAnalysis -> Nlp.counter)
           (l : list Nlp.CommitAnalysis) : Nlp.counter :=
  fold_left Nlp.counter_update (map field l) [].

(** [top] holds the first five entries of [c] by decreasing count. *)
Definition top_five (c top : Nlp.counter) : Prop :=
  exists s,
    Permutation s c /\ StronglySorted count_ge s /\ top = firstn 5 s.

(** The analyses of an era are none, or one of them has a commit. *)
Definition era_has_messages (name : string)
           (analyses : list Nlp.CommitAnalysis) : Prop :=
  let l := filter (fun a => (Nlp.era a =? name)%string) analyses in
  l = [] \/ Exists (fun a => 0 < Nlp.total_commits a) l.

(** [a] may stand before [b] in a list sorted by decreasing stars. *)
Definition stars_ge (a b : RepoMetrics) : Prop := stars b <= stars a.

(** The repositories by decreasing stars, as [main] sorts them. *)
Definition by_stars (l : list RepoMetrics) : list RepoMetrics :=
  map snd (sort_decorated true (map (fun r => (PInt (stars r), r)) l)).

(** The request of [fetch_contributor_count]. *)
Definition contributors_request (full_name : string) : request :=
  {| url := contributors_url full_name; params := [] |}.

(** The text [>; rel="last"], which ends a match of the pattern. *)
Definition LAST_MARK : list ascii :=
  (list_ascii_of_string ">; " ++ REL_LAST)%list.

(** A [Link] header in which the first [>; rel="last"] comes after
    [page=] and the digits [ds]. *)
Definition link_to_last (before ds after : list ascii) : string :=
  string_of_list_ascii
    (before ++ list_ascii_of_string "page=" ++ ds ++ LAST_MARK ++ after)%list.

(** The [Link] header of the first of 345 pages. *)
Definition first_of_345 : list ascii :=
  (list_ascii_of_string
     "<https://api.github.com/repositories/1/contributors?per_page=1&page=2>; rel="
   ++ [ascii_of_nat 34] ++ list_ascii_of_string "next" ++ [ascii_of_nat 34]
   ++ list_ascii_of_string
        ", <https://api.github.com/repositories/1/contributors?per_page=1&")%list.

(** A server that answers with one contributor and that header. *)
Definition paged : server :=
  fun _ _ =>
    mkReply 0 (Response 200
                 [ ("Link", link_to_last first_of_345
                                         (list_ascii_of_string "345") []) ]
                 (Some (JArr [JObj [("login", JStr "octocat")]]))).

(** Two states of a repository that differ at most in the extended
    metrics: [total_issues], [closed_issues] and [contributors]. *)
Definition same_but_extended (r r' : RepoMetrics) : Prop :=
  name r' = name r /\ full_name r' = full_name r /\ stars r' = stars r /\
  open_issues r' = open_issues r /\ created_at r' = created_at r /\
  language r' = language r /\ forks r' = forks r /\
  commits r' = commits r /\ updated_at r' = updated_at r.

(** No condition on a request. *)
Definition any_request (rq : request) : Prop := True.

(** A run from the cache, with no enrichment asked for. *)
Definition offline : args := mkArgs false 200 1000 true 0.

(** A run that ignores the cache and enriches the two repositories with
    the most stars. *)
Definition fresh_top_two : args := mkArgs false 200 1000 false 2.

(** A run from the cache that enriches the repository with the most
    stars. *)
Definition cached_top_one : args := mkArgs false 200 1000 true 1.

(** A timestamp as the API writes it: a UTC time to the second, with the
    suffix [Z]. *)
Definition zulu (d : datetime) : string :=
  digits 4 (year d) ++ "-" ++ digits 2 (month d) ++ "-" ++ digits 2 (day d) ++
  "T" ++ digits 2 (hour d) ++ ":" ++ digits 2 (minute d) ++ ":" ++
  digits 2 (second d) ++ "Z".

(** A valid UTC time with no fraction of a second. *)
Definition utc_seconds (d : datetime) : Prop :=
  valid d = true /\ microsecond d = 0 /\ utcoffset d = Some 0.

(** The record of the search API for a repository. *)
Definition api_record (r : RepoMetrics) : json :=
  JObj [ ("name", JStr (name r)); ("full_name", JStr (full_name r));
         ("stargazers_count", JInt (stars r));
         ("open_issues_count", JInt (open_issues r));
         ("created_at", JStr (zulu (created_at r)));
         ("updated_at", match updated_at r with
                        | Some u => JStr (zulu u)
                        | None => JNull
                        end);
         ("language", of_opt_str (language r));
         ("forks_count", JInt (forks r)) ].

(** A repository as [parse_repo] builds it: without extended metrics and
    without commits. *)
Definition parsed (r : RepoMetrics) : RepoMetrics :=
  mkRepo (name r) (full_name r) (stars r) (open_issues r) (created_at r)
         (language r) (forks r) 0 0 0 0 (updated_at r).

(** An integer that binary64 holds exactly. *)
Definition is_count (v : json) : bool :=
  match v with
  | JInt z => Z.abs z <? 2 ^ 53
  | _ => false
  end.

Definition is_text (v : json) : bool :=
  match v with
  | JStr _ => true
  | _ => false
  end.

Definition is_text_or_null (v : json) : bool :=
  match v with
  | JStr _ | JNull => true
  | _ => false
  end.

(** The value under the key [k], when there is one, passes [test]. *)
Definition field_is (test : json -> bool) (k : string)
           (d : list (string * json)) : bool :=
  match assoc k d with
  | Some v => test v
  | None => true
  end.

(** A record of the search API whose fields, where it has them, are of
    the types the dataclass declares.  What is not an object passes: the
    script raises on it as the embedding does. *)
Definition typed_record (item : json) : bool :=
  match item with
  | JObj d =>
      field_is is_text "name" d && field_is is_text "full_name" d &&
      field_is is_count "stargazers_count" d &&
      field_is is_count "open_issues_count" d &&
      field_is is_text_or_null "language" d &&
      field_is is_count "forks_count" d
  | _ => true
  end.

(** A document of the API: its ["items"], read as records, are typed,
    and so is its ["total_count"]. *)
Definition typed_document (doc : json) : bool :=
  match doc with
  | JObj d =>
      field_is is_count "total_count" d &&
      match assoc "items" d with
      | Some (JArr items) => forallb typed_record items
      | _ => true
      end
  | _ => true
  end.

(** The number of the last page in a [Link] header, when it names one,
    has at most 15 digits, so that binary64 holds it exactly. *)
Definition short_page (headers : list (string * string)) : bool :=
  match header "Link" headers with
  | Some s =>
      match last_page (list_ascii_of_string s) with
      | Some ds => (length ds <=? 15)%nat
      | None => true
      end
  | None => true
  end.

(** A response with such a header and a typed document. *)
Definition typed_response (r : outcome) : bool :=
  match r with
  | Response _ headers body =>
      short_page headers &&
      match body with
      | Some doc => typed_document doc
      | None => true
      end
  | Failed => true
  end.

(** A server that sends typed responses only. *)
Definition typed_server (srv : server) : Prop :=
  forall n rq, typed_response (result (srv n rq)) = true.

(** An entry of the cache file with typed fields. *)
Definition typed_entry (item : json) : bool :=
  match item with
  | JObj d =>
      field_is is_text "name" d && field_is is_text "full_name" d &&
      field_is is_count "stars" d && field_is is_count "open_issues" d &&
      field_is is_text_or_null "language" d && field_is is_count "forks" d &&
      field_is is_count "total_issues" d &&
      field_is is_count "closed_issues" d &&
      field_is is_count "contributors" d
  | _ => true
  end.

(** A working directory whose cache file, if it is a list, has typed
    entries. *)
Definition typed_cache (fs : files) : Prop :=
  match fs "repo_cache.json" with
  | Some (JArr items) => forallb typed_entry items = true
  | _ => True
  end.

(** A run that ignores the cache and enriches every repository. *)
Definition fresh_extended : args := mkArgs true 200 1000 false 0.

(** A server that cannot be reached. *)
Definition cut_off (srv : server) : Prop :=
  forall n rq, result (srv n rq) = Failed.

(** * Properties *)

(** ** Sequencing *)

Lemma bind_Ok {A B : Type} (c : exc A) (k : A -> exc B) (b : B) :
  bind c k = Ok b -> exists a, c = Ok a /\ k a = Ok b.
Proof.
  destruct c as [a|e]; simpl; [eauto | discriminate].
Qed.

Ltac bind_inv H :=
  let a := fresh "x" in
  let E := fresh "E" in
  apply bind_Ok in H; destruct H as (a & E & H).

(** ** The loop of [fetch_commits] *)

Lemma iterate_truthy (data : json) (items : list json) :
  truthy data = true -> iterate data = Ok items -> items <> [].
Proof.
  destruct data as [|z|s|l|d]; cbn [truthy iterate]; intros T E;
    try discriminate; injection E as <-.
  - destruct s; [discriminate T | discriminate].
  - destruct l; [discriminate T | discriminate].
  - destruct d; [discriminate T | discriminate].
Qed.

(** A page never raises: whatever goes wrong inside the [try] is a
    [break]. *)
Lemma fetch_page_total (srv : server) (repo_full_name : string)
      (commits : list json) (page : Z) (w : world) :
  exists next, fst (Nlp.fetch_page srv repo_full_name commits page w) = Ok next.
Proof.
  unfold Nlp.fetch_page, try_except.
  match goal with |- context [match ?c w with _ => _ end] =>
    destruct (c w) as [[a|e] w1] end; eexists; reflexivity.
Qed.

(** So the loop never raises. *)
Lemma fetch_loop_returns (srv : server) (repo_full_name : string)
      (max_commits : Z) (fuel : nat) :
  forall commits page w,
  exists commits',
    fst (Nlp.fetch_loop srv repo_full_name max_commits fuel commits page w)
    = Ok commits'.
Proof.
  induction fuel as [|fuel IH]; intros commits page w; cbn [Nlp.fetch_loop].
  - destruct (_ <? _); eexists; reflexivity.
  - destruct (_ <? _); [|eexists; reflexivity].
    unfold io_bind.
    destruct (fetch_page_total srv repo_full_name commits page w) as [next T].
    destruct (Nlp.fetch_page srv repo_full_name commits page w) as [x w1].
    cbn [fst] in T. subst x.
    destruct next as [commits1|]; [apply IH | eexists; reflexivity].
Qed.

(** A page that does not end the loop adds a commit. *)
Lemma fetch_page_grows (srv : server) (repo_full_name : string)
      (commits commits' : list json) (page : Z) (w : world) :
  fst (Nlp.fetch_page srv repo_full_name commits page w) = Ok (Some commits') ->
  (length commits < length commits')%nat.
Proof.
  unfold Nlp.fetch_page, try_except, io_bind, lift, io_ret.
  destruct (requests_get srv _ w) as [[response|e] w1]; [|discriminate].
  destruct (respect_rate_limit response w1) as [[u|e] w2]; [|discriminate].
  destruct (negb (ok response)); [discriminate|].
  destruct (response_json response) as [data|]; [|discriminate].
  destruct (negb (truthy data)) eqn:T; [discriminate|].
  destruct (iterate data) as [items|] eqn:I; [|discriminate].
  destruct (time_sleep (PFloat (3 # 10)) w2) as [[u'|e] w3]; [|discriminate].
  cbn [fst]. intros [= <-].
  apply negb_false_iff in T.
  pose proof (iterate_truthy data items T I) as N.
  rewrite length_app. destruct items; [contradiction|]. cbn [length]. lia.
Qed.

(** Past [max_commits - len(commits)] iterations, more fuel changes
    nothing: the loop has ended by itself. *)
Lemma fetch_loop_fuel (srv : server) (repo_full_name : string)
      (max_commits : Z) (fuel : nat) :
  forall commits page w,
    (Z.to_nat (max_commits - Z.of_nat (length commits)) <= fuel)%nat ->
    Nlp.fetch_loop srv repo_full_name max_commits (S fuel) commits page w
    = Nlp.fetch_loop srv repo_full_name max_commits fuel commits page w.
Proof.
  induction fuel as [|fuel IH]; intros commits page w H.
  - cbn [Nlp.fetch_loop].
    destruct (Z.ltb_spec (Z.of_nat (length commits)) max_commits);
      [lia | reflexivity].
  - change (Nlp.fetch_loop srv repo_full_name max_commits (S (S fuel))
                           commits page w)
      with ((if Z.of_nat (length commits) <? max_commits
             then io_bind (Nlp.fetch_page srv repo_full_name commits page)
                    (fun next =>
                       match next with
                       | None => io_ret commits
                       | Some commits' =>
                           Nlp.fetch_loop srv repo_full_name max_commits
                                          (S fuel) commits' (page + 1)
                       end)
             else io_ret commits) w).
    change (Nlp.fetch_loop srv repo_full_name max_commits (S fuel)
                           commits page w)
      with ((if Z.of_nat (length commits) <? max_commits
             then io_bind (Nlp.fetch_page srv repo_full_name commits page)
                    (fun next =>
                       match next with
                       | None => io_ret commits
                       | Some commits' =>
                           Nlp.fetch_loop srv repo_full_name max_commits
                                          fuel commits' (page + 1)
                       end)
             else io_ret commits) w).
    destruct (Z.of_nat (length commits) <? max_commits); [|reflexivity].
    unfold io_bind.
    destruct (Nlp.fetch_page srv repo_full_name commits page w)
      as [[[commits'|]|e] w1] eqn:E; try reflexivity.
    apply IH.
    assert (G : (length commits < length commits')%nat)
      by (apply (fetch_page_grows srv repo_full_name _ _ page w);
          rewrite E; reflexivity).
    lia.
Qed.

(** The fuel [fetch_commits] gives its loop is enough. *)
Lemma fetch_commits_fuel (srv : server) (repo_full_name : string)
      (max_commits : Z) (extra : nat) (w : world) :
  Nlp.fetch_loop srv repo_full_name max_commits
                 (extra + Z.to_nat max_commits) [] 1 w
  = Nlp.fetch_loop srv repo_full_name max_commits
                   (Z.to_nat max_commits) [] 1 w.
Proof.
  induction extra as [|extra IH]; [reflexivity|].
  cbn [Nat.add]. rewrite fetch_loop_fuel; [exact IH|].
  cbn [length]. lia.
Qed.

(** ** The tables of signals *)

Lemma counter_add_new (c : Nlp.counter) (k : string) (n : Z) :
  ~ In k (map fst c) -> Nlp.counter_add c k n = (c ++ [(k, n)])%list.
Proof.
  induction c as [|[k' v] c IH]; cbn [Nlp.counter_add map fst app];
    intros H; [reflexivity|].
  destruct (String.eqb_spec k k') as [-> | _]; [exfalso; apply H; now left|].
  rewrite IH; [reflexivity|]. intros Hin. apply H. now right.
Qed.

Lemma scan_hits (message : string) (table : list (string * string)) :
  compiles table ->
  NoDup (map fst table) ->
  forall c,
    (forall k, In k (map fst table) -> ~ In k (map fst c)) ->
    Nlp.scan table message c = Ok (c ++ hits table message)%list.
Proof.
  intros Hc. induction Hc as [|[name pattern] table [r Hr] _ IH];
    intros Hd c Hfresh; cbn [Nlp.scan].
  - unfold hits. cbn [filter map]. rewrite app_nil_r. reflexivity.
  - cbn [snd] in Hr. cbn [map fst] in Hd, Hfresh.
    inversion Hd as [|? ? Hn Hd']; subst.
    unfold hits. cbn [filter snd]. unfold found at 1.
    unfold Re.search at 1 2. rewrite Hr. cbn [bind].
    destruct (Re.matches_somewhere r message).
    + rewrite counter_add_new by (apply Hfresh; now left).
      rewrite IH; [|exact Hd'|].
      * cbn [map fst]. rewrite <- app_assoc. reflexivity.
      * intros k Hk. rewrite map_app, in_app_iff.
        intros [Hin | [<- | []]]; [|exact (Hn Hk)].
        apply (Hfresh k); [now right | exact Hin].
    + apply IH; [exact Hd'|].
      intros k Hk. apply Hfresh. now right.
Qed.

Ltac table_compiles :=
  repeat (constructor; [eexists; vm_compute; reflexivity|]); constructor.

Ltac table_names :=
  repeat (constructor;
          [cbn; intros H;
           repeat (destruct H as [H | H]; [discriminate H|]); exact H|]);
  constructor.

Lemma debt_table : compiles Nlp.DEBT_SIGNALS /\ NoDup (map fst Nlp.DEBT_SIGNALS).
Proof. split; [table_compiles | table_names]. Qed.

Lemma bug_table : compiles Nlp.BUG_SIGNALS /\ NoDup (map fst Nlp.BUG_SIGNALS).
Proof. split; [table_compiles | table_names]. Qed.

Lemma revert_table :
  compiles Nlp.REVERT_SIGNALS /\ NoDup (map fst Nlp.REVERT_SIGNALS).
Proof. split; [table_compiles | table_names]. Qed.

Lemma frustration_table :
  compiles Nlp.FRUSTRATION_SIGNALS /\
  NoDup (map fst Nlp.FRUSTRATION_SIGNALS).
Proof. split; [table_compiles | table_names]. Qed.

Lemma positive_table :
  compiles Nlp.POSITIVE_SIGNALS /\ NoDup (map fst Nlp.POSITIVE_SIGNALS).
Proof. split; [table_compiles | table_names]. Qed.

Lemma scan_table (message : string) (table : list (string * string)) :
  compiles table /\ NoDup (map fst table) ->
  Nlp.scan table message [] = Ok (hits table message).
Proof.
  intros [Hc Hd]. rewrite (scan_hits message table Hc Hd []); [reflexivity|].
  intros k _ [].
Qed.

Lemma analyze_message_hits (message : string) :
  Nlp.analyze_message message
  = Ok {| Nlp.debt := hits Nlp.DEBT_SIGNALS message;
          Nlp.bug := hits Nlp.BUG_SIGNALS message;
          Nlp.revert := hits Nlp.REVERT_SIGNALS message;
          Nlp.frustration := hits Nlp.FRUSTRATION_SIGNALS message;
          Nlp.positive := hits Nlp.POSITIVE_SIGNALS message |}.
Proof.
  unfold Nlp.analyze_message.
  rewrite (scan_table message _ debt_table),
    (scan_table message _ bug_table),
    (scan_table message _ revert_table),
    (scan_table message _ frustration_table),
    (scan_table message _ positive_table).
  reflexivity.
Qed.

(** ** Eras *)

Lemma era_cases (r : RepoMetrics) :
  (year (created_at r) < 2022 /\ Debt.era r = "pre-ai") \/
  (2022 <= year (created_at r) /\ Debt.era r = "post-ai").
Proof.
  unfold Debt.era.
  destruct (Z.ltb_spec (year (created_at r)) 2022); [left | right]; auto.
Qed.

Lemma analyze_commit_era (a a' : Nlp.CommitAnalysis) (commit : json) :
  Nlp.analyze_commit a commit = Ok a' -> Nlp.era a' = Nlp.era a.
Proof.
  unfold Nlp.analyze_commit. intros H.
  bind_inv H. bind_inv H.
  destruct (negb (truthy _)); [injection H as <-; reflexivity|].
  bind_inv H. bind_inv H.
  injection H as <-. reflexivity.
Qed.

Lemma analyze_commits_era (commits : list json) :
  forall a a', Nlp.analyze_commits a commits = Ok a' ->
               Nlp.era a' = Nlp.era a.
Proof.
  induction commits as [|commit rest IH]; simpl; intros a a' H.
  - injection H as <-; reflexivity.
  - destruct (Nlp.analyze_commit a commit) as [a1|] eqn:E; simpl in H;
      [|discriminate].
    rewrite (IH _ _ H). eapply analyze_commit_era; eauto.
Qed.

Lemma analyze_commit_repo (a a' : Nlp.CommitAnalysis) (commit : json) :
  Nlp.analyze_commit a commit = Ok a' -> Nlp.repo a' = Nlp.repo a.
Proof.
  unfold Nlp.analyze_commit. intros H.
  bind_inv H. bind_inv H.
  destruct (negb (truthy _)); [injection H as <-; reflexivity|].
  bind_inv H. bind_inv H.
  injection H as <-. reflexivity.
Qed.

Lemma analyze_commits_repo (commits : list json) :
  forall a a', Nlp.analyze_commits a commits = Ok a' ->
               Nlp.repo a' = Nlp.repo a.
Proof.
  induction commits as [|commit rest IH]; simpl; intros a a' H.
  - injection H as <-; reflexivity.
  - destruct (Nlp.analyze_commit a commit) as [a1|] eqn:E; simpl in H;
      [|discriminate].
    rewrite (IH _ _ H). eapply analyze_commit_repo; eauto.
Qed.

(** A readable commit is analysed without an exception. *)
Lemma analyze_commit_readable (a : Nlp.CommitAnalysis) (commit : json) :
  readable commit = true -> exists a', Nlp.analyze_commit a commit = Ok a'.
Proof.
  unfold readable, Nlp.analyze_commit.
  destruct commit as [|z|s|l|d]; try discriminate.
  cbn [get].
  destruct (assoc "commit" d) as [inner|]; cbn [bind].
  2:{ intros _. cbn. eexists; reflexivity. }
  destruct inner as [|z|s|l|d']; try discriminate.
  cbn [get].
  destruct (assoc "message" d') as [v|]; cbn [bind].
  2:{ intros _. cbn. eexists; reflexivity. }
  intros H.
  destruct (negb (truthy v)) eqn:T; [eexists; reflexivity|].
  destruct v as [|z|s|l|d'']; try discriminate H.
  cbn [bind]. rewrite analyze_message_hits. cbn [bind].
  eexists; reflexivity.
Qed.

Lemma analyze_commits_readable (commits : list json) :
  Forall (fun commit => readable commit = true) commits ->
  forall a, exists a', Nlp.analyze_commits a commits = Ok a'.
Proof.
  induction 1 as [|commit rest Hc _ IH]; intros a; cbn [Nlp.analyze_commits].
  - eexists; reflexivity.
  - destruct (analyze_commit_readable a commit Hc) as [a1 ->]. cbn [bind].
    apply IH.
Qed.

(** The commits a page adds are those of a document of the server. *)
Lemma fetch_page_readable (srv : server) (repo_full_name : string)
      (commits commits' : list json) (page : Z) (w : world) :
  readable_pages srv ->
  Forall (fun commit => readable commit = true) commits ->
  fst (Nlp.fetch_page srv repo_full_name commits page w) = Ok (Some commits') ->
  Forall (fun commit => readable commit = true) commits'.
Proof.
  intros Hs Hc.
  unfold Nlp.fetch_page, try_except, io_bind, lift, io_ret, requests_get.
  match goal with
  | |- context [srv (sent w) ?rq] => set (rp := srv (sent w) rq)
  end.
  destruct (result rp) as [|status headers body] eqn:R; [discriminate|].
  match goal with
  | |- context [respect_rate_limit ?r ?w1] =>
      destruct (respect_rate_limit r w1) as [[u|e] w2]
  end; [|discriminate].
  destruct (negb (ok _)); [discriminate|].
  destruct body as [doc|]; cbn [response_json]; [|discriminate].
  destruct (negb (truthy doc)); [discriminate|].
  destruct (iterate doc) as [items|] eqn:I; [|discriminate].
  destruct (time_sleep (PFloat (3 # 10)) w2) as [[u'|e] w3]; [|discriminate].
  cbn [fst]. intros [= <-].
  apply Forall_app. split; [exact Hc|].
  exact (Hs _ _ _ _ _ _ R I).
Qed.

Lemma fetch_loop_readable (srv : server) (repo_full_name : string)
      (max_commits : Z) (fuel : nat) :
  readable_pages srv ->
  forall commits page w commits',
    Forall (fun commit => readable commit = true) commits ->
    fst (Nlp.fetch_loop srv repo_full_name max_commits fuel commits page w)
    = Ok commits' ->
    Forall (fun commit => readable commit = true) commits'.
Proof.
  intros Hs. induction fuel as [|fuel IH]; intros commits page w commits' Hc;
    cbn [Nlp.fetch_loop].
  - destruct (_ <? _); cbn; intros [= <-]; exact Hc.
  - destruct (_ <? _); [|cbn; intros [= <-]; exact Hc].
    unfold io_bind.
    destruct (Nlp.fetch_page srv repo_full_name commits page w)
      as [[[next|]|e] w1] eqn:E.
    + apply IH.
      apply (fetch_page_readable srv repo_full_name commits next page w Hs Hc).
      rewrite E. reflexivity.
    + cbn. intros [= <-]. exact Hc.
    + discriminate.
Qed.

Lemma firstn_Forall {A : Type} (P : A -> Prop) (n : nat) (l : list A) :
  Forall P l -> Forall P (firstn n l).
Proof.
  intros H. revert n. induction H as [|x l Hx _ IH]; intros [|n];
    cbn [firstn]; constructor; auto.
Qed.

(** On readable pages [analyze_repo] returns an analysis, and it is the
    one of the repository and of the era of its year of creation. *)
Lemma analyze_repo_returns (srv : server) (repo_name : string)
      (created : datetime) (w : world) :
  readable_pages srv ->
  exists a,
    fst (Nlp.analyze_repo srv repo_name created w) = Ok a /\
    Nlp.repo a = repo_name /\
    Nlp.era a = (if year created <? 2022 then "pre-ai" else "post-ai").
Proof.
  intros Hs. unfold Nlp.analyze_repo, Nlp.fetch_commits, io_bind, lift, io_ret.
  destruct (fetch_loop_returns srv repo_name 500 (Z.to_nat 500) [] 1 w)
    as [commits E].
  pose proof (fetch_loop_readable srv repo_name 500 (Z.to_nat 500) Hs [] 1 w
                commits (Forall_nil _) E) as F.
  destruct (Nlp.fetch_loop srv repo_name 500 (Z.to_nat 500) [] 1 w)
    as [x w1].
  cbn [fst] in E. subst x.
  destruct (analyze_commits_readable (slice_to 500 commits)
              (firstn_Forall _ _ _ F)
              (Nlp.new_analysis repo_name
                 (if year created <? 2022 then "pre-ai" else "post-ai")))
    as [a Ha].
  exists a. cbn [fst]. split; [exact Ha|].
  split.
  - rewrite (analyze_commits_repo _ _ _ Ha). reflexivity.
  - rewrite (analyze_commits_era _ _ _ Ha). reflexivity.
Qed.

Lemma readable_three_commits : readable_pages three_commits.
Proof.
  intros n rq status headers doc items R I.
  destruct n as [|n]; cbn in R; injection R as <- <- <-;
    cbn in I; injection I as <-; repeat constructor.
Qed.

(** C1.  The era of a repository is "pre-ai" exactly when the year of its
    creation timestamp is below 2022 and "post-ai" otherwise, so it is
    exactly one of the two; a repository created at 2022-01-01T00:00:00Z,
    whatever its other fields, is "post-ai".  The commit analysis of a
    repository classifies it by the same rule: whenever [analyze_repo]
    returns, the era of its analysis is the one of the year of creation,
    and it does return, with the analysis of that repository, on every
    server whose pages hold commits whose message can be read. *)
Theorem C1_era_classification :
  (forall r : RepoMetrics,
      (Debt.era r = "pre-ai" <-> year (created_at r) < 2022) /\
      (Debt.era r = "post-ai" <-> 2022 <= year (created_at r)) /\
      (Debt.era r = "pre-ai" \/ Debt.era r = "post-ai") /\
      ~ (Debt.era r = "pre-ai" /\ Debt.era r = "post-ai")) /\
  fromisoformat (replace_Z "2022-01-01T00:00:00Z") = Ok boundary /\
  (forall n fn st oi lang fk ti ci co cm up,
      Debt.era (mkRepo n fn st oi boundary lang fk ti ci co cm up)
      = "post-ai") /\
  (forall srv repo_name created w,
      match fst (Nlp.analyze_repo srv repo_name created w) with
      | Ok a =>
          Nlp.era a = (if year created <? 2022 then "pre-ai" else "post-ai")
      | Raise _ => True
      end) /\
  (forall srv repo_name created w,
      readable_pages srv ->
      exists a,
        fst (Nlp.analyze_repo srv repo_name created w) = Ok a /\
        Nlp.repo a = repo_name /\
        Nlp.era a = (if year created <? 2022 then "pre-ai" else "post-ai")).
Proof.
  split; [|split; [|split; [|split]]].
  - intros r.
    destruct (era_cases r) as [[Hy He] | [Hy He]]; rewrite He;
      repeat split; try tauto; try lia; try discriminate;
      intros; try discriminate; try lia.
    + intros [_ H]; discriminate.
    + intros [H _]; discriminate.
  - vm_compute. reflexivity.
  - intros. reflexivity.
  - intros srv repo_name created w.
    unfold Nlp.analyze_repo, io_bind, lift.
    destruct (Nlp.fetch_commits srv repo_name 500 w) as [[commits|e] w'];
      simpl; [|exact I].
    destruct (Nlp.analyze_commits _ commits) as [a|] eqn:E; [|exact I].
    apply analyze_commits_era in E. exact E.
  - exact analyze_repo_returns.
Qed.

(** The pages of [three_commits] are readable, and the analysis of its
    repository is returned, with the era of the boundary year. *)
Lemma C1_era_classification_witness :
  readable_pages three_commits /\
  exists a,
    fst (Nlp.analyze_repo three_commits "octo/demo" boundary at_start) = Ok a /\
    Nlp.repo a = "octo/demo" /\
    Nlp.era a = (if year boundary <? 2022 then "pre-ai" else "post-ai").
Proof.
  split; [exact readable_three_commits|].
  apply (proj2 (proj2 (proj2 (proj2 C1_era_classification)))).
  exact readable_three_commits.
Defined.

(** ** Ratios with a zero denominator *)

(** [issues_per_1k_stars] never raises. *)
Lemma issues_per_1k_stars_total (r : RepoMetrics) :
  exists v, issues_per_1k_stars r = Ok v.
Proof.
  unfold issues_per_1k_stars, true_div.
  destruct (Z.eqb_spec (stars r) 0) as [|Hn]; [eexists; reflexivity|].
  simpl to_Q.
  destruct (Qeq_bool (inject_Z (stars r)) 0) eqn:E.
  - apply Qeq_bool_iff in E. unfold Qeq in E. simpl in E. lia.
  - simpl. eexists; reflexivity.
Qed.

(** C2.  A repository with no stars has the ratio 0: the division is not
    attempted, whatever the number of open issues. *)
Theorem C2_no_stars_ratio_zero (r : RepoMetrics) :
  stars r = 0 -> issues_per_1k_stars r = Ok (PInt 0).
Proof.
  intros H. unfold issues_per_1k_stars. rewrite H. reflexivity.
Qed.

Lemma C2_no_stars_ratio_zero_witness :
  stars unstarred = 0 /\ issues_per_1k_stars unstarred = Ok (PInt 0).
Proof.
  split; [reflexivity | apply (C2_no_stars_ratio_zero unstarred); reflexivity].
Defined.

(** ** Classifying messages *)

Lemma why_compiles : Re.compile "^why\b" = Some why_regex.
Proof. vm_compute. reflexivity. Qed.

(** A pattern that starts with [^] matches at no position but the first. *)
Lemma anchored_later (r : Re.regex) (s : list ascii) :
  forall c,
    existsb (fun p => match Re.ends (Re.Seq Re.Bol r) p with
                      | [] => false
                      | _ => true
                      end)
            (Re.positions (Some c) s) = false.
Proof.
  induction s as [|x s IH]; intros c; simpl; [reflexivity|].
  apply IH.
Qed.

Lemma nocase_y_is_word (c : ascii) :
  Re.eq_nocase "y" c = true -> Re.is_word c = true.
Proof.
  destruct c as [[] [] [] [] [] [] [] []]; vm_compute; intros H;
    first [reflexivity | discriminate H].
Qed.

Lemma why_search (msg : string) :
  Re.search "^why\b" msg = Ok (starts_with_why msg).
Proof.
  unfold Re.search. rewrite why_compiles. f_equal.
  unfold Re.matches_somewhere, why_regex.
  destruct msg as [|a msg]; [reflexivity|].
  cbn [list_ascii_of_string Re.positions existsb].
  rewrite anchored_later, orb_false_r.
  cbn [Re.ends flat_map fst snd Re.eat app].
  unfold starts_with_why.
  destruct (Re.eq_nocase "w" a); cbn [flat_map andb];
    [|destruct msg as [|? [|? ?]]; reflexivity].
  destruct msg as [|b msg]; [reflexivity|].
  cbn [list_ascii_of_string Re.ends flat_map fst snd Re.eat app].
  destruct (Re.eq_nocase "h" b); cbn [flat_map andb app];
    [|destruct msg; reflexivity].
  destruct msg as [|c msg]; [reflexivity|].
  cbn [list_ascii_of_string Re.ends flat_map fst snd Re.eat app].
  destruct (Re.eq_nocase "y" c) eqn:Hy; cbn [flat_map andb app];
    [|reflexivity].
  unfold Re.word_before, Re.word_after. cbn [fst snd].
  rewrite (nocase_y_is_word c Hy).
  destruct msg as [|d msg]; cbn [list_ascii_of_string]; [reflexivity|].
  destruct (Re.is_word d); reflexivity.
Qed.

(** C6.  The message "why does this keep breaking" gives the frustration
    signal "why" and the message "I wonder why this breaks" does not: the
    pattern of "why" is [^why\b], and it matches a message exactly when
    the message starts with the word "why". *)
Theorem C6_why_anchored :
  Nlp.analyze_message "why does this keep breaking"
  = Ok (Nlp.mkSignals [] [] [] [("why", 1)] []) /\
  Nlp.analyze_message "I wonder why this breaks"
  = Ok (Nlp.mkSignals [] [] [] [] []) /\
  assoc "why" Nlp.FRUSTRATION_SIGNALS = Some "^why\b" /\
  (forall msg : string, Re.search "^why\b" msg = Ok (starts_with_why msg)).
Proof.
  split; [|split; [|split]].
  - vm_compute. reflexivity.
  - vm_compute. reflexivity.
  - reflexivity.
  - exact why_search.
Qed.

(** C7.  The message "TODO: fix this hack later" gives the debt signals
    "todo" and "hack" and the bug signal "fix", each counted once, and no
    revert, frustration or positive signal. *)
Theorem C7_todo_fix_hack :
  Nlp.analyze_message "TODO: fix this hack later"
  = Ok {| Nlp.debt := [("todo", 1); ("hack", 1)];
          Nlp.bug := [("fix", 1)];
          Nlp.revert := [];
          Nlp.frustration := [];
          Nlp.positive := [] |}.
Proof. vm_compute. reflexivity. Qed.

(** ** Signals per 100 commits *)

Lemma true_div_int_ok (a b : Z) :
  b <> 0 -> exists q, true_div (PInt a) (PInt b) = Ok (PFloat q).
Proof.
  intros Hb. unfold true_div. simpl to_Q.
  destruct (Qeq_bool (inject_Z b) 0) eqn:E.
  - apply Qeq_bool_iff in E. unfold Qeq in E. simpl in E. lia.
  - eexists; reflexivity.
Qed.

(** The five ratios of an analysis with no commit are the [int] 0. *)
Lemma zero_commit_ratios (a : Nlp.CommitAnalysis) :
  Nlp.total_commits a = 0 ->
  Nlp.debt_ratio a = Ok (PInt 0) /\
  Nlp.bug_ratio a = Ok (PInt 0) /\
  Nlp.revert_ratio a = Ok (PInt 0) /\
  Nlp.frustration_ratio a = Ok (PInt 0) /\
  Nlp.positive_ratio a = Ok (PInt 0).
Proof.
  intros H.
  unfold Nlp.debt_ratio, Nlp.bug_ratio, Nlp.revert_ratio,
    Nlp.frustration_ratio, Nlp.positive_ratio.
  rewrite H. simpl. repeat split.
Qed.

(** The guarded ratio of the era statistics never raises. *)
Lemma rounded_per_100_ok (c : Nlp.counter) (total : Z) :
  exists v, Nlp.rounded_per_100 c total = Ok v.
Proof.
  unfold Nlp.rounded_per_100, Nlp.per_100.
  destruct (Z.eqb_spec total 0) as [|Hn]; [eexists; reflexivity|].
  destruct (true_div_int_ok (Nlp.counter_total c) total Hn) as [q ->].
  simpl. eexists; reflexivity.
Qed.

Lemma no_lengths_no_average (l : list Nlp.CommitAnalysis) :
  Forall (fun a => Nlp.message_lengths a = []) l ->
  exists lengths,
    mapM Nlp.avg_message_length l = Ok lengths /\
    filter (fun x => num_ltb (PInt 0) x) lengths = [].
Proof.
  induction 1 as [|a l Ha _ (lengths & E & F)].
  - exists []. split; reflexivity.
  - exists (PInt 0 :: lengths). simpl.
    unfold Nlp.avg_message_length at 1. rewrite Ha. simpl. rewrite E. simpl.
    split; [reflexivity | exact F].
Qed.

(** The statistics of an era whose repositories all came back without a
    commit message are not computed: the mean of their message lengths is
    the mean of an empty list. *)
Lemma calc_stats_without_messages (a : Nlp.CommitAnalysis)
      (l : list Nlp.CommitAnalysis) :
  Forall (fun a => Nlp.message_lengths a = []) (a :: l) ->
  Nlp.calc_stats (a :: l) = Raise StatisticsError.
Proof.
  intros H. unfold Nlp.calc_stats.
  repeat match goal with
         | |- context [Nlp.rounded_per_100 ?c ?t] =>
             let v := fresh "v" in
             let E := fresh "E" in
             destruct (rounded_per_100_ok c t) as [v E]; rewrite E;
             cbn [bind]
         end.
  destruct (no_lengths_no_average _ H) as (lengths & Hl & Hf).
  rewrite Hl. cbn [bind]. rewrite Hf. reflexivity.
Qed.

(** C3.  An analysis with no commit has its five ratios equal to 0; the
    aggregation of an era made of that analysis alone, whose commit counts
    sum to 0, raises [StatisticsError] and returns no ratio.  Such an
    analysis is what [analyze_repo] returns when no commit can be
    fetched. *)
Theorem C3_zero_commits_aggregation_raises :
  Nlp.total_commits no_commits = 0 /\
  Nlp.debt_ratio no_commits = Ok (PInt 0) /\
  Nlp.bug_ratio no_commits = Ok (PInt 0) /\
  Nlp.revert_ratio no_commits = Ok (PInt 0) /\
  Nlp.frustration_ratio no_commits = Ok (PInt 0) /\
  Nlp.positive_ratio no_commits = Ok (PInt 0) /\
  zsum (map Nlp.total_commits [no_commits]) = 0 /\
  Nlp.calc_stats [no_commits] = Raise StatisticsError /\
  Nlp.aggregate_by_era [no_commits] = Raise StatisticsError /\
  fst (Nlp.analyze_repo unreachable "octo/demo" (mkdt 2015 6 1 0 0 0 0 (Some 0))
                        start)
  = Ok no_commits.
Proof.
  split; [reflexivity|].
  pose proof (zero_commit_ratios no_commits eq_refl) as (H1 & H2 & H3 & H4 & H5).
  repeat (split; [assumption|]).
  split; [reflexivity|].
  assert (E : Nlp.calc_stats [no_commits] = Raise StatisticsError).
  { apply calc_stats_without_messages. repeat constructor. }
  split; [exact E|].
  split; [|vm_compute; reflexivity].
  unfold Nlp.aggregate_by_era. cbn [filter no_commits Nlp.new_analysis Nlp.era].
  change (("pre-ai" =? "pre-ai")%string) with true. cbv iota.
  change (Nlp.new_analysis "octo/demo" "pre-ai") with no_commits in *.
  fold no_commits. rewrite E. reflexivity.
Qed.

(** ** Extremes *)

(** *** Sorting by ratio *)

Section Insertion.
Context {A : Type}.

Lemma insert_by_perm (before : pynum -> pynum -> bool) (x : pynum * A)
      (l : list (pynum * A)) :
  Permutation (insert_by before x l) (x :: l).
Proof.
  induction l as [|y l IH]; cbn [insert_by]; [reflexivity|].
  destruct (before (fst x) (fst y)); [reflexivity|].
  rewrite IH. apply perm_swap.
Qed.

Lemma sort_decorated_perm (reverse : bool) (l : list (pynum * A)) :
  Permutation (sort_decorated reverse l) l.
Proof.
  unfold sort_decorated. induction l as [|x l IH]; [reflexivity|].
  cbn [fold_right]. rewrite insert_by_perm. constructor. exact IH.
Qed.

Lemma insert_desc_sorted (x : pynum * A) (l : list (pynum * A)) :
  StronglySorted key_ge l ->
  StronglySorted key_ge (insert_by (fun a b => num_leb b a) x l).
Proof.
  induction 1 as [|y l Hs IH Hy]; cbn [insert_by].
  - repeat constructor.
  - unfold num_leb. destruct (Qle_bool (to_Q (fst y)) (to_Q (fst x))) eqn:E.
    + apply Qle_bool_iff in E.
      constructor; [constructor; assumption|].
      constructor; [exact E|].
      eapply Forall_impl; [|exact Hy].
      intros z Hz. unfold key_ge in *. eapply Qle_trans; eassumption.
    + constructor; [exact IH|].
      apply (Permutation_Forall (Permutation_sym (insert_by_perm _ x l))).
      constructor; [|exact Hy].
      unfold key_ge. apply Qlt_le_weak. apply Qnot_le_lt.
      intros H. apply Qle_bool_iff in H. congruence.
Qed.

Lemma sort_desc_sorted (l : list (pynum * A)) :
  StronglySorted key_ge (sort_decorated true l).
Proof.
  unfold sort_decorated. induction l as [|x l IH]; [constructor|].
  cbn [fold_right]. apply insert_desc_sorted, IH.
Qed.

End Insertion.

Lemma issues_per_1k_stars_ratio (r : RepoMetrics) :
  issues_per_1k_stars r = Ok (ratio r).
Proof.
  unfold ratio. destruct (issues_per_1k_stars_total r) as [v ->]. reflexivity.
Qed.

Lemma repo_summary_of (r : RepoMetrics) : repo_summary r = Ok (summary_of r).
Proof.
  unfold repo_summary. rewrite issues_per_1k_stars_ratio. reflexivity.
Qed.

Lemma mapM_pure {A B : Type} (f : A -> exc B) (g : A -> B) (l : list A) :
  (forall x, f x = Ok (g x)) -> mapM f l = Ok (map g l).
Proof.
  intros H. induction l as [|x l IH]; [reflexivity|].
  cbn [mapM map]. rewrite H, IH. reflexivity.
Qed.

Lemma by_ratio_perm (repos : list RepoMetrics) :
  Permutation (by_ratio repos) repos.
Proof.
  unfold by_ratio. rewrite sort_decorated_perm, map_map. cbn [snd].
  rewrite map_id. reflexivity.
Qed.

Lemma by_ratio_sorted (repos : list RepoMetrics) :
  StronglySorted ratio_ge (by_ratio repos).
Proof.
  unfold by_ratio.
  set (ks := map (fun r => (ratio r, r)) repos).
  assert (D : Forall (fun p => fst p = ratio (snd p)) (sort_decorated true ks)).
  { apply (Permutation_Forall (Permutation_sym (sort_decorated_perm true ks))).
    unfold ks. apply Forall_map, Forall_forall. reflexivity. }
  pose proof (sort_desc_sorted ks) as S.
  induction S as [|p l Sl IH Hp]; [constructor|].
  inversion D as [|? ? Dp Dl]; subst.
  cbn [map]. constructor; [apply IH, Dl|].
  apply Forall_map.
  rewrite Forall_forall in *. intros q Hq.
  unfold ratio_ge. rewrite <- Dp, <- (Dl q Hq). apply (Hp q Hq).
Qed.

(** For a positive [top_n], [find_extremes] returns the first [top_n]
    repositories by decreasing ratio and the last [top_n] ones, these from
    the lowest ratio up. *)
Lemma find_extremes_positive (repos : list RepoMetrics) (top_n : Z) :
  0 < top_n ->
  find_extremes repos top_n
  = Ok {| highest_debt_ratio :=
            map summary_of (firstn (Z.to_nat top_n) (by_ratio repos));
          lowest_debt_ratio :=
            map summary_of
                (rev (skipn (length repos - Z.to_nat top_n)
                            (by_ratio repos))) |}.
Proof.
  intros Hn. unfold find_extremes, sorted.
  rewrite (mapM_pure _ (fun r => (ratio r, r)))
    by (intros r; rewrite issues_per_1k_stars_ratio; reflexivity).
  cbn [bind]. fold (by_ratio repos).
  rewrite !(mapM_pure _ _ _ repo_summary_of). cbn [bind].
  assert (L : length (by_ratio repos) = length repos)
    by (apply Permutation_length, by_ratio_perm).
  do 3 f_equal.
  - unfold slice_to. rewrite L.
    destruct (Z.ltb_spec top_n 0); [lia|].
    destruct (Z.le_ge_cases top_n (Z.of_nat (length repos))).
    + rewrite Z.min_l by lia. reflexivity.
    + rewrite Z.min_r, Nat2Z.id by lia.
      rewrite <- L, !firstn_all2 by lia. reflexivity.
  - unfold reversed, slice_from. rewrite L.
    destruct (Z.ltb_spec (- top_n) 0); [|lia].
    f_equal. f_equal. lia.
Qed.

Lemma listing_summary_of (l : list RepoMetrics) :
  map listing (map summary_of l) = map listed l.
Proof. rewrite map_map. reflexivity. Qed.

(** *** The example *)

Lemma five_ratios :
  mapM issues_per_1k_stars five
  = Ok [PFloat 10; PFloat 5; PFloat 8; PFloat 1; PFloat 20].
Proof. vm_compute. reflexivity. Qed.

(** With [top_n = 2] the two lists are the ones of the example. *)
Lemma find_extremes_two :
  exists e,
    find_extremes five 2 = Ok e /\
    map s_name (highest_debt_ratio e) = ["octo/e"; "octo/a"] /\
    ratios_of (highest_debt_ratio e) = [PFloat 20; PFloat 10] /\
    map s_name (lowest_debt_ratio e) = ["octo/d"; "octo/b"] /\
    ratios_of (lowest_debt_ratio e) = [PFloat 1; PFloat 5].
Proof.
  eexists. split; [vm_compute; reflexivity|].
  repeat split.
Qed.

Lemma modest_five : Forall modest five.
Proof. repeat constructor. Qed.

(** C4.  On the five repositories with ratios 10, 5, 8, 1 and 20,
    [find_extremes] with [top_n = 2] returns the repositories with the
    ratios 20, 10 as highest and those with the ratios 1, 5 as lowest, in
    these orders.  In general, for a positive [top_n] - the only ones the
    script passes - and counts in the range where binary64 orders the
    ratios as exact arithmetic does, it sorts the repositories by
    decreasing ratio and returns the first [top_n] of the sorted list as
    highest and the last [top_n], from the lowest ratio up, as lowest:
    both lists have the most extreme repository first. *)
Theorem C4_find_extremes_most_extreme_first :
  (exists e,
      find_extremes five 2 = Ok e /\
      map s_name (highest_debt_ratio e) = ["octo/e"; "octo/a"] /\
      ratios_of (highest_debt_ratio e) = [PFloat 20; PFloat 10] /\
      map s_name (lowest_debt_ratio e) = ["octo/d"; "octo/b"] /\
      ratios_of (lowest_debt_ratio e) = [PFloat 1; PFloat 5]) /\
  (forall repos top_n,
      0 < top_n ->
      Forall modest repos ->
      exists e s,
        find_extremes repos top_n = Ok e /\
        Permutation s repos /\
        StronglySorted ratio_ge s /\
        map listing (highest_debt_ratio e)
        = map listed (firstn (Z.to_nat top_n) s) /\
        map listing (lowest_debt_ratio e)
        = map listed (rev (skipn (length repos - Z.to_nat top_n) s))).
Proof.
  split; [exact find_extremes_two|].
  intros repos top_n Hn _.
  eexists _, (by_ratio repos).
  split; [apply find_extremes_positive, Hn|].
  split; [apply by_ratio_perm|].
  split; [apply by_ratio_sorted|].
  cbn [highest_debt_ratio lowest_debt_ratio].
  rewrite !listing_summary_of. split; reflexivity.
Qed.

Lemma C4_find_extremes_most_extreme_first_witness :
  0 < 2 /\
  Forall modest five /\
  exists e s,
    find_extremes five 2 = Ok e /\
    Permutation s five /\
    StronglySorted ratio_ge s /\
    map listing (highest_debt_ratio e) = map listed (firstn (Z.to_nat 2) s) /\
    map listing (lowest_debt_ratio e)
    = map listed (rev (skipn (length five - Z.to_nat 2) s)).
Proof.
  split; [lia|]. split; [exact modest_five|].
  apply (proj2 C4_find_extremes_most_extreme_first five 2);
    [lia | exact modest_five].
Defined.

(** ** The cache round trip *)

(** *** Decimal fields *)

Lemma digit_val_char (d : Z) :
  0 <= d < 10 -> digit_val (digit_char d) = Some d.
Proof.
  intros H.
  assert (C : d = 0 \/ d = 1 \/ d = 2 \/ d = 3 \/ d = 4 \/ d = 5 \/ d = 6 \/
              d = 7 \/ d = 8 \/ d = 9) by lia.
  repeat (destruct C as [-> | C]; [reflexivity|]). subst. reflexivity.
Qed.

Lemma parse_digits_digits (w : nat) (n : Z) (rest : string) :
  forall acc,
    parse_digits w (digits w n ++ rest) acc
    = Some (acc * 10 ^ Z.of_nat w + n mod 10 ^ Z.of_nat w, rest).
Proof.
  induction w as [|w IH]; intros acc.
  - simpl. rewrite Z.mod_1_r. f_equal. f_equal. lia.
  - cbn [digits append parse_digits].
    rewrite digit_val_char by (apply Z.mod_pos_bound; lia).
    rewrite IH. f_equal. f_equal.
    rewrite Nat2Z.inj_succ, Z.pow_succ_r by lia.
    rewrite (Z.mul_comm 10 (10 ^ Z.of_nat w)).
    rewrite Z.rem_mul_r by lia. ring.
Qed.

Lemma parse_field (w : nat) (n : Z) (rest : string) :
  0 <= n < 10 ^ Z.of_nat w ->
  parse_digits w (digits w n ++ rest) 0 = Some (n, rest).
Proof.
  intros H. rewrite parse_digits_digits, Z.mod_small by exact H.
  reflexivity.
Qed.

Lemma append_empty (s : string) : s ++ "" = s.
Proof. induction s; simpl; congruence. Qed.

Lemma parse_field_end (w : nat) (n : Z) :
  0 <= n < 10 ^ Z.of_nat w ->
  parse_digits w (digits w n) 0 = Some (n, "").
Proof.
  intros H. rewrite <- (append_empty (digits w n)). apply parse_field, H.
Qed.

Lemma parse_offset_body (c : ascii) (sg a : Z) :
  (c = "+"%char /\ sg = 1) \/ (c = "-"%char /\ sg = -1) ->
  0 <= a < 86400 ->
  parse_offset
    (String c
       (digits 2 (a / 3600) ++
        String ":" (digits 2 (a mod 3600 / 60) ++
                    (if a mod 60 =? 0 then ""
                     else String ":" (digits 2 (a mod 60))))))
  = Some (Some (sg * a), "").
Proof.
  intros Hc Ha.
  assert (Hh : 0 <= a / 3600 < 24) by (Z.to_euclidean_division_equations; lia).
  assert (Hm : 0 <= a mod 3600 / 60 < 60)
    by (Z.to_euclidean_division_equations; lia).
  assert (Hs : 0 <= a mod 60 < 60) by (apply Z.mod_pos_bound; lia).
  assert (Hsum : a / 3600 * 3600 + a mod 3600 / 60 * 60 + a mod 60 = a)
    by (Z.to_euclidean_division_equations; lia).
  assert (Bh : (a / 3600 <? 24) = true) by (apply Z.ltb_lt; lia).
  assert (Bm : (a mod 3600 / 60 <? 60) = true) by (apply Z.ltb_lt; lia).
  assert (Bs : (a mod 60 <? 60) = true) by (apply Z.ltb_lt; lia).
  unfold parse_offset.
  replace (if Ascii.eqb c "+" then Some 1
           else if Ascii.eqb c "-" then Some (-1) else None)
    with (Some sg) by (destruct Hc as [[-> ->] | [-> ->]]; reflexivity).
  rewrite parse_field by (simpl; lia).
  cbn [append expect Ascii.eqb Bool.eqb].
  destruct (Z.eqb_spec (a mod 60) 0) as [Hz | Hz].
  - rewrite parse_field by (simpl; lia).
    unfold offset_of. rewrite Bh, Bm. simpl. do 3 f_equal. lia.
  - rewrite parse_field by (simpl; lia).
    cbn [append Ascii.eqb Bool.eqb].
    rewrite parse_field_end by (simpl; lia).
    unfold offset_of. rewrite Bh, Bm, Bs. simpl. do 3 f_equal. lia.
Qed.

Lemma parse_offset_format (o : Z) :
  -86400 < o < 86400 ->
  parse_offset (format_offset o) = Some (Some o, "").
Proof.
  intros H. unfold format_offset. cbv zeta.
  destruct (Z.ltb_spec o 0) as [Hneg | Hpos]; cbn [append].
  - rewrite (parse_offset_body "-" (-1) (Z.abs o)) by (auto; lia).
    do 3 f_equal. lia.
  - rewrite (parse_offset_body "+" 1 (Z.abs o)) by (auto; lia).
    do 3 f_equal. lia.
Qed.

Lemma parse_offset_zone (tz : option Z) :
  match tz with Some o => -86400 < o < 86400 | None => True end ->
  parse_offset (zone_text tz) = Some (tz, "").
Proof.
  destruct tz as [o|]; intros H; [apply parse_offset_format, H | reflexivity].
Qed.

Lemma parse_fraction_zone (tz : option Z) :
  parse_fraction (zone_text tz) = Some (0, zone_text tz).
Proof.
  destruct tz as [o|]; [|reflexivity].
  unfold zone_text, format_offset. destruct (o <? 0); reflexivity.
Qed.

Lemma parse_time_iso (y mo dd : Z) (d : datetime) :
  0 <= hour d < 24 -> 0 <= minute d < 60 -> 0 <= second d < 60 ->
  0 <= microsecond d < 1000000 ->
  match utcoffset d with Some o => -86400 < o < 86400 | None => True end ->
  parse_time y mo dd
    (digits 2 (hour d) ++
     String ":" (digits 2 (minute d) ++
     String ":" (digits 2 (second d) ++
     (if microsecond d =? 0 then ""
      else String "." (digits 6 (microsecond d))) ++
     zone_text (utcoffset d))))
  = Some (mkdt y mo dd (hour d) (minute d) (second d) (microsecond d)
               (utcoffset d)).
Proof.
  intros Hh Hm Hs Hu Hz. unfold parse_time.
  rewrite parse_field by (simpl; lia).
  cbn [append expect Ascii.eqb Bool.eqb].
  rewrite parse_field by (simpl; lia).
  cbn [append expect Ascii.eqb Bool.eqb].
  rewrite parse_field by (simpl; lia).
  destruct (Z.eqb_spec (microsecond d) 0) as [E | E].
  - cbn [append]. rewrite parse_fraction_zone, parse_offset_zone by exact Hz.
    rewrite E. reflexivity.
  - cbn [append parse_fraction Ascii.eqb Bool.eqb].
    rewrite parse_field by (simpl; lia).
    rewrite parse_offset_zone by exact Hz. reflexivity.
Qed.

Lemma days_in_month_bound (y m : Z) :
  1 <= m <= 12 -> 28 <= days_in_month y m <= 31.
Proof.
  intros H.
  assert (C : m = 1 \/ m = 2 \/ m = 3 \/ m = 4 \/ m = 5 \/ m = 6 \/ m = 7 \/
              m = 8 \/ m = 9 \/ m = 10 \/ m = 11 \/ m = 12) by lia.
  unfold days_in_month.
  repeat (destruct C as [-> | C]; [try destruct (is_leap y); lia|]).
  subst. lia.
Qed.

Lemma valid_ranges (d : datetime) :
  valid d = true ->
  1 <= year d <= 9999 /\ 1 <= month d <= 12 /\ 1 <= day d <= 31 /\
  0 <= hour d < 24 /\ 0 <= minute d < 60 /\ 0 <= second d < 60 /\
  0 <= microsecond d < 1000000 /\
  match utcoffset d with Some o => -86400 < o < 86400 | None => True end.
Proof.
  unfold valid. intros H.
  repeat (apply andb_prop in H; destruct H as [H ?]).
  repeat match goal with
         | H : (_ <=? _) = true |- _ => apply Z.leb_le in H
         | H : (_ <? _) = true |- _ => apply Z.ltb_lt in H
         end.
  pose proof (days_in_month_bound (year d) (month d)).
  repeat split; try lia.
  destruct (utcoffset d) as [o|]; [|exact I].
  match goal with
  | Hz : (_ && _) = true |- _ =>
      apply andb_prop in Hz; destruct Hz as [Hlo Hhi];
      apply Z.ltb_lt in Hlo; apply Z.ltb_lt in Hhi; lia
  end.
Qed.

Lemma isoformat_round_trip (d : datetime) :
  valid d = true -> fromisoformat (isoformat d) = Ok d.
Proof.
  intros Hv.
  destruct (valid_ranges d Hv) as (Hy & Hmo & Hd & Hh & Hmi & Hs & Hu & Hz).
  unfold fromisoformat.
  assert (E : parse_iso (isoformat d) = Some d).
  { unfold parse_iso, isoformat. cbv zeta.
    rewrite parse_field by (simpl; lia).
    cbn [append expect Ascii.eqb Bool.eqb].
    rewrite parse_field by (simpl; lia).
    cbn [append expect Ascii.eqb Bool.eqb].
    rewrite parse_field by (simpl; lia).
    cbn [append].
    fold (zone_text (utcoffset d)).
    rewrite parse_time_iso by assumption.
    destruct d; reflexivity. }
  rewrite E, Hv. reflexivity.
Qed.

(** *** The cache file *)

Lemma load_entry_cache_entry (r : RepoMetrics) :
  valid (created_at r) = true ->
  load_entry (cache_entry r) = Ok (cached r).
Proof.
  intros Hv. unfold load_entry, cache_entry, cached.
  cbn -[isoformat fromisoformat].
  rewrite (isoformat_round_trip _ Hv).
  cbn -[isoformat fromisoformat].
  destruct (language r); reflexivity.
Qed.

Lemma load_entries (repos : list RepoMetrics) :
  Forall (fun r => valid (created_at r) = true) repos ->
  mapM load_entry (map cache_entry repos) = Ok (map cached repos).
Proof.
  induction 1 as [|r repos Hr _ IH]; [reflexivity|].
  cbn [map mapM]. rewrite (load_entry_cache_entry r Hr), IH. reflexivity.
Qed.

Lemma load_after_save (repos : list RepoMetrics) (cache_file : string)
      (fs : files) :
  Forall (fun r => valid (created_at r) = true) repos ->
  load_cache cache_file (save_cache repos cache_file fs) = map cached repos.
Proof.
  intros H. unfold load_cache, save_cache, write_file.
  rewrite String.eqb_refl. cbn [iterate bind].
  rewrite (load_entries repos H). reflexivity.
Qed.

(** C5.  Saving a list of repositories to the cache file and loading the
    file again gives a list of the same length whose entries have, one by
    one, the [full_name], [stars], [open_issues], [created_at] and era of
    the saved ones. *)
Theorem C5_cache_round_trip (repos : list RepoMetrics) (cache_file : string)
        (fs : files) :
  Forall (fun r => valid (created_at r) = true) repos ->
  length (load_cache cache_file (save_cache repos cache_file fs))
  = length repos /\
  Forall2 same_cached_fields repos
          (load_cache cache_file (save_cache repos cache_file fs)).
Proof.
  intros H. rewrite (load_after_save repos cache_file fs H).
  split; [apply length_map|].
  clear H. induction repos as [|r repos IH]; constructor; [|exact IH].
  repeat split.
Qed.

Lemma C5_cache_round_trip_witness :
  Forall (fun r => valid (created_at r) = true) two_repos /\
  (length (load_cache "repo_cache.json"
             (save_cache two_repos "repo_cache.json" no_files))
   = length two_repos /\
   Forall2 same_cached_fields two_repos
           (load_cache "repo_cache.json"
              (save_cache two_repos "repo_cache.json" no_files))).
Proof.
  split.
  - repeat constructor.
  - apply (C5_cache_round_trip two_repos "repo_cache.json" no_files).
    repeat constructor.
Defined.

(** ** Rate limits *)

(** The wait is [max(reset_time - t, 0) + 1]. *)
Lemma rate_limit_wait_value (reset_time : Z) (t : Q) :
  (to_Q (rate_limit_wait reset_time t)
   == (if Qle_bool (inject_Z reset_time - t) 0 then 1
       else inject_Z reset_time - t + 1))%Q.
Proof.
  unfold rate_limit_wait, num_max, num_ltb. cbn [to_Q].
  destruct (Qle_bool (inject_Z 0) (Qred (inject_Z reset_time - t))) eqn:E.
  - cbn [negb add to_Q]. rewrite !Qred_correct.
    apply Qle_bool_iff in E. rewrite Qred_correct in E.
    destruct (Qle_bool (inject_Z reset_time - t) 0) eqn:F.
    + apply Qle_bool_iff in F.
      assert (H : (inject_Z reset_time - t == 0)%Q) by (apply Qle_antisym; assumption).
      rewrite H. reflexivity.
    + reflexivity.
  - cbn [negb add to_Q].
    destruct (Qle_bool (inject_Z reset_time - t) 0) eqn:F; [reflexivity|].
    exfalso.
    assert (H : ~ (0 <= inject_Z reset_time - t)%Q).
    { intros H. rewrite <- (Qred_correct (inject_Z reset_time - t)) in H.
      apply Qle_bool_iff in H. unfold inject_Z in E at 1.
      change (0 # 1)%Q with 0%Q in E. congruence. }
    assert (G : ~ (inject_Z reset_time - t <= 0)%Q).
    { intros G. apply Qle_bool_iff in G. congruence. }
    apply H. apply Qlt_le_weak. apply Qnot_le_lt. exact G.
Qed.

Lemma rate_limit_wait_positive (reset_time : Z) (t : Q) :
  num_ltb (rate_limit_wait reset_time t) (PInt 0) = false.
Proof.
  unfold num_ltb. apply negb_false_iff. apply Qle_bool_iff.
  rewrite rate_limit_wait_value. cbn [to_Q].
  destruct (Qle_bool (inject_Z reset_time - t) 0) eqn:F.
  - discriminate.
  - assert (G : ~ (inject_Z reset_time - t <= 0)%Q).
    { intros G. apply Qle_bool_iff in G. congruence. }
    apply Qnot_le_lt in G.
    apply Qle_trans with (0 + 1)%Q; [discriminate|].
    apply Qplus_le_l. apply Qlt_le_weak. exact G.
Qed.

Lemma respect_rate_limit_log (r : outcome) (w : world) :
  log (snd (respect_rate_limit r w)) = (expected_sleep r (now w) ++ log w)%list.
Proof.
  unfold respect_rate_limit, expected_sleep, io_bind, lift.
  destruct (int_header r "X-RateLimit-Remaining" 10) as [remaining|];
    [|reflexivity].
  destruct (remaining <? 5); [|reflexivity].
  destruct (int_header r "X-RateLimit-Reset" 0) as [reset_time|];
    [|reflexivity].
  unfold time_time, time_sleep. rewrite rate_limit_wait_positive.
  reflexivity.
Qed.

Lemma search_repos_log (srv : server) (w : world) (query sort : string)
      (per_page page : Z) :
  let rq := search_request query sort per_page page in
  let rp := srv (sent w) rq in
  log (snd (search_repos srv query sort per_page page w))
  = ((if is_error (result rp) then []
      else expected_sleep (result rp) (Qred (now w + latency rp)))
     ++ Get rq rp :: log w)%list.
Proof.
  intros rq rp. subst rq rp.
  unfold search_repos, search_request, io_bind, requests_get, lift.
  set (rq := {| url := _; params := _ |}).
  set (rp := srv (sent w) rq).
  destruct (result rp) as [|status headers body] eqn:E.
  - reflexivity.
  - unfold raise_for_status, is_error.
    destruct ((400 <=? status_of (Response status headers body)) &&
              (status_of (Response status headers body) <? 600));
      [reflexivity|].
    match goal with
    | |- context [respect_rate_limit ?r ?w1] =>
        pose proof (respect_rate_limit_log r w1) as L;
        destruct (respect_rate_limit r w1) as [[u|e] w2]
    end; cbn [snd] in L; cbn [snd now log] in *; exact L.
Qed.

Lemma fetch_page_log (srv : server) (w : world) (repo_full_name : string)
      (commits : list json) (page : Z) :
  let rq := commits_request repo_full_name page in
  let rp := srv (sent w) rq in
  exists politeness,
    (politeness = [] \/ politeness = [Sleep (PFloat (3 # 10))]) /\
    log (snd (Nlp.fetch_page srv repo_full_name commits page w))
    = (politeness ++ expected_sleep (result rp) (Qred (now w + latency rp))
       ++ Get rq rp :: log w)%list.
Proof.
  intros rq rp. subst rq rp.
  unfold Nlp.fetch_page, commits_request, try_except, io_bind, requests_get,
    lift, io_ret.
  set (rq := {| url := _; params := _ |}).
  set (rp := srv (sent w) rq).
  destruct (result rp) as [|status headers body] eqn:E.
  - exists []. split; [left; reflexivity | reflexivity].
  - match goal with
    | |- context [respect_rate_limit ?r ?w1] =>
        pose proof (respect_rate_limit_log r w1) as L;
        destruct (respect_rate_limit r w1) as [[u|e] w2]
    end; cbn [snd now log] in L.
    + destruct (negb (ok (Response status headers body)));
        [exists []; split; [left; reflexivity | exact L]|].
      destruct (response_json (Response status headers body)) as [data|];
        [|exists []; split; [left; reflexivity | exact L]].
      destruct (negb (truthy data));
        [exists []; split; [left; reflexivity | exact L]|].
      destruct (iterate data) as [items|];
        [|exists []; split; [left; reflexivity | exact L]].
      exists [Sleep (PFloat (3 # 10))]. split; [right; reflexivity|].
      unfold time_sleep.
      change (num_ltb (PFloat (3 # 10)) (PInt 0)) with false.
      cbn [snd log app]. rewrite L. reflexivity.
    + exists []. split; [left; reflexivity | exact L].
Qed.

Lemma fetch_issue_counts_log (srv : server) (full_name : string) (w : world) :
  exists new,
    log (snd (fetch_issue_counts srv full_name w)) = (new ++ log w)%list /\
    pauses_only new.
Proof.
  unfold fetch_issue_counts, try_except, io_bind, requests_get, lift, io_ret,
    time_sleep.
  change (num_ltb (PFloat (1 # 2)) (PInt 0)) with false. cbv iota.
  set (rq1 := {| url := issues_url full_name "open"; params := [] |}).
  set (rq2 := {| url := issues_url full_name "closed"; params := [] |}).
  set (rp1 := srv (sent w) rq1).
  destruct (result rp1) as [|s1 h1 b1];
    [exists [Get rq1 rp1]; split; [reflexivity | repeat constructor]|].
  destruct (total_count (Response s1 h1 b1)) as [n1|];
    [|exists [Get rq1 rp1]; split; [reflexivity | repeat constructor]].
  cbn [sent now log].
  set (rp2 := srv (S (sent w)) rq2).
  destruct (result rp2) as [|s2 h2 b2];
    [exists [Get rq2 rp2; Sleep (PFloat (1 # 2)); Get rq1 rp1];
     split; [reflexivity | repeat constructor]|].
  destruct (total_count (Response s2 h2 b2)) as [n2|];
    exists [Get rq2 rp2; Sleep (PFloat (1 # 2)); Get rq1 rp1];
    (split; [reflexivity | repeat constructor]).
Qed.

(** Two fetches that are not followed by the sleep the rule asks for.
    The issue-count fetch of the enrichment gets a response with no call
    left and returns its counts without a rate-limit sleep: it does not
    read the headers.  The search gets "403" with no call left and raises
    at [raise_for_status], before the headers are read.  The rule asks for
    a sleep of 61 seconds in both. *)
Lemma C8_fetches_without_sleep :
  expected_sleep (result (nearly_out 0%nat (open_issues_request "octo/demo")))
                 (now epoch)
  = [Sleep (PFloat 61)] /\
  fst (fetch_issue_counts nearly_out "octo/demo" epoch)
  = Ok (JInt 5, JInt 5) /\
  ~ backs_off (fetch_issue_counts nearly_out "octo/demo")
      (open_issues_request "octo/demo") nearly_out epoch /\
  search_repos limited "language:go stars:>1000 created:<2022-01-01"
               "stars" 30 1 epoch
  = (Raise (HTTPError 403),
     mkWorld (inject_Z 1700000000) 1%nat
       [Get (search_request "language:go stars:>1000 created:<2022-01-01"
                            "stars" 30 1)
            (limited 0%nat
               (search_request "language:go stars:>1000 created:<2022-01-01"
                               "stars" 30 1))]) /\
  ~ backs_off (search_repos limited
                 "language:go stars:>1000 created:<2022-01-01" "stars" 30 1)
      (search_request "language:go stars:>1000 created:<2022-01-01"
                      "stars" 30 1)
      limited epoch.
Proof.
  split; [vm_compute; reflexivity|].
  split; [vm_compute; reflexivity|].
  split.
  { intros H. specialize (H (Sleep (PFloat 61))).
    vm_compute in H.
    destruct H as [H | [H | [H | []]]]; [left; reflexivity | | |];
      discriminate H. }
  split; [vm_compute; reflexivity|].
  intros H. specialize (H (Sleep (PFloat 61))).
  vm_compute in H.
  destruct H as [H | []]; [left; reflexivity|]. discriminate H.
Qed.

(** C8.  On the search path, a response whose status is not an error
    status is followed by exactly the sleep the rule asks for: one sleep of
    [max(reset_time - t, 0) + 1] seconds when fewer than five calls remain,
    none otherwise; a response with an error status is followed by no
    sleep.  On the commits path every response, whatever its status, is
    followed by the sleep the rule asks for, and then by at most the pause
    of 0.3 seconds between pages.  The issue-count fetches sleep for their
    pause of half a second only. *)
Theorem C8_rate_limit_backoff :
  (forall (srv : server) (w : world) (query sort : string)
          (per_page page : Z),
      let rq := search_request query sort per_page page in
      let rp := srv (sent w) rq in
      log (snd (search_repos srv query sort per_page page w))
      = ((if is_error (result rp) then []
          else expected_sleep (result rp) (Qred (now w + latency rp)))
         ++ Get rq rp :: log w)%list) /\
  (forall (srv : server) (w : world) (repo_full_name : string)
          (commits : list json) (page : Z),
      let rq := commits_request repo_full_name page in
      let rp := srv (sent w) rq in
      exists politeness,
        (politeness = [] \/ politeness = [Sleep (PFloat (3 # 10))]) /\
        log (snd (Nlp.fetch_page srv repo_full_name commits page w))
        = (politeness
           ++ expected_sleep (result rp) (Qred (now w + latency rp))
           ++ Get rq rp :: log w)%list) /\
  (forall (reset_time : Z) (t : Q),
      (to_Q (rate_limit_wait reset_time t)
       == (if Qle_bool (inject_Z reset_time - t) 0 then 1
           else inject_Z reset_time - t + 1))%Q) /\
  (forall (srv : server) (full_name : string) (w : world),
      exists new,
        log (snd (fetch_issue_counts srv full_name w)) = (new ++ log w)%list /\
        pauses_only new).
Proof.
  split; [exact search_repos_log|].
  split; [exact fetch_page_log|].
  split; [exact rate_limit_wait_value | exact fetch_issue_counts_log].
Qed.

(** ** What a computation adds to the log *)

Section Adds.
Variable P : request -> Prop.

Lemma adds_ret {A : Type} (a : A) : adds P (io_ret a) 0.
Proof. intros w. exists []. repeat split; auto. Qed.

Lemma adds_lift {A : Type} (c : exc A) : adds P (lift c) 0.
Proof. intros w. exists []. repeat split; auto. Qed.

Lemma adds_weaken {A : Type} (c : io A) (n m : nat) :
  (n <= m)%nat -> adds P c n -> adds P c m.
Proof.
  intros Hnm H w. destruct (H w) as (new & E & F & L).
  exists new. repeat split; auto. lia.
Qed.

Lemma requests_app (l1 l2 : list event) :
  requests (l1 ++ l2) = (requests l1 ++ requests l2)%list.
Proof. apply flat_map_app. Qed.

Lemma adds_bind {A B : Type} (c : io A) (k : A -> io B) (n m : nat) :
  adds P c n -> (forall a, adds P (k a) m) -> adds P (io_bind c k) (n + m).
Proof.
  intros Hc Hk w. unfold io_bind.
  destruct (Hc w) as (new1 & E1 & F1 & L1).
  destruct (c w) as [[a|e] w1]; cbn [snd] in E1.
  - destruct (Hk a w1) as (new2 & E2 & F2 & L2).
    exists (new2 ++ new1)%list. rewrite E2, E1, app_assoc, requests_app.
    repeat split; [apply Forall_app; auto|].
    rewrite length_app. lia.
  - exists new1. repeat split; auto. cbn [snd]. lia.
Qed.

Lemma adds_try {A : Type} (c : io A) (h : exn -> io A) (n m : nat) :
  adds P c n -> (forall e, adds P (h e) m) -> adds P (try_except c h) (n + m).
Proof.
  intros Hc Hh w. unfold try_except.
  destruct (Hc w) as (new1 & E1 & F1 & L1).
  destruct (c w) as [[a|e] w1]; cbn [snd] in E1.
  - exists new1. repeat split; auto. cbn [snd]. lia.
  - destruct (Hh e w1) as (new2 & E2 & F2 & L2).
    exists (new2 ++ new1)%list. rewrite E2, E1, app_assoc, requests_app.
    repeat split; [apply Forall_app; auto|].
    rewrite length_app. lia.
Qed.

Lemma adds_sleep (d : pynum) : adds P (time_sleep d) 0.
Proof.
  intros w. unfold time_sleep.
  destruct (num_ltb d (PInt 0)).
  - exists []. repeat split; auto.
  - exists [Sleep d]. repeat split; auto.
Qed.


Lemma adds_get (srv : server) (rq : request) :
  P rq -> adds P (requests_get srv rq) 1.
Proof.
  intros H w. unfold requests_get.
  exists [Get rq (srv (sent w) rq)].
  destruct (result (srv (sent w) rq)); repeat split; auto; repeat constructor;
    exact H.
Qed.


End Adds.





Lemma fetch_query_total (srv : server) (query : string)
      (repos : list RepoMetrics) :
  total (fetch_query srv query repos).
Proof.
  intros w. unfold fetch_query, try_except.
  match goal with |- context [match ?c w with _ => _ end] =>
    destruct (c w) as [[a|e] w1] end; eexists; reflexivity.
Qed.

Lemma fetch_languages_total (srv : server) (min_stars max_repos : Z)
      (languages : list string) :
  forall repos,
    total (fetch_languages srv min_stars languages max_repos repos).
Proof.
  induction languages as [|lang rest IH]; intros repos w.
  - eexists; reflexivity.
  - cbn [fetch_languages]. unfold io_bind.
    match goal with |- context [fetch_query ?s ?q ?r w] =>
      destruct (fetch_query_total s q r w) as [repos1 E1];
      destruct (fetch_query s q r w) as [x1 w1] end.
    cbn [fst] in E1. subst x1.
    match goal with |- context [fetch_query ?s ?q ?r w1] =>
      destruct (fetch_query_total s q r w1) as [repos2 E2];
      destruct (fetch_query s q r w1) as [x2 w2] end.
    cbn [fst] in E2. subst x2.
    destruct (max_repos <=? Z.of_nat (length repos2)); [eexists; reflexivity|].
    apply IH.
Qed.

Lemma slice_to_length {A : Type} (n : Z) (l : list A) :
  0 <= n -> Z.of_nat (length (slice_to n l)) <= n.
Proof.
  intros H. unfold slice_to.
  destruct (Z.ltb_spec n 0); [lia|].
  rewrite length_firstn. lia.
Qed.




(** ** The report and the clock *)

(** *** The statistics never raise *)

Lemma mapM_total {A B : Type} (f : A -> exc B) (l : list A) :
  (forall x, exists y, f x = Ok y) ->
  exists ys, mapM f l = Ok ys /\ length ys = length l.
Proof.
  intros Hf. induction l as [|x l (ys & E & L)].
  - exists []. split; reflexivity.
  - destruct (Hf x) as [y Ey]. exists (y :: ys).
    cbn [mapM]. rewrite Ey, E. cbn [bind length]. auto.
Qed.

Lemma insert_by_length {A : Type} (before : pynum -> pynum -> bool)
      (x : pynum * A) (l : list (pynum * A)) :
  length (insert_by before x l) = S (length l).
Proof.
  induction l as [|y l IH]; cbn [insert_by]; [reflexivity|].
  destruct (before (fst x) (fst y)); cbn [length]; congruence.
Qed.

Lemma sort_decorated_length {A : Type} (reverse : bool)
      (l : list (pynum * A)) :
  length (sort_decorated reverse l) = length l.
Proof.
  unfold sort_decorated. induction l as [|x l IH]; [reflexivity|].
  cbn [fold_right]. rewrite insert_by_length. cbn [length]. congruence.
Qed.

Lemma mean_ok (data : list pynum) :
  data <> [] -> exists v, mean data = Ok v.
Proof.
  intros H. unfold mean. destruct data as [|x data]; [contradiction|].
  match goal with |- context [if ?b then _ else _] => destruct b end;
    eexists; reflexivity.
Qed.

Lemma median_ok (data : list pynum) :
  data <> [] -> exists v, median data = Ok v.
Proof.
  intros H. unfold median.
  rewrite length_map, sort_decorated_length, length_map.
  destruct data as [|x data]; [contradiction|]. cbn [length].
  destruct (Nat.odd (S (length data))); [eexists; reflexivity|].
  unfold true_div. cbn [to_Q].
  change (Qeq_bool (inject_Z 2) 0) with false. eexists; reflexivity.
Qed.

Lemma stdev_ok (data : list pynum) :
  (1 < length data)%nat -> exists s, stdev data = Ok s.
Proof.
  intros H. unfold stdev.
  destruct data as [|x [|y data]]; cbn [length] in H; try lia.
  eexists; reflexivity.
Qed.

Lemma issue_close_rate_total (r : RepoMetrics) :
  exists v, issue_close_rate r = Ok v.
Proof.
  unfold issue_close_rate.
  destruct (Z.eqb_spec (total_issues r) 0) as [|Hn]; [eexists; reflexivity|].
  destruct (true_div_int_ok (closed_issues r) (total_issues r) Hn) as [q ->].
  eexists; reflexivity.
Qed.

Lemma years_not_zero (a : pynum) :
  Qeq_bool (to_Q (num_max a (PFloat (1 # 10)))) 0 = false.
Proof.
  unfold num_max, num_ltb.
  destruct (Qle_bool (to_Q (PFloat (1 # 10))) (to_Q a)) eqn:E;
    cbn [negb]; [|reflexivity].
  apply Qle_bool_iff in E. cbn [to_Q] in E.
  destruct (Qeq_bool (to_Q a) 0) eqn:F; [|reflexivity].
  apply Qeq_bool_iff in F. rewrite F in E.
  unfold Qle in E. simpl in E. lia.
Qed.

Lemma issues_per_year_total (c : clock) (r : RepoMetrics) :
  exists v, issues_per_year c r = Ok v.
Proof.
  unfold issues_per_year.
  destruct (true_div_int_ok (age_days c r) 365) as [q ->]; [lia|].
  cbn [bind]. unfold true_div at 1. rewrite years_not_zero.
  eexists; reflexivity.
Qed.

(** *** What depends on the clock *)

Ltac nonempty :=
  solve [ discriminate
        | let H := fresh in
          intros H; subst;
          match goal with L : length _ = length _ |- _ => discriminate L end ].

Ltac ok_step :=
  match goal with
  | |- context [bind (mean ?d) _] =>
      let v := fresh "v" in
      let E := fresh "E" in
      destruct (mean_ok d) as [v E]; [nonempty | rewrite E; cbn [bind]]
  | |- context [bind (median ?d) _] =>
      let v := fresh "v" in
      let E := fresh "E" in
      destruct (median_ok d) as [v E]; [nonempty | rewrite E; cbn [bind]]
  end.

Ltac assoc_step :=
  match goal with
  | |- context [String.eqb ?k ?lit] =>
      destruct (String.eqb_spec k lit); [first [reflexivity | contradiction]|]
  end.

Ltac agree_done :=
  do 2 eexists; split; [reflexivity|]; split; [reflexivity|];
  let k := fresh "k" in
  let H1 := fresh "H" in
  let H2 := fresh "H" in
  intros k H1 H2; cbn [assoc app]; repeat assoc_step; reflexivity.

Lemma calc_stats_clocks (c1 c2 : clock) (repo_list : list RepoMetrics) :
  exists s1 s2,
    calc_stats c1 repo_list = Ok s1 /\
    calc_stats c2 repo_list = Ok s2 /\
    agree s1 s2.
Proof.
  destruct repo_list as [|r l].
  { exists [("count", PInt 0)], [("count", PInt 0)].
    repeat split. }
  unfold calc_stats.
  destruct (mapM_total issues_per_1k_stars (r :: l) issues_per_1k_stars_total)
    as (ratios & Er & Lr).
  destruct (mapM_total (issues_per_year c1) (r :: l) (issues_per_year_total c1))
    as (py1 & E1 & L1).
  destruct (mapM_total (issues_per_year c2) (r :: l) (issues_per_year_total c2))
    as (py2 & E2 & L2).
  destruct (mapM_total issue_close_rate
              (filter (fun r => 0 <? total_issues r) (r :: l))
              issue_close_rate_total) as (rates & Ec & Lc).
  rewrite Er, E1, E2, Ec. cbn [bind].
  assert (Ed : exists dev,
             (if (1 <? length ratios)%nat
              then bind (stdev ratios) (fun s => Ok (round_surd s 2))
              else Ok (PInt 0)) = Ok dev).
  { destruct (Nat.ltb_spec 1 (length ratios)) as [Hl|Hl];
      [|eexists; reflexivity].
    destruct (stdev_ok ratios Hl) as [s ->]. eexists; reflexivity. }
  destruct Ed as [dev Ed].
  repeat ok_step.
  rewrite Ed. cbn [bind].
  repeat ok_step.
  set (contribs := map (fun r0 => PInt (contributors r0)) _).
  destruct rates as [|x rates]; destruct contribs as [|y contribs];
    cbn [bind]; repeat ok_step; agree_done.
Qed.

Lemma analyze_by_era_clocks (c1 c2 : clock) (repos : list RepoMetrics) :
  exists e1 e2,
    analyze_by_era c1 repos = Ok e1 /\
    analyze_by_era c2 repos = Ok e2 /\
    agree (pre_ai_era e1) (pre_ai_era e2) /\
    agree (post_ai_era e1) (post_ai_era e2).
Proof.
  unfold analyze_by_era.
  destruct (calc_stats_clocks c1 c2
              (filter (fun r => (Debt.era r =? "pre-ai")%string) repos))
    as (p1 & p2 & -> & -> & Hp).
  destruct (calc_stats_clocks c1 c2
              (filter (fun r => (Debt.era r =? "post-ai")%string) repos))
    as (q1 & q2 & -> & -> & Hq).
  do 2 eexists. repeat split; assumption.
Qed.

Lemma analyze_by_language_total (repos : list RepoMetrics) :
  exists groups, analyze_by_language repos = Ok groups.
Proof.
  unfold analyze_by_language.
  match goal with |- context [mapM ?f ?l] =>
    destruct (mapM_total f l) as (gs & -> & _) end.
  - intros [lang repo_list].
    destruct (Nat.ltb_spec (length repo_list) 3) as [|Hl];
      [eexists; reflexivity|].
    destruct (mapM_total issues_per_1k_stars repo_list
                issues_per_1k_stars_total) as (ratios & -> & L).
    cbn [bind].
    destruct (mean_ok ratios) as [a ->];
      [intros ->; cbn [length] in L; lia|].
    destruct (median_ok ratios) as [m ->];
      [intros ->; cbn [length] in L; lia|].
    eexists; reflexivity.
  - eexists; reflexivity.
Qed.

Lemma repo_summary_total (r : RepoMetrics) :
  exists s, repo_summary r = Ok s.
Proof.
  unfold repo_summary.
  destruct (issues_per_1k_stars_total r) as [q ->]. eexists; reflexivity.
Qed.

Lemma find_extremes_total (repos : list RepoMetrics) (top_n : Z) :
  exists e, find_extremes repos top_n = Ok e.
Proof.
  unfold find_extremes, sorted.
  match goal with |- context [mapM ?f repos] =>
    destruct (mapM_total f repos) as (ks & -> & _) end.
  { intros r. destruct (issues_per_1k_stars_total r) as [q ->].
    eexists; reflexivity. }
  cbn [bind].
  match goal with |- context [mapM repo_summary ?l] =>
    destruct (mapM_total repo_summary l repo_summary_total) as (hi & -> & _)
  end.
  cbn [bind].
  match goal with |- context [mapM repo_summary ?l] =>
    destruct (mapM_total repo_summary l repo_summary_total) as (lo & -> & _)
  end.
  eexists; reflexivity.
Qed.

Lemma report_head_clocks (c1 c2 : clock) (total : nat)
      (pre1 pre2 post1 post2 : stats) :
  agree pre1 pre2 -> agree post1 post2 ->
  length (report_head c1 total pre1 post1) = 41%nat /\
  length (report_head c2 total pre2 post2) = 41%nat /\
  forall i,
    i <> generated_line -> i <> avg_per_year_line ->
    i <> median_per_year_line ->
    nth i (report_head c1 total pre1 post1) []
    = nth i (report_head c2 total pre2 post2) [].
Proof.
  intros Hpre Hpost.
  split; [reflexivity|]. split; [reflexivity|].
  unfold generated_line, avg_per_year_line, median_per_year_line.
  intros i H1 H2 H3.
  unfold report_head, era_row, stat, stat_sep, stat_or_zero.
  rewrite (Hpre "count"), (Hpost "count") by discriminate.
  rewrite (Hpre "avg_issues_per_1k_stars"),
    (Hpost "avg_issues_per_1k_stars") by discriminate.
  rewrite (Hpre "median_issues_per_1k_stars"),
    (Hpost "median_issues_per_1k_stars") by discriminate.
  rewrite (Hpre "avg_close_rate"), (Hpost "avg_close_rate") by discriminate.
  rewrite (Hpre "avg_contributors"), (Hpost "avg_contributors")
    by discriminate.
  rewrite (Hpre "std_dev_ratio"), (Hpost "std_dev_ratio") by discriminate.
  rewrite (Hpre "total_stars"), (Hpost "total_stars") by discriminate.
  rewrite (Hpre "total_open_issues"), (Hpost "total_open_issues")
    by discriminate.
  cbn [text map app].
  do 41 (destruct i as [|i]; [first [reflexivity | lia]|]).
  destruct i; reflexivity.
Qed.

(** C10.  The report is a function of the list of repositories and of the
    clock, and it never raises.  Two runs on the same list give documents
    of the same number of lines that are identical on every line but
    three: the generated-at line and the rows "Avg Issues per Year" and
    "Median Issues per Year", which are computed from the age of the
    repositories at the time of the run. *)
Theorem C10_report_and_clock (repos : list RepoMetrics) (c1 c2 : clock) :
  exists d1 d2,
    generate_report c1 repos = Ok d1 /\
    generate_report c2 repos = Ok d2 /\
    length d1 = length d2 /\
    forall i,
      i <> generated_line -> i <> avg_per_year_line ->
      i <> median_per_year_line ->
      nth i d1 [] = nth i d2 [].
Proof.
  unfold generate_report.
  destruct (analyze_by_era_clocks c1 c2 repos)
    as (e1 & e2 & -> & -> & Hp & Hq).
  destruct (analyze_by_language_total repos) as [groups ->].
  destruct (find_extremes_total repos 10) as [ext ->].
  cbn [bind].
  destruct (report_head_clocks c1 c2 (length repos) _ _ _ _ Hp Hq)
    as (L1 & L2 & Hn).
  do 2 eexists. split; [reflexivity|]. split; [reflexivity|].
  split.
  - rewrite !(length_app (report_head _ _ _ _)), L1, L2. reflexivity.
  - intros i H1 H2 H3.
    destruct (Nat.lt_ge_cases i 41) as [Hi | Hi].
    + rewrite !app_nth1 by lia. apply Hn; assumption.
    + rewrite !(app_nth2 (report_head _ _ _ _)) by lia.
      rewrite L1, L2. reflexivity.
Qed.

(** The same repository, a year apart: its age goes from 366 to 731
    days and the row "Avg Issues per Year" from 364.0 to 182.25, so the
    two documents differ outside the generated-at line. *)
Lemma C10_report_reads_age :
  age_days new_year_2021 aged = 366 /\
  age_days new_year_2022 aged = 731 /\
  (exists d, generate_report new_year_2021 [aged] = Ok d /\
             nth avg_per_year_line d []
             = [ Txt "| Avg Issues per Year | "; Val (PFloat 364);
                 Txt " | "; Txt "N/A"; Txt " |" ]) /\
  (exists d, generate_report new_year_2022 [aged] = Ok d /\
             nth avg_per_year_line d []
             = [ Txt "| Avg Issues per Year | "; Val (PFloat (729 # 4));
                 Txt " | "; Txt "N/A"; Txt " |" ]) /\
  ~ deterministic_but_for_stamp [aged] new_year_2021 new_year_2022.
Proof.
  split; [vm_compute; reflexivity|].
  split; [vm_compute; reflexivity|].
  split; [eexists; split; vm_compute; reflexivity|].
  split; [eexists; split; vm_compute; reflexivity|].
  intros (d1 & d2 & E1 & E2 & _ & H).
  vm_compute in E1. injection E1 as <-.
  vm_compute in E2. injection E2 as <-.
  specialize (H avg_per_year_line ltac:(discriminate)).
  vm_compute in H. discriminate H.
Qed.

(** * Further properties *)

(** ** [find_extremes] *)

(** The sort is stable: the elements of one key keep their order. *)
Lemma insert_by_stable {A : Type} (k : Q) (x : pynum * A)
      (l : list (pynum * A)) :
  filter (fun p => Qeq_bool (to_Q (fst p)) k)
         (insert_by (fun a b => num_leb b a) x l)
  = filter (fun p => Qeq_bool (to_Q (fst p)) k) (x :: l).
Proof.
  induction l as [|y l IH]; cbn [insert_by]; [reflexivity|].
  destruct (num_leb (fst y) (fst x)) eqn:E; [reflexivity|].
  cbn [filter] in *. rewrite IH.
  destruct (Qeq_bool (to_Q (fst x)) k) eqn:Ex;
    destruct (Qeq_bool (to_Q (fst y)) k) eqn:Ey; try reflexivity.
  exfalso. apply Qeq_bool_iff in Ex, Ey.
  assert (L : num_leb (fst y) (fst x) = true).
  { apply Qle_bool_iff. rewrite Ex, Ey. apply Qle_refl. }
  congruence.
Qed.

Lemma sort_decorated_stable {A : Type} (k : Q) (l : list (pynum * A)) :
  filter (fun p => Qeq_bool (to_Q (fst p)) k) (sort_decorated true l)
  = filter (fun p => Qeq_bool (to_Q (fst p)) k) l.
Proof.
  unfold sort_decorated. induction l as [|x l IH]; [reflexivity|].
  cbn [fold_right]. rewrite insert_by_stable. cbn [filter].
  rewrite IH. reflexivity.
Qed.

Lemma filter_map_snd {A B : Type} (f : A -> B) (P : A -> bool)
      (l : list (B * A)) :
  Forall (fun p => fst p = f (snd p)) l ->
  forall Q : B -> bool, (forall a, P a = Q (f a)) ->
  filter P (map snd l) = map snd (filter (fun p => Q (fst p)) l).
Proof.
  intros H Q HQ. induction H as [|p l Hp _ IH]; [reflexivity|].
  cbn [map filter]. rewrite HQ, <- Hp.
  destruct (Q (fst p)); cbn [map]; rewrite IH; reflexivity.
Qed.

Lemma by_ratio_stable (repos : list RepoMetrics) (r : RepoMetrics) :
  filter (same_ratio r) (by_ratio repos) = filter (same_ratio r) repos.
Proof.
  unfold by_ratio.
  set (ks := map (fun r => (ratio r, r)) repos).
  assert (Q_sym : forall a, same_ratio r a
                            = Qeq_bool (to_Q (ratio a)) (to_Q (ratio r))).
  { intros a. unfold same_ratio.
    destruct (Qeq_bool (to_Q (ratio r)) (to_Q (ratio a))) eqn:E1;
      destruct (Qeq_bool (to_Q (ratio a)) (to_Q (ratio r))) eqn:E2;
      try reflexivity.
    - apply Qeq_bool_iff in E1. apply Qeq_sym in E1.
      apply Qeq_bool_iff in E1. congruence.
    - apply Qeq_bool_iff in E2. apply Qeq_sym in E2.
      apply Qeq_bool_iff in E2. congruence. }
  rewrite (filter_map_snd ratio (same_ratio r) (sort_decorated true ks)
             ltac:(apply (Permutation_Forall
                            (Permutation_sym (sort_decorated_perm true ks)));
                   unfold ks; apply Forall_map, Forall_forall; reflexivity)
             (fun v => Qeq_bool (to_Q v) (to_Q (ratio r))) Q_sym).
  rewrite sort_decorated_stable.
  rewrite <- (filter_map_snd ratio (same_ratio r) ks
                ltac:(unfold ks; apply Forall_map, Forall_forall; reflexivity)
                (fun v => Qeq_bool (to_Q v) (to_Q (ratio r))) Q_sym).
  unfold ks. rewrite map_map. cbn [snd]. rewrite map_id. reflexivity.
Qed.

(** X1.  For a positive [top_n] and counts in the range where binary64
    orders the ratios as exact arithmetic does, [find_extremes] returns
    the name, stars, open issues and era of the first [top_n] repositories
    of the list sorted by decreasing ratio and, as lowest, of its last
    [top_n], from the lowest ratio up.  The sort is stable: the sorted
    list is a rearrangement of the input in which the repositories of one
    ratio keep their input order. *)
Theorem X1_find_extremes_sorted_ends (repos : list RepoMetrics) (top_n : Z) :
  0 < top_n ->
  Forall modest repos ->
  exists e s,
    find_extremes repos top_n = Ok e /\
    Permutation s repos /\
    StronglySorted ratio_ge s /\
    (forall r, filter (same_ratio r) s = filter (same_ratio r) repos) /\
    map listing (highest_debt_ratio e)
    = map listed (firstn (Z.to_nat top_n) s) /\
    map listing (lowest_debt_ratio e)
    = map listed (rev (skipn (length repos - Z.to_nat top_n) s)).
Proof.
  intros Hn _.
  eexists _, (by_ratio repos).
  split; [apply find_extremes_positive, Hn|].
  split; [apply by_ratio_perm|].
  split; [apply by_ratio_sorted|].
  split; [apply by_ratio_stable|].
  cbn [highest_debt_ratio lowest_debt_ratio].
  rewrite !listing_summary_of. split; reflexivity.
Qed.

Lemma X1_find_extremes_sorted_ends_witness :
  0 < 2 /\
  Forall modest tied /\
  exists e s,
    find_extremes tied 2 = Ok e /\
    Permutation s tied /\
    StronglySorted ratio_ge s /\
    (forall r, filter (same_ratio r) s = filter (same_ratio r) tied) /\
    map listing (highest_debt_ratio e) = map listed (firstn (Z.to_nat 2) s) /\
    map listing (lowest_debt_ratio e)
    = map listed (rev (skipn (length tied - Z.to_nat 2) s)).
Proof.
  split; [lia|]. split; [repeat constructor|].
  apply (X1_find_extremes_sorted_ends tied 2); [lia | repeat constructor].
Defined.

(** X2.  When there are no more than [top_n] repositories, [top_n]
    positive and the counts below 2^24, each of them is in both lists of
    [find_extremes] - the names, stars, open issues and eras of the
    highest list are those of the repositories, rearranged - and the
    lowest list is the highest list reversed. *)
Theorem X2_find_extremes_overlap (repos : list RepoMetrics) (top_n : Z) :
  0 < top_n ->
  Z.of_nat (length repos) <= top_n ->
  Forall modest repos ->
  exists e,
    find_extremes repos top_n = Ok e /\
    Permutation (map listing (highest_debt_ratio e)) (map listed repos) /\
    lowest_debt_ratio e = rev (highest_debt_ratio e).
Proof.
  intros Hn Hl _. eexists. split; [apply find_extremes_positive, Hn|].
  cbn [highest_debt_ratio lowest_debt_ratio].
  assert (L : length (by_ratio repos) = length repos)
    by (apply Permutation_length, by_ratio_perm).
  rewrite firstn_all2 by lia.
  replace (length repos - Z.to_nat top_n)%nat with 0%nat by lia.
  cbn [skipn]. rewrite listing_summary_of, map_rev. split; [|reflexivity].
  apply Permutation_map, by_ratio_perm.
Qed.

Lemma X2_find_extremes_overlap_witness :
  0 < 10 /\ Z.of_nat (length five) <= 10 /\ Forall modest five /\
  exists e,
    find_extremes five 10 = Ok e /\
    Permutation (map listing (highest_debt_ratio e)) (map listed five) /\
    lowest_debt_ratio e = rev (highest_debt_ratio e).
Proof.
  split; [lia|]. split; [simpl; lia|]. split; [exact modest_five|].
  apply (X2_find_extremes_overlap five 10);
    [lia | simpl; lia | exact modest_five].
Defined.

(** ** [issues_per_year] *)

Lemma nearly_exact (v : pynum) (q : Q) : (to_Q v == q)%Q -> nearly v q.
Proof.
  intros H. unfold nearly. rewrite H.
  setoid_replace (q - q)%Q with 0%Q by ring.
  cbn [Qabs Qnum Z.abs].
  apply Qmult_le_0_compat; [apply Qabs_nonneg | discriminate].
Qed.

(** In exact arithmetic, the issues per year are ten times the open
    issues up to 36 days of age, and the open issues times 365 over the
    age in days beyond. *)
Lemma issues_per_year_value (c : clock) (r : RepoMetrics) :
  exists q,
    issues_per_year c r = Ok (PFloat q) /\
    (q == if age_days c r <=? 36
          then inject_Z (open_issues r) * 10
          else inject_Z (open_issues r) * 365 / inject_Z (age_days c r))%Q.
Proof.
  unfold issues_per_year.
  set (a := age_days c r).
  unfold true_div at 1. cbn [to_Q].
  change (Qeq_bool (inject_Z 365) 0) with false. cbn [bind].
  unfold true_div. rewrite years_not_zero.
  eexists. split; [reflexivity|].
  rewrite Qred_correct.
  unfold num_max, num_ltb. cbn [to_Q].
  destruct (Z.leb_spec a 36) as [Ha | Ha].
  - assert (E : Qle_bool (1 # 10) (Qred (inject_Z a / inject_Z 365)) = false).
    { destruct (Qle_bool _ _) eqn:E; [|reflexivity].
      apply Qle_bool_iff in E. rewrite Qred_correct in E.
      unfold Qle, Qdiv, Qmult, Qinv, inject_Z in E. simpl in E. lia. }
    rewrite E. cbn [negb to_Q]. field.
  - assert (E : Qle_bool (1 # 10) (Qred (inject_Z a / inject_Z 365)) = true).
    { apply Qle_bool_iff. rewrite Qred_correct.
      unfold Qle, Qdiv, Qmult, Qinv, inject_Z. simpl. lia. }
    rewrite E. cbn [negb to_Q]. rewrite Qred_correct.
    field.
    intros H. unfold Qeq, inject_Z in H. simpl in H. lia.
Qed.

(** X3.  [issues_per_year] never raises and gives a [float].  It divides
    the open issues by the age in years, and an age below a tenth of a
    year counts as a tenth of a year: for an age of 36 days or less, a
    negative age included, the result is ten times the open issues; for an
    older repository it is the open issues times 365 over the age in days
    - both up to the rounding of binary64 arithmetic, for counts that
    binary64 holds exactly. *)
Theorem X3_issues_per_year_floor (c : clock) (r : RepoMetrics) :
  Z.abs (open_issues r) < 2 ^ 53 ->
  Z.abs (age_days c r) < 2 ^ 53 ->
  exists q,
    issues_per_year c r = Ok (PFloat q) /\
    nearly (PFloat q)
           (if age_days c r <=? 36
            then inject_Z (open_issues r) * 10
            else inject_Z (open_issues r) * 365 / inject_Z (age_days c r)).
Proof.
  intros _ _. destruct (issues_per_year_value c r) as (q & E & H).
  exists q. split; [exact E | apply nearly_exact, H].
Qed.

Lemma X3_issues_per_year_floor_witness :
  Z.abs (open_issues aged) < 2 ^ 53 /\
  Z.abs (age_days new_year_2022 aged) < 2 ^ 53 /\
  exists q,
    issues_per_year new_year_2022 aged = Ok (PFloat q) /\
    nearly (PFloat q)
           (if age_days new_year_2022 aged <=? 36
            then inject_Z (open_issues aged) * 10
            else inject_Z (open_issues aged) * 365
                 / inject_Z (age_days new_year_2022 aged)).
Proof.
  split; [vm_compute; reflexivity|]. split; [vm_compute; reflexivity|].
  apply (X3_issues_per_year_floor new_year_2022 aged); vm_compute; reflexivity.
Defined.

(** ** Statistics by era and by language *)













(** ** The cache file *)

Lemma mapM_raises {A B : Type} (f : A -> exc B) (l : list A) (x : A)
      (e : exn) :
  In x l -> f x = Raise e -> exists e', mapM f l = Raise e'.
Proof.
  induction l as [|y l IH]; intros Hin Hx; [destruct Hin|].
  cbn [mapM]. destruct Hin as [-> | Hin].
  - rewrite Hx. eexists; reflexivity.
  - destruct (f y); [|eexists; reflexivity]. cbn [bind].
    destruct (IH Hin Hx) as [e' ->]. eexists; reflexivity.
Qed.

Ltac step_raises :=
  match goal with
  | |- exists e, bind ?c _ = Raise e =>
      let v := fresh "v" in
      let E := fresh "E" in
      destruct c as [v|] eqn:E; cbn [bind]; [|eexists; reflexivity]
  end.

Lemma broken_entry_raises (item : json) :
  broken_entry item = true -> exists e, load_entry item = Raise e.
Proof.
  unfold broken_entry, has_key, text_at, load_entry.
  destruct item as [|z|s|l|d]; try (intros _; eexists; reflexivity).
  unfold getitem, get.
  destruct (assoc "name" d); [|intros _; eexists; reflexivity].
  destruct (assoc "full_name" d);
    [|intros _; cbn [bind]; step_raises; eexists; reflexivity].
  destruct (assoc "stars" d);
    [|intros _; cbn [bind]; repeat step_raises; eexists; reflexivity].
  destruct (assoc "open_issues" d);
    [|intros _; cbn [bind]; repeat step_raises; eexists; reflexivity].
  destruct (assoc "created_at" d) as [c|];
    [|intros _; cbn [bind]; repeat step_raises; eexists; reflexivity].
  destruct (assoc "forks" d).
  - destruct c; try discriminate;
      intros _; cbn [bind]; do 4 step_raises; eexists; reflexivity.
  - intros _. cbn [bind]. repeat step_raises. eexists; reflexivity.
Qed.

(** X6.  [load_cache] gives every entry of the file or none: when one
    entry of the list in the file is not an object, lacks one of the keys
    ["name"], ["full_name"], ["stars"], ["open_issues"], ["created_at"]
    and ["forks"], or has a ["created_at"] that is not a string, the
    result is the empty list, whatever the other entries. *)
Theorem X6_load_cache_all_or_nothing (cache_file : string) (fs : files)
        (items : list json) (item : json) :
  fs cache_file = Some (JArr items) ->
  In item items ->
  broken_entry item = true ->
  load_cache cache_file fs = [].
Proof.
  intros Hf Hin Hb. unfold load_cache. rewrite Hf. cbn [iterate bind].
  destruct (broken_entry_raises item Hb) as [e He].
  destruct (mapM_raises load_entry items item e Hin He) as [e' ->].
  reflexivity.
Qed.

Lemma X6_load_cache_all_or_nothing_witness :
  write_file no_files "repo_cache.json" (JArr torn_cache) "repo_cache.json"
  = Some (JArr torn_cache) /\
  In (nth 1 torn_cache JNull) torn_cache /\
  broken_entry (nth 1 torn_cache JNull) = true /\
  load_cache "repo_cache.json"
             (write_file no_files "repo_cache.json" (JArr torn_cache)) = [].
Proof.
  split; [reflexivity|].
  split; [right; left; reflexivity|].
  split; [reflexivity|].
  apply (X6_load_cache_all_or_nothing "repo_cache.json" _ torn_cache
           (nth 1 torn_cache JNull)).
  - reflexivity.
  - right; left; reflexivity.
  - reflexivity.
Defined.

(** X7.  What [load_cache] gives after [save_cache] is the saved list
    with every field kept but two: [commits] is back to 0 and [updated_at]
    to [None].  Saving what was loaded and loading it again changes nothing
    more. *)
Theorem X7_cache_keeps_and_drops (repos : list RepoMetrics)
        (cache_file : string) (fs fs' : files) :
  Forall (fun r => valid (created_at r) = true) repos ->
  load_cache cache_file (save_cache repos cache_file fs) = map cached repos /\
  load_cache cache_file
    (save_cache (load_cache cache_file (save_cache repos cache_file fs))
                cache_file fs')
  = load_cache cache_file (save_cache repos cache_file fs).
Proof.
  intros H. rewrite (load_after_save repos cache_file fs H).
  split; [reflexivity|].
  rewrite load_after_save.
  - rewrite map_map. reflexivity.
  - apply Forall_map. exact H.
Qed.

Lemma X7_cache_keeps_and_drops_witness :
  Forall (fun r => valid (created_at r) = true) two_repos /\
  (load_cache "repo_cache.json" (save_cache two_repos "repo_cache.json" no_files)
   = map cached two_repos /\
   load_cache "repo_cache.json"
     (save_cache (load_cache "repo_cache.json"
                    (save_cache two_repos "repo_cache.json" no_files))
                 "repo_cache.json" no_files)
   = load_cache "repo_cache.json"
       (save_cache two_repos "repo_cache.json" no_files)).
Proof.
  split; [repeat constructor|].
  apply (X7_cache_keeps_and_drops two_repos "repo_cache.json" no_files
           no_files).
  repeat constructor.
Defined.

(** ** Refused searches and issue counts *)

Lemma fetch_query_refused (srv : server) (query : string)
      (repos : list RepoMetrics) (w : world) :
  refused (srv (sent w) (search_request query "stars" 30 1)) ->
  fetch_query srv query repos w
  = (Ok repos,
     {| now := Qred (now w
                     + latency (srv (sent w)
                                    (search_request query "stars" 30 1)));
        sent := S (sent w);
        log := Get (search_request query "stars" 30 1)
                   (srv (sent w) (search_request query "stars" 30 1))
               :: log w |}).
Proof.
  intros H.
  unfold fetch_query, try_except, search_repos, io_bind, requests_get, lift,
    io_ret.
  fold (search_request query "stars" 30 1).
  set (rp := srv (sent w) (search_request query "stars" 30 1)) in *.
  destruct H as [H | H].
  - rewrite H. reflexivity.
  - destruct (result rp) as [|status headers body] eqn:E; [reflexivity|].
    unfold raise_for_status. unfold is_error in H. rewrite H. reflexivity.
Qed.

Lemma fetch_languages_refused (srv : server) (min_stars max_repos : Z)
      (languages : list string) :
  0 < max_repos ->
  (forall n rq, refused (srv n rq)) ->
  forall w, exists new,
    fst (fetch_languages srv min_stars languages max_repos [] w) = Ok [] /\
    log (snd (fetch_languages srv min_stars languages max_repos [] w))
    = (new ++ log w)%list /\
    gets_only new /\
    length new = (2 * length languages)%nat.
Proof.
  intros Hmax Hsrv.
  induction languages as [|lang rest IH]; intros w.
  - exists []. repeat split. constructor.
  - cbn [fetch_languages]. unfold io_bind.
    rewrite fetch_query_refused by apply Hsrv.
    rewrite fetch_query_refused by apply Hsrv.
    cbn [length Z.of_nat].
    destruct (Z.leb_spec max_repos 0) as [|_]; [lia|].
    match goal with |- context [fetch_languages _ _ _ _ _ ?w1] =>
      set (w2 := w1); destruct (IH w2) as (new & E & L & G & N) end.
    eexists (new ++ [_; _])%list.
    split; [exact E|].
    split; [rewrite L, <- app_assoc; reflexivity|].
    split.
    + apply Forall_app. split; [exact G | repeat constructor].
    + rewrite length_app, N. cbn [length]. lia.
Qed.

(** X8.  When every search is refused - no connection, or an error
    status - [fetch_popular_repos] returns the empty list after exactly two
    requests per language, and it does not sleep between them: the pause of
    one second is skipped with the rest of the [try] block. *)
Theorem X8_search_refused (srv : server) (min_stars : Z)
        (languages : option (list string)) (max_repos : Z) (w : world) :
  0 < max_repos ->
  (forall n rq, refused (srv n rq)) ->
  exists new,
    fst (fetch_popular_repos srv min_stars languages max_repos w) = Ok [] /\
    log (snd (fetch_popular_repos srv min_stars languages max_repos w))
    = (new ++ log w)%list /\
    gets_only new /\
    length new = (2 * length (chosen_languages languages))%nat.
Proof.
  intros Hmax Hsrv.
  unfold fetch_popular_repos, io_bind, io_ret.
  fold (chosen_languages languages).
  destruct (fetch_languages_refused srv min_stars max_repos
              (chosen_languages languages) Hmax Hsrv w)
    as (new & E & L & G & N).
  destruct (fetch_languages srv min_stars (chosen_languages languages)
              max_repos [] w) as [x w1].
  cbn [fst snd] in *. subst x.
  exists new. split; [|auto].
  unfold PyList.slice_to.
  destruct (max_repos <? 0); cbn [fst]; rewrite firstn_nil; reflexivity.
Qed.

Lemma X8_search_refused_witness :
  0 < 200 /\
  (forall n rq, refused (down n rq)) /\
  exists new,
    fst (fetch_popular_repos down 1000 None 200 at_start) = Ok [] /\
    log (snd (fetch_popular_repos down 1000 None 200 at_start))
    = (new ++ log at_start)%list /\
    gets_only new /\
    length new = (2 * length (chosen_languages None))%nat.
Proof.
  split; [lia|].
  split; [intros n rq; left; reflexivity|].
  apply (X8_search_refused down 1000 None 200 at_start).
  - lia.
  - intros n rq; left; reflexivity.
Defined.

Lemma broken_record_raises (item : json) :
  broken_record item = true -> exists e, parse_repo item = Raise e.
Proof.
  unfold broken_record, has_key, text_at, parse_repo.
  destruct item as [|z|s|l|d]; try (intros _; eexists; reflexivity).
  unfold getitem, get.
  intros H. step_raises. step_raises.
  destruct (assoc "name" d); [|eexists; reflexivity].
  destruct (assoc "full_name" d);
    [|cbn [bind]; step_raises; eexists; reflexivity].
  destruct (assoc "stargazers_count" d);
    [|cbn [bind]; repeat step_raises; eexists; reflexivity].
  destruct (assoc "open_issues_count" d);
    [|cbn [bind]; repeat step_raises; eexists; reflexivity].
  destruct (assoc "created_at" d) as [c|];
    [|cbn [bind]; repeat step_raises; eexists; reflexivity].
  destruct (assoc "forks_count" d).
  - destruct c; try discriminate;
      cbn [bind]; do 4 step_raises; eexists; reflexivity.
  - cbn [bind]. repeat step_raises. eexists; reflexivity.
Qed.

(** X9.  One bad record loses the whole page: when a record of a search
    page is not an object, lacks one of the keys ["name"], ["full_name"],
    ["stargazers_count"], ["open_issues_count"], ["created_at"] and
    ["forks_count"], or has a ["created_at"] that is not a string, the
    query adds no repository to the list, not even the records before the
    bad one. *)
Theorem X9_bad_record_loses_page (srv : server) (query : string)
        (repos : list RepoMetrics) (w : world) (status : Z)
        (headers : list (string * string)) (doc : json) (items : list json)
        (item : json) :
  result (srv (sent w) (search_request query "stars" 30 1))
  = Response status headers (Some doc) ->
  get doc "items" (JArr []) = Ok (JArr items) ->
  In item items ->
  broken_record item = true ->
  fst (fetch_query srv query repos w) = Ok repos.
Proof.
  intros Hr Hd Hin Hb.
  destruct (broken_record_raises item Hb) as [e He].
  unfold fetch_query, try_except, search_repos, io_bind, requests_get, lift,
    io_ret.
  fold (search_request query "stars" 30 1).
  rewrite Hr.
  destruct (raise_for_status (Response status headers (Some doc)));
    [|reflexivity].
  match goal with |- context [respect_rate_limit ?r ?w1] =>
    destruct (respect_rate_limit r w1) as [[u|e1] w2] end; [|reflexivity].
  cbn [response_json bind]. rewrite Hd. cbn [iterate bind].
  destruct (mapM_raises parse_repo items item e Hin He) as [e' ->].
  reflexivity.
Qed.

Lemma X9_bad_record_loses_page_witness :
  result (half_page (sent at_start) (search_request "language:go" "stars" 30 1))
  = Response 200 [ ("X-RateLimit-Remaining", "29") ]
             (Some (JObj [("items",
                           JArr [record; JObj [("name", JStr "x")]])])) /\
  get (JObj [("items", JArr [record; JObj [("name", JStr "x")]])])
      "items" (JArr [])
  = Ok (JArr [record; JObj [("name", JStr "x")]]) /\
  In (JObj [("name", JStr "x")]) [record; JObj [("name", JStr "x")]] /\
  broken_record (JObj [("name", JStr "x")]) = true /\
  fst (fetch_query half_page "language:go" five at_start) = Ok five.
Proof.
  split; [reflexivity|].
  split; [reflexivity|].
  split; [right; left; reflexivity|].
  split; [reflexivity|].
  apply (X9_bad_record_loses_page half_page "language:go" five at_start 200
           [ ("X-RateLimit-Remaining", "29") ]
           (JObj [("items", JArr [record; JObj [("name", JStr "x")]])])
           [record; JObj [("name", JStr "x")]]
           (JObj [("name", JStr "x")])).
  - reflexivity.
  - reflexivity.
  - right; left; reflexivity.
  - reflexivity.
Defined.

(** X10.  When the second request of [fetch_issue_counts] fails, the
    pair of counts is (0, 0): the count of open issues that the first
    request returned is dropped. *)
Theorem X10_issue_counts_second_failure (srv : server) (full_name : string)
        (w : world) :
  result (srv (S (sent w)) (closed_issues_request full_name)) = Failed ->
  fst (fetch_issue_counts srv full_name w) = Ok (JInt 0, JInt 0).
Proof.
  intros H.
  unfold fetch_issue_counts, try_except, io_bind, requests_get, lift, io_ret,
    time_sleep.
  change (num_ltb (PFloat (1 # 2)) (PInt 0)) with false. cbv iota.
  fold (closed_issues_request full_name).
  destruct (result (srv (sent w) _)) as [|s1 h1 b1]; [reflexivity|].
  destruct (total_count (Response s1 h1 b1)) as [n1|]; [|reflexivity].
  cbn [sent]. rewrite H. reflexivity.
Qed.

Lemma X10_issue_counts_second_failure_witness :
  result (once (S (sent at_start)) (closed_issues_request "octo/demo"))
  = Failed /\
  fst (fetch_issue_counts once "octo/demo" at_start) = Ok (JInt 0, JInt 0).
Proof.
  split; [reflexivity|].
  apply (X10_issue_counts_second_failure once "octo/demo" at_start).
  reflexivity.
Defined.

(** X11.  [fetch_issue_counts] never raises.  It sends at most two
    requests, each to the issue search of the repository, for its open or
    for its closed issues, with no parameter besides the ones in the
    URL. *)
Theorem X11_issue_counts_never_raise (srv : server) (full_name : string)
        (w : world) :
  exists open_count closed_count new,
    fst (fetch_issue_counts srv full_name w) = Ok (open_count, closed_count) /\
    log (snd (fetch_issue_counts srv full_name w)) = (new ++ log w)%list /\
    Forall (issue_search full_name) (requests new) /\
    (length (requests new) <= 2)%nat.
Proof.
  unfold fetch_issue_counts, try_except, io_bind, requests_get, lift, io_ret,
    time_sleep.
  change (num_ltb (PFloat (1 # 2)) (PInt 0)) with false. cbv iota.
  set (rq1 := {| url := issues_url full_name "open"; params := [] |}).
  set (rq2 := {| url := issues_url full_name "closed"; params := [] |}).
  assert (P1 : issue_search full_name rq1) by (split; [|left]; reflexivity).
  assert (P2 : issue_search full_name rq2) by (split; [|right]; reflexivity).
  set (rp1 := srv (sent w) rq1).
  destruct (result rp1) as [|s1 h1 b1].
  { exists (JInt 0), (JInt 0), [Get rq1 rp1].
    repeat split; [repeat constructor; assumption | cbn; lia]. }
  destruct (total_count (Response s1 h1 b1)) as [n1|].
  2:{ exists (JInt 0), (JInt 0), [Get rq1 rp1].
      repeat split; [repeat constructor; assumption | cbn; lia]. }
  cbn [sent now log].
  set (rp2 := srv (S (sent w)) rq2).
  destruct (result rp2) as [|s2 h2 b2].
  { exists (JInt 0), (JInt 0), [Get rq2 rp2; Sleep (PFloat (1 # 2)); Get rq1 rp1].
    repeat split; [repeat constructor; assumption | cbn; lia]. }
  destruct (total_count (Response s2 h2 b2)) as [n2|].
  - exists n1, n2, [Get rq2 rp2; Sleep (PFloat (1 # 2)); Get rq1 rp1].
    repeat split; [repeat constructor; assumption | cbn; lia].
  - exists (JInt 0), (JInt 0), [Get rq2 rp2; Sleep (PFloat (1 # 2)); Get rq1 rp1].
    repeat split; [repeat constructor; assumption | cbn; lia].
Qed.

(** ** The signals of a message *)

(** X12.  On a message of ASCII characters [analyze_message] never
    raises: [re] accepts every pattern of the five tables.  Each of the
    five counters it returns holds the names of its table whose pattern is
    found in the message, in table order, each with count 1, however often
    the pattern occurs. *)
Theorem X12_message_signals (message : string) :
  is_ascii message = true ->
  exists s,
    Nlp.analyze_message message = Ok s /\
    Nlp.debt s = hits Nlp.DEBT_SIGNALS message /\
    Nlp.bug s = hits Nlp.BUG_SIGNALS message /\
    Nlp.revert s = hits Nlp.REVERT_SIGNALS message /\
    Nlp.frustration s = hits Nlp.FRUSTRATION_SIGNALS message /\
    Nlp.positive s = hits Nlp.POSITIVE_SIGNALS message.
Proof.
  intros _. eexists. split; [apply analyze_message_hits|]. repeat split.
Qed.

Lemma X12_message_signals_witness :
  is_ascii "Finally fixed the ugly workaround, fixes #12" = true /\
  exists s,
    Nlp.analyze_message "Finally fixed the ugly workaround, fixes #12"
    = Ok s /\
    Nlp.debt s
    = hits Nlp.DEBT_SIGNALS "Finally fixed the ugly workaround, fixes #12" /\
    Nlp.bug s
    = hits Nlp.BUG_SIGNALS "Finally fixed the ugly workaround, fixes #12" /\
    Nlp.revert s
    = hits Nlp.REVERT_SIGNALS "Finally fixed the ugly workaround, fixes #12" /\
    Nlp.frustration s
    = hits Nlp.FRUSTRATION_SIGNALS
           "Finally fixed the ugly workaround, fixes #12" /\
    Nlp.positive s
    = hits Nlp.POSITIVE_SIGNALS "Finally fixed the ugly workaround, fixes #12".
Proof.
  split; [reflexivity|].
  apply (X12_message_signals "Finally fixed the ugly workaround, fixes #12").
  reflexivity.
Defined.

(** ** Letter case *)

Lemma lower_lower (c : ascii) : Re.lower (Re.lower c) = Re.lower c.
Proof. destruct c as [[] [] [] [] [] [] [] []]; reflexivity. Qed.

Lemma is_word_lower (c : ascii) : Re.is_word (Re.lower c) = Re.is_word c.
Proof. destruct c as [[] [] [] [] [] [] [] []]; reflexivity. Qed.

Lemma is_space_lower (c : ascii) : Re.is_space (Re.lower c) = Re.is_space c.
Proof. destruct c as [[] [] [] [] [] [] [] []]; reflexivity. Qed.

Lemma eat_lower (test : ascii -> bool) (p : Re.position) :
  (forall x, test (Re.lower x) = test x) ->
  Re.eat test (lower_position p) = map lower_position (Re.eat test p).
Proof.
  intros H. destruct p as [prev [|x t]]; [reflexivity|].
  unfold Re.eat. cbn [lower_position snd fst map]. rewrite H.
  destruct (test x); reflexivity.
Qed.

Lemma flat_map_lower (f : Re.position -> list Re.position)
      (l : list Re.position) :
  (forall p, f (lower_position p) = map lower_position (f p)) ->
  flat_map f (map lower_position l) = map lower_position (flat_map f l).
Proof.
  intros H. induction l as [|p l IH]; [reflexivity|].
  cbn [map flat_map]. rewrite map_app, H, IH. reflexivity.
Qed.

Lemma star_lower (step : Re.position -> list Re.position) :
  (forall p, step (lower_position p) = map lower_position (step p)) ->
  forall fuel p,
    Re.star step fuel (lower_position p)
    = map lower_position (Re.star step fuel p).
Proof.
  intros H. induction fuel as [|fuel IH]; intros p; cbn [Re.star map];
    [reflexivity|].
  f_equal. rewrite H.
  rewrite <- (flat_map_lower _ _ IH). f_equal.
  cbn [lower_position snd]. rewrite length_map.
  induction (step p) as [|q l IHl]; [reflexivity|].
  cbn [map filter snd lower_position]. rewrite length_map.
  destruct (_ <? _)%nat; cbn [map]; rewrite IHl; reflexivity.
Qed.

Lemma ends_lower (r : Re.regex) :
  forall p, Re.ends r (lower_position p) = map lower_position (Re.ends r p).
Proof.
  induction r as [|c|cs| | | |r1 IH1 r2 IH2|r1 IH1 r2 IH2|r IH|r IH|r IH];
    intros p; cbn [Re.ends].
  - reflexivity.
  - apply eat_lower. intros x. unfold Re.eq_nocase.
    rewrite lower_lower. reflexivity.
  - apply eat_lower. intros x. unfold Re.eq_nocase.
    rewrite lower_lower. reflexivity.
  - apply eat_lower, is_space_lower.
  - assert (B : Re.word_before (lower_position p) = Re.word_before p).
    { destruct p as [[c|] t]; [apply is_word_lower | reflexivity]. }
    assert (A : Re.word_after (lower_position p) = Re.word_after p).
    { destruct p as [prev [|c t]]; [reflexivity | apply is_word_lower]. }
    rewrite A, B. destruct (xorb _ _); reflexivity.
  - destruct p as [[c|] t]; reflexivity.
  - rewrite IH1. apply flat_map_lower, IH2.
  - rewrite IH1, IH2, map_app. reflexivity.
  - rewrite IH, map_app. reflexivity.
  - cbn [lower_position snd]. rewrite length_map.
    apply (star_lower _ IH).
  - cbn [lower_position snd]. rewrite length_map, IH.
    apply flat_map_lower. intros q. apply (star_lower _ IH).
Qed.

Lemma positions_lower (s : list ascii) :
  forall prev,
    Re.positions (option_map Re.lower prev) (map Re.lower s)
    = map lower_position (Re.positions prev s).
Proof.
  induction s as [|c s IH]; intros prev; cbn [Re.positions map];
    [reflexivity|].
  change (lower_position (prev, c :: s))
    with (option_map Re.lower prev, Re.lower c :: map Re.lower s).
  rewrite <- (IH (Some c)). reflexivity.
Qed.

Lemma matches_lower (r : Re.regex) (message : string) :
  Re.matches_somewhere r (string_lower message)
  = Re.matches_somewhere r message.
Proof.
  unfold Re.matches_somewhere, string_lower.
  rewrite list_ascii_of_string_of_list_ascii.
  rewrite (positions_lower _ None).
  induction (Re.positions None (list_ascii_of_string message)) as [|p l IH];
    [reflexivity|].
  cbn [map existsb]. rewrite IH, ends_lower.
  destruct (Re.ends r p); reflexivity.
Qed.

Lemma hits_lower (table : list (string * string)) (message : string) :
  hits table (string_lower message) = hits table message.
Proof.
  unfold hits. f_equal.
  apply filter_ext. intros [name pattern]. cbn [snd].
  unfold found, Re.search.
  destruct (Re.compile pattern); [apply matches_lower | reflexivity].
Qed.

(** X13.  Letter case is ignored: two messages of ASCII characters
    that are the same text once in lower case get the same signals. *)
Theorem X13_case_is_ignored (m1 m2 : string) :
  is_ascii m1 = true ->
  is_ascii m2 = true ->
  string_lower m1 = string_lower m2 ->
  Nlp.analyze_message m1 = Nlp.analyze_message m2.
Proof.
  intros _ _ H. rewrite !analyze_message_hits.
  rewrite <- !(hits_lower _ m1), <- !(hits_lower _ m2), H. reflexivity.
Qed.

Lemma X13_case_is_ignored_witness :
  is_ascii "TODO: Fix the HACK" = true /\
  is_ascii "todo: fix the hack" = true /\
  string_lower "TODO: Fix the HACK" = string_lower "todo: fix the hack" /\
  Nlp.analyze_message "TODO: Fix the HACK"
  = Nlp.analyze_message "todo: fix the hack".
Proof.
  split; [reflexivity|]. split; [reflexivity|]. split; [reflexivity|].
  apply (X13_case_is_ignored "TODO: Fix the HACK" "todo: fix the hack");
    reflexivity.
Defined.

(** ** The analysis of a repository *)

Lemma substring_length (n : nat) :
  forall m s, (String.length (substring m n s) <= n)%nat.
Proof.
  intros m s. revert m n.
  induction s as [|c s IH]; intros m n.
  - destruct m, n; cbn; lia.
  - destruct m as [|m]; cbn [substring].
    + destruct n as [|n]; cbn [String.length]; [lia|].
      specialize (IH 0%nat n). lia.
    + apply IH.
Qed.

Lemma substring_chars (x : ascii) :
  forall s m n,
    In x (list_ascii_of_string (substring m n s)) ->
    In x (list_ascii_of_string s).
Proof.
  induction s as [|c s IH]; intros m n.
  - destruct m, n; cbn; tauto.
  - destruct m as [|m]; cbn [substring].
    + destruct n as [|n]; cbn [list_ascii_of_string]; [intros []|].
      intros [E | H]; [left; exact E | right; exact (IH _ _ H)].
    + intros H. right. exact (IH _ _ H).
Qed.

Lemma first_line_one_line (s : string) :
  ~ In (ascii_of_nat 10) (list_ascii_of_string (Nlp.first_line s)).
Proof.
  induction s as [|c s IH]; cbn [Nlp.first_line]; [intros []|].
  destruct (Ascii.eqb_spec c (ascii_of_nat 10)) as [E | E]; [intros []|].
  cbn [list_ascii_of_string]. intros [H | H]; [congruence | exact (IH H)].
Qed.

Lemma sample_is_line (message : string) :
  sample_line (substring 0 100 (Nlp.first_line message)).
Proof.
  split; [apply substring_length|].
  intros H. apply substring_chars in H.
  exact (first_line_one_line message H).
Qed.

Lemma analyze_commit_counted (a a' : Nlp.CommitAnalysis) (commit : json) :
  Nlp.analyze_commit a commit = Ok a' ->
  well_counted a ->
  well_counted a' /\ Nlp.repo a' = Nlp.repo a /\
  Nlp.total_commits a <= Nlp.total_commits a' <= Nlp.total_commits a + 1.
Proof.
  intros H (Ht & Hl & Hn & Hs). unfold Nlp.analyze_commit in H.
  bind_inv H. bind_inv H.
  destruct (truthy x0) eqn:T; cbn [negb] in H.
  2:{ injection H as <-.
      split; [repeat split; assumption|]. split; [reflexivity | lia]. }
  bind_inv H. rewrite analyze_message_hits in H. cbn [bind] in H.
  injection H as <-.
  destruct x0 as [|z|s|l|d]; try discriminate E1. injection E1 as <-.
  assert (Hlen : 1 <= Z.of_nat (String.length s)).
  { destruct s; [discriminate T | cbn [String.length]; lia]. }
  unfold well_counted.
  cbn [Nlp.total_commits Nlp.message_lengths Nlp.sample_messages Nlp.repo].
  split; [|split; [reflexivity | lia]].
  split; [rewrite length_app; cbn [length]; lia|].
  split; [apply Forall_app; split; [exact Hl | repeat constructor; exact Hlen]|].
  destruct (_ && _) eqn:B; [|split; assumption].
  apply andb_true_iff in B. destruct B as [_ B]. apply Nat.ltb_lt in B.
  split; [rewrite length_app; cbn [length]; lia|].
  apply Forall_app. split; [exact Hs|].
  constructor; [apply sample_is_line | constructor].
Qed.

Lemma analyze_commits_counted (commits : list json) :
  forall a a',
    Nlp.analyze_commits a commits = Ok a' ->
    well_counted a ->
    well_counted a' /\ Nlp.repo a' = Nlp.repo a /\
    Nlp.total_commits a <= Nlp.total_commits a'
    <= Nlp.total_commits a + Z.of_nat (length commits).
Proof.
  induction commits as [|commit rest IH]; intros a a' H Ha;
    cbn [Nlp.analyze_commits] in H.
  - injection H as <-.
    split; [exact Ha|]. split; [reflexivity|]. cbn [length]. lia.
  - bind_inv H.
    destruct (analyze_commit_counted _ _ _ E Ha) as (Hx & Rx & Tx).
    destruct (IH _ _ H Hx) as (Ha' & R' & T').
    split; [exact Ha'|]. split; [congruence|].
    cbn [length]. lia.
Qed.

Lemma fetch_commits_length (srv : server) (repo_full_name : string)
      (max_commits : Z) (w : world) (commits : list json) :
  0 <= max_commits ->
  fst (Nlp.fetch_commits srv repo_full_name max_commits w) = Ok commits ->
  Z.of_nat (length commits) <= max_commits.
Proof.
  intros Hm. unfold Nlp.fetch_commits, io_bind, io_ret.
  destruct (Nlp.fetch_loop _ _ _ _ _ _ w) as [[l|e] w1]; cbn [fst];
    [|discriminate].
  intros [= <-]. apply slice_to_length, Hm.
Qed.

(** X14.  The analysis [analyze_repo] returns carries the name it was
    given.  It counts at most 500 commits, as many as it has message
    lengths; every message length is at least 1, as a commit without a
    message is skipped; it keeps at most 20 samples, each a single line of
    at most 100 characters. *)
Theorem X14_analysis_is_well_counted (srv : server) (repo_full_name : string)
        (created_at : datetime) (w : world) (a : Nlp.CommitAnalysis) :
  fst (Nlp.analyze_repo srv repo_full_name created_at w) = Ok a ->
  Nlp.repo a = repo_full_name /\
  0 <= Nlp.total_commits a <= 500 /\
  well_counted a.
Proof.
  unfold Nlp.analyze_repo, io_bind, lift.
  pose proof (fetch_commits_length srv repo_full_name 500 w) as L.
  destruct (Nlp.fetch_commits srv repo_full_name 500 w) as [[commits|e] w1];
    cbn [fst] in *; [|discriminate].
  specialize (L commits ltac:(lia) eq_refl).
  intros H.
  apply analyze_commits_counted in H.
  - destruct H as (Hw & Hr & Ht).
    cbn [Nlp.new_analysis Nlp.repo Nlp.total_commits] in Hr, Ht.
    split; [exact Hr|]. split; [lia | exact Hw].
  - split; [reflexivity|]. split; [constructor|].
    split; [cbn; lia | constructor].
Qed.

Lemma X14_analysis_is_well_counted_witness :
  fst (Nlp.analyze_repo three_commits "octo/demo" boundary at_start)
  = Ok analysed /\
  Nlp.repo analysed = "octo/demo" /\
  0 <= Nlp.total_commits analysed <= 500 /\
  well_counted analysed.
Proof.
  split; [vm_compute; reflexivity|].
  apply (X14_analysis_is_well_counted three_commits "octo/demo" boundary
           at_start analysed).
  vm_compute; reflexivity.
Defined.

(** ** The pages of [fetch_commits] *)

Lemma expected_sleep_requests (r : outcome) (t : Q) :
  requests (expected_sleep r t) = [].
Proof.
  unfold expected_sleep.
  destruct (int_header r "X-RateLimit-Remaining" 10) as [remaining|];
    [|reflexivity].
  destruct (remaining <? 5); [|reflexivity].
  destruct (int_header r "X-RateLimit-Reset" 0); reflexivity.
Qed.

Lemma fetch_page_requests (srv : server) (repo_full_name : string)
      (commits : list json) (page : Z) (w : world) :
  requests (log (snd (Nlp.fetch_page srv repo_full_name commits page w)))
  = commits_request repo_full_name page :: requests (log w).
Proof.
  destruct (fetch_page_log srv w repo_full_name commits page)
    as (politeness & Hp & ->).
  rewrite !requests_app, expected_sleep_requests.
  destruct Hp as [-> | ->]; reflexivity.
Qed.

Lemma page_numbers_next (first : Z) (k : nat) :
  page_numbers first (S k) = first :: page_numbers (first + 1) k.
Proof.
  unfold page_numbers. cbn [seq map]. f_equal; [lia|].
  rewrite <- seq_shift, map_map. apply map_ext. intros i. lia.
Qed.

Lemma fetch_loop_pages (srv : server) (repo_full_name : string)
      (max_commits : Z) (fuel : nat) :
  forall commits page w,
  exists l k,
    fst (Nlp.fetch_loop srv repo_full_name max_commits fuel commits page w)
    = Ok l /\
    requests (log (snd (Nlp.fetch_loop srv repo_full_name max_commits fuel
                                       commits page w)))
    = (rev (map (commits_request repo_full_name) (page_numbers page k))
       ++ requests (log w))%list /\
    (k <= fuel)%nat.
Proof.
  induction fuel as [|fuel IH]; intros commits page w; cbn [Nlp.fetch_loop].
  - exists commits, 0%nat.
    destruct (_ <? _); repeat split; auto.
  - destruct (_ <? _).
    2:{ exists commits, 0%nat. repeat split; auto. lia. }
    unfold io_bind.
    pose proof (fetch_page_requests srv repo_full_name commits page w) as R.
    destruct (fetch_page_total srv repo_full_name commits page w) as [next T].
    destruct (Nlp.fetch_page srv repo_full_name commits page w) as [x w1].
    cbn [fst snd] in *. subst x.
    destruct next as [commits'|].
    + destruct (IH commits' (page + 1) w1) as (l & k & E & L & K).
      exists l, (S k). split; [exact E|]. split; [|lia].
      rewrite L, R, page_numbers_next. cbn [map rev].
      rewrite <- app_assoc. reflexivity.
    + exists commits, 1%nat. split; [reflexivity|]. split; [|lia].
      cbn [io_ret snd]. rewrite R, page_numbers_next. reflexivity.
Qed.

(** X15.  For a maximum that is not negative, [fetch_commits] never
    raises and returns at most [max_commits] commits.  The requests it
    sends are for the pages 1, 2, ..., k of the commits of the repository,
    in this order, 100 commits a page, and k is at most [max_commits]. *)
Theorem X15_commit_pages (srv : server) (repo_full_name : string)
        (max_commits : Z) (w : world) :
  0 <= max_commits ->
  exists commits k,
    fst (Nlp.fetch_commits srv repo_full_name max_commits w) = Ok commits /\
    Z.of_nat (length commits) <= max_commits /\
    requests (log (snd (Nlp.fetch_commits srv repo_full_name max_commits w)))
    = (rev (map (commits_request repo_full_name) (page_numbers 1 k))
       ++ requests (log w))%list /\
    Z.of_nat k <= max_commits.
Proof.
  intros Hm. unfold Nlp.fetch_commits, io_bind, io_ret.
  destruct (fetch_loop_pages srv repo_full_name max_commits
              (Z.to_nat max_commits) [] 1 w) as (l & k & E & L & K).
  destruct (Nlp.fetch_loop _ _ _ _ _ _ w) as [x w1].
  cbn [fst snd] in *. subst x.
  exists (slice_to max_commits l), k.
  split; [reflexivity|].
  split; [apply slice_to_length, Hm|].
  split; [exact L | lia].
Qed.

Lemma X15_commit_pages_witness :
  0 <= 500 /\
  exists commits k,
    fst (Nlp.fetch_commits three_commits "octo/demo" 500 at_start)
    = Ok commits /\
    Z.of_nat (length commits) <= 500 /\
    requests (log (snd (Nlp.fetch_commits three_commits "octo/demo" 500
                                          at_start)))
    = (rev (map (commits_request "octo/demo") (page_numbers 1 k))
       ++ requests (log at_start))%list /\
    Z.of_nat k <= 500.
Proof.
  split; [lia|].
  apply (X15_commit_pages three_commits "octo/demo" 500 at_start). lia.
Defined.

(** ** Pooled statistics *)

Lemma zsum_acc (l : list Z) : forall a, fold_left Z.add l a = a + zsum l.
Proof.
  unfold zsum. induction l as [|x l IH]; intros a; cbn [fold_left]; [lia|].
  rewrite (IH (a + x)), (IH (0 + x)). lia.
Qed.

Lemma zsum_cons (x : Z) (l : list Z) : zsum (x :: l) = x + zsum l.
Proof. unfold zsum at 1. cbn [fold_left]. rewrite zsum_acc. lia. Qed.

Lemma counter_total_add (c : Nlp.counter) (k : string) (n : Z) :
  Nlp.counter_total (Nlp.counter_add c k n) = Nlp.counter_total c + n.
Proof.
  unfold Nlp.counter_total.
  induction c as [|[k' v] c IH]; cbn [Nlp.counter_add map snd].
  - rewrite zsum_cons. lia.
  - destruct (k =? k')%string; cbn [map snd]; rewrite !zsum_cons; [lia|].
    rewrite IH. lia.
Qed.

Lemma counter_total_update (other : Nlp.counter) :
  forall c,
    Nlp.counter_total (Nlp.counter_update c other)
    = Nlp.counter_total c + Nlp.counter_total other.
Proof.
  unfold Nlp.counter_update.
  induction other as [|[k v] other IH]; intros c; cbn [fold_left fst snd].
  - unfold Nlp.counter_total at 3. cbn. lia.
  - rewrite IH, counter_total_add.
    unfold Nlp.counter_total at 4. cbn [map snd]. rewrite zsum_cons.
    unfold Nlp.counter_total. lia.
Qed.

Lemma counter_total_merged (cs : list Nlp.counter) :
  forall acc,
    Nlp.counter_total (fold_left Nlp.counter_update cs acc)
    = Nlp.counter_total acc + zsum (map Nlp.counter_total cs).
Proof.
  induction cs as [|c cs IH]; intros acc; cbn [fold_left map].
  - cbn. lia.
  - rewrite IH, counter_total_update, zsum_cons. lia.
Qed.

Lemma merged_signals (field : Nlp.CommitAnalysis -> Nlp.counter)
      (l : list Nlp.CommitAnalysis) :
  Nlp.counter_total (fold_left Nlp.counter_update (map field l) [])
  = signal_count field l.
Proof.
  rewrite counter_total_merged, map_map. reflexivity.
Qed.

(** Rounding to the nearest integer moves a number by a half at most. *)
Lemma round_half_even_near (x : Q) :
  (Qabs (inject_Z (round_half_even x) - x) <= 1 # 2)%Q.
Proof.
  unfold round_half_even.
  pose proof (Qfloor_le x) as Lo. pose proof (Qlt_floor x) as Hi.
  set (f := Qfloor x) in *.
  rewrite inject_Z_plus in Hi. change (inject_Z 1) with 1%Q in Hi.
  apply Qabs_Qle_condition.
  destruct (Qcompare (x - inject_Z f) (1 # 2)) eqn:C.
  - apply Qeq_alt in C.
    destruct (Z.even f); [|rewrite inject_Z_plus; change (inject_Z 1) with 1%Q];
      lra.
  - apply Qlt_alt in C. lra.
  - apply Qgt_alt in C. rewrite inject_Z_plus. change (inject_Z 1) with 1%Q.
    lra.
Qed.

Lemma round_near (q : Q) :
  (Qabs (to_Q (round (PFloat q) 2) - q) <= 1 # 200)%Q.
Proof.
  cbn [round to_Q]. rewrite Qred_correct.
  change (inject_Z (10 ^ Z.of_nat 2)) with (100 # 1)%Q.
  pose proof (round_half_even_near (q * (100 # 1))) as H.
  apply Qabs_Qle_condition in H. destruct H as [H1 H2].
  apply Qabs_Qle_condition.
  set (k := inject_Z (round_half_even (q * (100 # 1)))) in *.
  unfold Qdiv. change (/ (100 # 1))%Q with (1 # 100)%Q.
  split; lra.
Qed.

Lemma rounded_per_100_pooled (c : Nlp.counter) (total : Z) (v : pynum) :
  Nlp.rounded_per_100 c total = Ok v ->
  pooled_rate (Nlp.counter_total c) total v.
Proof.
  unfold Nlp.rounded_per_100, pooled_rate, Nlp.per_100, true_div.
  destruct (Z.eqb_spec total 0) as [|Hn]; [intros [= <-]; reflexivity|].
  cbn [to_Q].
  destruct (Qeq_bool (inject_Z total) 0) eqn:E.
  { apply Qeq_bool_iff in E. unfold Qeq in E. simpl in E. lia. }
  cbn [bind mul]. intros [= <-].
  split; [reflexivity|].
  set (q := Qred (to_Q (PFloat (Qred (inject_Z (Nlp.counter_total c)
                                      / inject_Z total)))
              * to_Q (PInt 100))).
  assert (Hq : (q == inject_Z (Nlp.counter_total c) * 100 / inject_Z total)%Q).
  { unfold q. cbn [to_Q]. rewrite !Qred_correct.
    change (inject_Z 100) with 100%Q. field.
    intros H. unfold Qeq in H. simpl in H. lia. }
  rewrite <- Hq.
  eapply Qle_lt_trans; [apply round_near | reflexivity].
Qed.

Lemma zsum_ones {A : Type} (l : list A) :
  zsum (map (fun _ => 1) l) = Z.of_nat (length l).
Proof.
  induction l as [|x l IH]; [reflexivity|].
  cbn [map]. rewrite zsum_cons, IH. cbn [length]. lia.
Qed.

(** A message counts at most once for each name of a table. *)
Lemma hits_total (table : list (string * string)) (message : string) :
  0 <= Nlp.counter_total (hits table message) <= Z.of_nat (length table).
Proof.
  unfold Nlp.counter_total, hits. rewrite map_map. cbn [snd].
  rewrite zsum_ones.
  pose proof (filter_length_le (fun p => found (snd p) message) table).
  lia.
Qed.

Lemma plausible_step (c : Nlp.counter) (table : list (string * string))
      (message : string) (n : Z) :
  (length table <= 15)%nat ->
  0 <= Nlp.counter_total c <= 15 * n ->
  0 <= Nlp.counter_total (Nlp.counter_update c (hits table message))
  <= 15 * (n + 1).
Proof.
  intros Ht Hc. rewrite counter_total_update.
  pose proof (hits_total table message). lia.
Qed.

Lemma analyze_commit_plausible (a a' : Nlp.CommitAnalysis) (commit : json) :
  Nlp.analyze_commit a commit = Ok a' -> plausible a -> plausible a'.
Proof.
  unfold Nlp.analyze_commit. intros H Ha.
  bind_inv H. bind_inv H.
  destruct (negb (truthy _)); [injection H as <-; exact Ha|].
  bind_inv H. rewrite analyze_message_hits in H. cbn [bind] in H.
  injection H as <-.
  unfold plausible in *.
  cbn [Nlp.debt_signals Nlp.bug_signals Nlp.revert_signals
       Nlp.frustration_signals Nlp.positive_signals Nlp.total_commits
       Nlp.debt Nlp.bug Nlp.revert Nlp.frustration Nlp.positive].
  inversion Ha as [|? ? H1 Ha1]; subst.
  inversion Ha1 as [|? ? H2 Ha2]; subst.
  inversion Ha2 as [|? ? H3 Ha3]; subst.
  inversion Ha3 as [|? ? H4 Ha4]; subst.
  inversion Ha4 as [|? ? H5 _]; subst.
  repeat (constructor; [apply plausible_step; [cbn; lia | assumption]|]).
  constructor.
Qed.

Lemma analyze_commits_plausible (commits : list json) :
  forall a a',
    Nlp.analyze_commits a commits = Ok a' -> plausible a -> plausible a'.
Proof.
  induction commits as [|commit rest IH]; intros a a' H Ha;
    cbn [Nlp.analyze_commits] in H.
  - injection H as <-. exact Ha.
  - bind_inv H. apply (IH _ _ H).
    apply (analyze_commit_plausible _ _ _ E Ha).
Qed.

(** The analyses [analyze_repo] returns are plausible. *)
Lemma analyze_repo_plausible (srv : server) (repo_full_name : string)
      (created_at : datetime) (w : world) (a : Nlp.CommitAnalysis) :
  fst (Nlp.analyze_repo srv repo_full_name created_at w) = Ok a ->
  plausible a.
Proof.
  unfold Nlp.analyze_repo, io_bind, lift.
  destruct (Nlp.fetch_commits srv repo_full_name 500 w) as [[commits|e] w1];
    cbn [fst]; [|discriminate].
  intros H. apply (analyze_commits_plausible _ _ _ H).
  repeat constructor; cbn; lia.
Qed.

Lemma plausible_analysed : plausible analysed.
Proof.
  apply (analyze_repo_plausible three_commits "octo/demo" boundary at_start).
  vm_compute. reflexivity.
Qed.

(** X16.  The statistics of an era are pooled.  The number of
    repositories is the length of the list, the commits are the sum of the
    commits, and each rate per 100 commits is, to the hundredth, the sum of
    the signals of all the repositories over the sum of their commits,
    times 100 - not the mean of the rates of the repositories; it is the
    [int] 0 when the era has no commit.  The statement is for analyses
    with no more than 15 signals of a kind per commit, which are those
    [analyze_repo] returns. *)
Theorem X16_era_rates_are_pooled (l : list Nlp.CommitAnalysis)
        (st : Nlp.era_stats) :
  Forall plausible l ->
  Nlp.calc_stats l = Ok (Some st) ->
  Nlp.st_repos st = Z.of_nat (length l) /\
  Nlp.st_total_commits st = commit_count l /\
  pooled_rate (signal_count Nlp.debt_signals l) (commit_count l)
              (Nlp.debt_per_100 st) /\
  pooled_rate (signal_count Nlp.bug_signals l) (commit_count l)
              (Nlp.bug_per_100 st) /\
  pooled_rate (signal_count Nlp.revert_signals l) (commit_count l)
              (Nlp.revert_per_100 st) /\
  pooled_rate (signal_count Nlp.frustration_signals l) (commit_count l)
              (Nlp.frustration_per_100 st) /\
  pooled_rate (signal_count Nlp.positive_signals l) (commit_count l)
              (Nlp.positive_per_100 st).
Proof.
  intros _.
  unfold Nlp.calc_stats. destruct l as [|a l]; [discriminate|].
  set (al := a :: l). intros H.
  bind_inv H. bind_inv H. bind_inv H. bind_inv H. bind_inv H.
  bind_inv H. bind_inv H. injection H as <-.
  cbn [Nlp.st_repos Nlp.st_total_commits Nlp.debt_per_100 Nlp.bug_per_100
       Nlp.revert_per_100 Nlp.frustration_per_100 Nlp.positive_per_100].
  split; [reflexivity|]. split; [reflexivity|].
  apply rounded_per_100_pooled in E, E0, E1, E2, E3.
  rewrite merged_signals in E, E0, E1, E2, E3.
  repeat split; assumption.
Qed.

Lemma X16_era_rates_are_pooled_witness :
  Forall plausible [analysed] /\
  Nlp.calc_stats [analysed] = Ok (Some analysed_stats) /\
  Nlp.st_repos analysed_stats = Z.of_nat (length [analysed]) /\
  Nlp.st_total_commits analysed_stats = commit_count [analysed] /\
  pooled_rate (signal_count Nlp.debt_signals [analysed])
              (commit_count [analysed]) (Nlp.debt_per_100 analysed_stats) /\
  pooled_rate (signal_count Nlp.bug_signals [analysed])
              (commit_count [analysed]) (Nlp.bug_per_100 analysed_stats) /\
  pooled_rate (signal_count Nlp.revert_signals [analysed])
              (commit_count [analysed]) (Nlp.revert_per_100 analysed_stats) /\
  pooled_rate (signal_count Nlp.frustration_signals [analysed])
              (commit_count [analysed])
              (Nlp.frustration_per_100 analysed_stats) /\
  pooled_rate (signal_count Nlp.positive_signals [analysed])
              (commit_count [analysed])
              (Nlp.positive_per_100 analysed_stats).
Proof.
  split; [constructor; [exact plausible_analysed | constructor]|].
  split; [vm_compute; reflexivity|].
  apply (X16_era_rates_are_pooled [analysed] analysed_stats).
  - constructor; [exact plausible_analysed | constructor].
  - vm_compute; reflexivity.
Defined.

Lemma most_common_sorted (n : Z) (c : Nlp.counter) :
  0 <= n ->
  exists s,
    Permutation s c /\
    StronglySorted count_ge s /\
    Nlp.most_common n c = firstn (Z.to_nat n) s.
Proof.
  intros Hn. unfold Nlp.most_common.
  set (ks := map (fun kv : string * Z => (PInt (snd kv), kv)) c).
  exists (map snd (sort_decorated true ks)).
  split.
  { rewrite sort_decorated_perm. unfold ks. rewrite map_map. cbn [snd].
    rewrite map_id. reflexivity. }
  split.
  - assert (D : Forall (fun p => fst p = PInt (snd (snd p)))
                       (sort_decorated true ks)).
    { apply (Permutation_Forall
               (Permutation_sym (sort_decorated_perm true ks))).
      unfold ks. apply Forall_map, Forall_forall. reflexivity. }
    pose proof (sort_desc_sorted ks) as S.
    induction S as [|p l Sl IH Hp]; [constructor|].
    inversion D as [|? ? Dp Dl]; subst.
    cbn [map]. constructor; [apply IH, Dl|].
    apply Forall_map.
    rewrite Forall_forall in *. intros q Hq.
    specialize (Hp q Hq). unfold key_ge in Hp.
    rewrite Dp, (Dl q Hq) in Hp. cbn [to_Q] in Hp.
    unfold count_ge. rewrite Zle_Qle. exact Hp.
  - unfold slice_to.
    destruct (Z.ltb_spec n 0); [lia|].
    destruct (Z.le_ge_cases n (Z.of_nat (length (map snd (sort_decorated true ks))))).
    + rewrite Z.min_l by lia. reflexivity.
    + rewrite Z.min_r, Nat2Z.id by lia.
      rewrite !firstn_all2 by lia. reflexivity.
Qed.

(** X17.  The top signals of an era are the first five entries, by
    decreasing count, of the counter merged over the repositories of the
    era - all its entries when there are fewer than five. *)
Theorem X17_top_signals (l : list Nlp.CommitAnalysis) (st : Nlp.era_stats) :
  Nlp.calc_stats l = Ok (Some st) ->
  top_five (merged Nlp.debt_signals l) (Nlp.top_debt_signals st) /\
  top_five (merged Nlp.bug_signals l) (Nlp.top_bug_signals st) /\
  top_five (merged Nlp.frustration_signals l)
           (Nlp.top_frustration_signals st).
Proof.
  unfold Nlp.calc_stats. destruct l as [|a l]; [discriminate|].
  set (al := a :: l). intros H.
  bind_inv H. bind_inv H. bind_inv H. bind_inv H. bind_inv H.
  bind_inv H. bind_inv H. injection H as <-.
  cbn [Nlp.top_debt_signals Nlp.top_bug_signals Nlp.top_frustration_signals].
  unfold top_five, merged.
  repeat split; apply (most_common_sorted 5); lia.
Qed.

Lemma X17_top_signals_witness :
  Nlp.calc_stats [analysed] = Ok (Some analysed_stats) /\
  top_five (merged Nlp.debt_signals [analysed])
           (Nlp.top_debt_signals analysed_stats) /\
  top_five (merged Nlp.bug_signals [analysed])
           (Nlp.top_bug_signals analysed_stats) /\
  top_five (merged Nlp.frustration_signals [analysed])
           (Nlp.top_frustration_signals analysed_stats).
Proof.
  split; [vm_compute; reflexivity|].
  apply (X17_top_signals [analysed] analysed_stats).
  vm_compute; reflexivity.
Defined.

(** ** When the aggregation returns *)

Lemma sum_ints (l : list Z) : sum (map PInt l) = PInt (zsum l).
Proof.
  unfold sum, zsum. generalize 0.
  induction l as [|x l IH]; intros a; cbn [map fold_left]; [reflexivity|].
  apply IH.
Qed.

Lemma zsum_lower (l : list Z) :
  Forall (fun n => 1 <= n) l -> Z.of_nat (length l) <= zsum l.
Proof.
  induction 1 as [|x l Hx _ IH]; [cbn; lia|].
  rewrite zsum_cons. cbn [length]. lia.
Qed.

Lemma mean_lengths_positive (l : list Z) :
  l <> [] -> Forall (fun n => 1 <= n) l ->
  exists v, mean (map PInt l) = Ok v /\ num_ltb (PInt 0) v = true.
Proof.
  intros Hne Hl. pose proof (zsum_lower l Hl) as Hs.
  assert (Hlen : 0 < Z.of_nat (length l)) by (destruct l; [congruence | cbn; lia]).
  unfold mean. destruct l as [|x l]; [congruence|].
  set (data := map PInt (x :: l)). cbn [map] in data.
  change (match data with [] => Raise StatisticsError | _ => ?b end)
    with b.
  set (q := Qred _).
  assert (Hq : (0 < q)%Q).
  { unfold q. rewrite Qred_correct. unfold data.
    change (PInt x :: map PInt l) with (map PInt (x :: l)).
    rewrite sum_ints, length_map. cbn [to_Q].
    unfold Qlt, Qdiv, Qmult, Qinv, inject_Z. cbn [Qnum Qden].
    destruct (Z.of_nat (length (x :: l))) eqn:L; try lia.
    cbn [Qnum Qden]. nia. }
  destruct (forallb is_int data && (Qden q =? 1)%positive) eqn:B.
  - eexists. split; [reflexivity|].
    apply andb_true_iff in B. destruct B as [_ B].
    apply Pos.eqb_eq in B.
    unfold num_ltb. cbn [to_Q]. apply negb_true_iff.
    destruct (Qle_bool _ _) eqn:C; [|reflexivity].
    apply Qle_bool_iff in C. unfold Qle, Qlt, inject_Z in *.
    cbn [Qnum Qden] in *. rewrite B in Hq. lia.
  - eexists. split; [reflexivity|].
    unfold num_ltb. cbn [to_Q]. apply negb_true_iff.
    destruct (Qle_bool _ _) eqn:C; [|reflexivity].
    apply Qle_bool_iff in C. exfalso. apply (Qlt_not_le _ _ Hq C).
Qed.

Lemma averages (l : list Nlp.CommitAnalysis) :
  Forall well_counted l ->
  exists lengths,
    mapM Nlp.avg_message_length l = Ok lengths /\
    (filter (fun x => num_ltb (PInt 0) x) lengths <> [] <->
     Exists (fun a => 0 < Nlp.total_commits a) l).
Proof.
  induction 1 as [|a l (Ht & Hl & _) _ (lengths & E & F)].
  - exists []. split; [reflexivity|]. cbn [filter].
    split; [congruence | intros H; inversion H].
  - cbn [mapM]. unfold Nlp.avg_message_length at 1.
    destruct (Nlp.message_lengths a) as [|n ns] eqn:M.
    + cbn [bind]. rewrite E. cbn [bind]. eexists. split; [reflexivity|].
      cbn [filter]. change (num_ltb (PInt 0) (PInt 0)) with false. cbv iota.
      rewrite F. split; [intros H; now right|].
      intros H. inversion H as [? ? H1 | ? ? H1]; subst; [|exact H1].
      cbn [length] in Ht. lia.
    + destruct (mean_lengths_positive (n :: ns) ltac:(discriminate) Hl)
        as (v & -> & Hv).
      cbn [bind]. rewrite E. cbn [bind]. eexists. split; [reflexivity|].
      cbn [filter]. rewrite Hv.
      split; [intros _; left; cbn [length] in Ht; lia | discriminate].
Qed.

Lemma calc_stats_succeeds (l : list Nlp.CommitAnalysis) :
  Forall well_counted l ->
  ((exists st, Nlp.calc_stats l = Ok st) <->
   (l = [] \/ Exists (fun a => 0 < Nlp.total_commits a) l)).
Proof.
  intros Hw. destruct l as [|a l].
  { split; [now left | intros _; eexists; reflexivity]. }
  destruct (averages _ Hw) as (lengths & E & F).
  unfold Nlp.calc_stats.
  repeat match goal with
         | |- context [Nlp.rounded_per_100 ?c ?t] =>
             let v := fresh "v" in
             let R := fresh "R" in
             destruct (rounded_per_100_ok c t) as [v R]; rewrite R;
             cbn [bind]
         end.
  rewrite E. cbn [bind].
  destruct (filter _ lengths) as [|x xs] eqn:G.
  - split; [intros [st H]; discriminate H|].
    intros [H | H]; [discriminate H|].
    apply F in H. congruence.
  - destruct (mean_ok (x :: xs) ltac:(discriminate)) as [m ->]. cbn [bind].
    split; [intros _; right; apply F; discriminate|].
    intros _. eexists; reflexivity.
Qed.

Lemma well_counted_filter (f : Nlp.CommitAnalysis -> bool)
      (l : list Nlp.CommitAnalysis) :
  Forall well_counted l -> Forall well_counted (filter f l).
Proof.
  intros H. apply Forall_forall. intros a Ha.
  apply filter_In in Ha. rewrite Forall_forall in H. apply H, Ha.
Qed.

Lemma analysed_well_counted : well_counted analysed.
Proof.
  unfold well_counted. vm_compute.
  split; [reflexivity|].
  split; [repeat constructor; discriminate|].
  split; [repeat constructor|].
  constructor; [|constructor].
  split; [repeat constructor|].
  intros H. repeat (destruct H as [H | H]; [discriminate H|]). exact H.
Qed.

(** X18.  On analyses as [analyze_repo] builds them,
    [aggregate_by_era] returns exactly when each of the two eras has no
    repository at all or a repository with at least one commit message;
    otherwise it raises. *)
Theorem X18_aggregation_succeeds (analyses : list Nlp.CommitAnalysis) :
  Forall well_counted analyses ->
  ((exists e, Nlp.aggregate_by_era analyses = Ok e) <->
   era_has_messages "pre-ai" analyses /\
   era_has_messages "post-ai" analyses).
Proof.
  intros Hw. unfold Nlp.aggregate_by_era, era_has_messages.
  pose proof (calc_stats_succeeds _
                (well_counted_filter
                   (fun a => (Nlp.era a =? "pre-ai")%string) _ Hw)) as P.
  pose proof (calc_stats_succeeds _
                (well_counted_filter
                   (fun a => (Nlp.era a =? "post-ai")%string) _ Hw)) as Q.
  cbv zeta.
  destruct (Nlp.calc_stats (filter _ analyses)) as [p|e1].
  - cbn [bind].
    destruct (Nlp.calc_stats (filter _ analyses)) as [q|e2].
    + cbn [bind]. split; [intros _|intros _; eexists; reflexivity].
      split; [apply P | apply Q]; eexists; reflexivity.
    + cbn [bind]. split; [intros [e H]; discriminate H|].
      intros [_ H]. apply Q in H. destruct H as [st H]. discriminate H.
  - cbn [bind]. split; [intros [e H]; discriminate H|].
    intros [H _]. apply P in H. destruct H as [st H]. discriminate H.
Qed.

Lemma X18_aggregation_succeeds_witness :
  Forall well_counted [analysed] /\
  ((exists e, Nlp.aggregate_by_era [analysed] = Ok e) <->
   era_has_messages "pre-ai" [analysed] /\
   era_has_messages "post-ai" [analysed]).
Proof.
  split; [constructor; [apply analysed_well_counted | constructor]|].
  apply (X18_aggregation_succeeds [analysed]).
  constructor; [apply analysed_well_counted | constructor].
Defined.

(** ** The selection of [main] *)

Lemma created_year_entry (r : RepoMetrics) :
  valid (created_at r) = true ->
  Nlp.created_year (cache_entry r) = Ok (year (created_at r)).
Proof.
  intros Hv. unfold Nlp.created_year, cache_entry.
  cbn -[isoformat fromisoformat].
  rewrite (isoformat_round_trip _ Hv). reflexivity.
Qed.

Lemma filterM_entries (p : Z -> bool) (rs : list RepoMetrics) :
  Forall (fun r => valid (created_at r) = true) rs ->
  Nlp.filterM (fun r => y <- Nlp.created_year r ;; Ok (p y))%exc
              (map cache_entry rs)
  = Ok (map cache_entry (filter (fun r => p (year (created_at r))) rs)).
Proof.
  induction 1 as [|r rs Hr _ IH]; [reflexivity|].
  cbn [map Nlp.filterM filter].
  rewrite (created_year_entry r Hr), IH. cbn [bind].
  destruct (p (year (created_at r))); reflexivity.
Qed.

Lemma insert_by_payload {A B : Type} (f : A -> B)
      (before : pynum -> pynum -> bool) (x : pynum * A)
      (l : list (pynum * A)) :
  insert_by before (fst x, f (snd x)) (map (fun p => (fst p, f (snd p))) l)
  = map (fun p => (fst p, f (snd p))) (insert_by before x l).
Proof.
  induction l as [|y l IH]; cbn [map insert_by fst snd]; [reflexivity|].
  destruct (before (fst x) (fst y)); cbn [map fst snd]; [reflexivity|].
  rewrite IH. reflexivity.
Qed.

Lemma sort_decorated_payload {A B : Type} (f : A -> B) (reverse : bool)
      (l : list (pynum * A)) :
  sort_decorated reverse (map (fun p => (fst p, f (snd p))) l)
  = map (fun p => (fst p, f (snd p))) (sort_decorated reverse l).
Proof.
  unfold sort_decorated. induction l as [|x l IH]; [reflexivity|].
  cbn [map fold_right]. rewrite IH. apply insert_by_payload.
Qed.

Lemma sorted_entries (l : list RepoMetrics) :
  sorted Nlp.stars_key true (map cache_entry l)
  = Ok (map cache_entry (by_stars l)).
Proof.
  unfold sorted, by_stars.
  assert (E : mapM (fun x => k <- Nlp.stars_key x ;; Ok (k, x))%exc
                   (map cache_entry l)
              = Ok (map (fun p => (fst p, cache_entry (snd p)))
                        (map (fun r => (PInt (stars r), r)) l))).
  { induction l as [|r l IH]; [reflexivity|].
    cbn [map mapM]. rewrite IH. reflexivity. }
  rewrite E. cbn [bind]. rewrite sort_decorated_payload, !map_map.
  reflexivity.
Qed.

Lemma by_stars_perm (l : list RepoMetrics) : Permutation (by_stars l) l.
Proof.
  unfold by_stars. rewrite sort_decorated_perm, map_map. cbn [snd].
  rewrite map_id. reflexivity.
Qed.

Lemma by_stars_sorted (l : list RepoMetrics) :
  StronglySorted stars_ge (by_stars l).
Proof.
  unfold by_stars.
  set (ks := map (fun r => (PInt (stars r), r)) l).
  assert (D : Forall (fun p => fst p = PInt (stars (snd p)))
                     (sort_decorated true ks)).
  { apply (Permutation_Forall (Permutation_sym (sort_decorated_perm true ks))).
    unfold ks. apply Forall_map, Forall_forall. reflexivity. }
  pose proof (sort_desc_sorted ks) as S.
  induction S as [|p s Sl IH Hp]; [constructor|].
  inversion D as [|? ? Dp Dl]; subst.
  cbn [map]. constructor; [apply IH, Dl|].
  apply Forall_map.
  rewrite Forall_forall in *. intros q Hq.
  specialize (Hp q Hq). unfold key_ge in Hp.
  rewrite Dp, (Dl q Hq) in Hp. cbn [to_Q] in Hp.
  unfold stars_ge. rewrite Zle_Qle. exact Hp.
Qed.

Lemma slice_to_map {A B : Type} (f : A -> B) (n : Z) (l : list A) :
  0 <= n -> slice_to n (map f l) = map f (firstn (Z.to_nat n) l).
Proof.
  intros Hn. unfold slice_to. rewrite length_map.
  destruct (Z.ltb_spec n 0); [lia|].
  rewrite firstn_map.
  destruct (Z.le_ge_cases n (Z.of_nat (length l))).
  - rewrite Z.min_l by lia. reflexivity.
  - rewrite Z.min_r, Nat2Z.id by lia.
    rewrite !firstn_all2 by lia. reflexivity.
Qed.

Lemma select_repos_entries (rs : list RepoMetrics) (max_repos : Z) :
  0 <= max_repos ->
  Forall (fun r => valid (created_at r) = true) rs ->
  Nlp.select_repos (JArr (map cache_entry rs)) max_repos
  = Ok (map cache_entry
            (firstn (Z.to_nat (max_repos / 2))
                    (by_stars (filter (fun r => year (created_at r) <? 2022)
                                      rs)) ++
             firstn (Z.to_nat (max_repos / 2))
                    (by_stars (filter (fun r => 2022 <=? year (created_at r))
                                      rs)))%list).
Proof.
  intros Hm Hv.
  unfold Nlp.select_repos. cbn [iterate bind].
  rewrite (filterM_entries (fun y => y <? 2022) rs Hv). cbn [bind].
  rewrite (filterM_entries (fun y => 2022 <=? y) rs Hv). cbn [bind].
  rewrite !sorted_entries. cbn [bind].
  assert (0 <= max_repos / 2) by (apply Z.div_pos; lia).
  rewrite !slice_to_map by assumption.
  rewrite map_app. reflexivity.
Qed.

(** X19.  From a cache as [save_cache] writes it and for a maximum that
    is not negative, [main] selects the repositories created before 2022
    with the most stars, then those created in 2022 or later with the most
    stars, each group by decreasing stars and [max_repos // 2] of each at
    most: for an odd maximum, fewer than the maximum in all. *)
Theorem X19_selection (rs : list RepoMetrics) (max_repos : Z) :
  0 <= max_repos ->
  Forall (fun r => valid (created_at r) = true) rs ->
  exists pre post,
    Permutation pre (filter (fun r => year (created_at r) <? 2022) rs) /\
    Permutation post (filter (fun r => 2022 <=? year (created_at r)) rs) /\
    StronglySorted stars_ge pre /\
    StronglySorted stars_ge post /\
    Nlp.select_repos (JArr (map cache_entry rs)) max_repos
    = Ok (map cache_entry
              (firstn (Z.to_nat (max_repos / 2)) pre ++
               firstn (Z.to_nat (max_repos / 2)) post)%list).
Proof.
  intros Hm Hv.
  exists (by_stars (filter (fun r => year (created_at r) <? 2022) rs)),
         (by_stars (filter (fun r => 2022 <=? year (created_at r)) rs)).
  split; [apply by_stars_perm|]. split; [apply by_stars_perm|].
  split; [apply by_stars_sorted|]. split; [apply by_stars_sorted|].
  apply select_repos_entries; assumption.
Qed.

Lemma X19_selection_witness :
  0 <= 3 /\
  Forall (fun r => valid (created_at r) = true) two_repos /\
  exists pre post,
    Permutation pre (filter (fun r => year (created_at r) <? 2022) two_repos) /\
    Permutation post
      (filter (fun r => 2022 <=? year (created_at r)) two_repos) /\
    StronglySorted stars_ge pre /\
    StronglySorted stars_ge post /\
    Nlp.select_repos (JArr (map cache_entry two_repos)) 3
    = Ok (map cache_entry
              (firstn (Z.to_nat (3 / 2)) pre ++
               firstn (Z.to_nat (3 / 2)) post)%list).
Proof.
  split; [lia|].
  split; [repeat constructor|].
  apply (X19_selection two_repos 3); [lia | repeat constructor].
Defined.

(** ** The contributor count *)

Lemma span_digits_spec (s : list ascii) :
  forall ds rest,
    span_digits s = (ds, rest) ->
    s = (ds ++ rest)%list /\ Forall (fun c => is_digit c = true) ds.
Proof.
  induction s as [|c t IH]; intros ds rest; cbn [span_digits].
  - intros [= <- <-]. split; [reflexivity | constructor].
  - destruct (is_digit c) eqn:D.
    + destruct (span_digits t) as [ds' rest'].
      intros [= <- <-]. destruct (IH ds' rest' eq_refl) as [-> F].
      split; [reflexivity | constructor; assumption].
    + intros [= <- <-]. split; [reflexivity | constructor].
Qed.

Lemma span_digits_app (ds rest : list ascii) :
  Forall (fun c => is_digit c = true) ds ->
  match rest with [] => True | c :: _ => is_digit c = false end ->
  span_digits (ds ++ rest) = (ds, rest).
Proof.
  intros F R. induction F as [|c ds Hc _ IH]; cbn [app span_digits].
  - destruct rest as [|c t]; [reflexivity|].
    cbn [span_digits]. rewrite R. reflexivity.
  - rewrite Hc, IH. reflexivity.
Qed.

Lemma strip_prefix_spec (p : list ascii) :
  forall s t, strip_prefix p s = Some t -> s = (p ++ t)%list.
Proof.
  induction p as [|a p IH]; intros s t; cbn [strip_prefix].
  - intros [= ->]. reflexivity.
  - destruct s as [|b s]; [discriminate|].
    destruct (Ascii.eqb_spec a b) as [-> | _]; [|discriminate].
    intros H. rewrite (IH _ _ H). reflexivity.
Qed.

Lemma strip_prefix_app (p t : list ascii) :
  strip_prefix p (p ++ t) = Some t.
Proof.
  induction p as [|a p IH]; [reflexivity|].
  cbn [app strip_prefix]. rewrite Ascii.eqb_refl. exact IH.
Qed.

Lemma starts_with_spec (p : list ascii) :
  forall s, starts_with p s = true -> exists t, s = (p ++ t)%list.
Proof.
  induction p as [|a p IH]; intros s; cbn [starts_with].
  - intros _. exists s. reflexivity.
  - destruct s as [|b s]; [discriminate|].
    intros H. apply andb_true_iff in H. destruct H as [E H].
    apply Ascii.eqb_eq in E. subst b.
    destruct (IH _ H) as [t ->]. exists t. reflexivity.
Qed.

Lemma starts_with_app (p t : list ascii) : starts_with p (p ++ t) = true.
Proof.
  induction p as [|a p IH]; [reflexivity|].
  cbn [app starts_with]. rewrite Ascii.eqb_refl. exact IH.
Qed.

Lemma contains_app (needle u t : list ascii) :
  contains needle (u ++ needle ++ t) = true.
Proof.
  induction u as [|c u IH]; cbn [app].
  - destruct (needle ++ t)%list eqn:E; cbn [contains];
      rewrite <- E, starts_with_app; reflexivity.
  - cbn [contains]. rewrite IH. apply orb_true_r.
Qed.

Lemma match_here_spec (s ds : list ascii) :
  match_here s = Some ds ->
  ds <> [] /\ Forall (fun c => is_digit c = true) ds /\
  exists t, s = (list_ascii_of_string "page=" ++ ds ++ LAST_MARK ++ t)%list.
Proof.
  unfold match_here.
  destruct (strip_prefix _ s) as [after|] eqn:P; [|discriminate].
  destruct (span_digits after) as [ds' rest] eqn:D.
  destruct ds' as [|d ds']; [discriminate|].
  destruct (starts_with _ rest) eqn:S; [|discriminate].
  intros [= <-].
  apply strip_prefix_spec in P. apply span_digits_spec in D.
  destruct D as [-> F]. apply starts_with_spec in S. destruct S as [t ->].
  split; [discriminate|]. split; [exact F|].
  exists t. exact P.
Qed.

Lemma last_page_spec (link : list ascii) :
  forall ds,
    last_page link = Some ds ->
    ds <> [] /\ Forall (fun c => is_digit c = true) ds.
Proof.
  induction link as [|c t IH]; intros ds; cbn [last_page].
  - destruct (match_here []) as [ds'|] eqn:M; [|discriminate].
    intros [= <-]. apply match_here_spec in M. tauto.
  - destruct (match_here (c :: t)) as [ds'|] eqn:M.
    + intros [= <-]. apply match_here_spec in M. tauto.
    + apply IH.
Qed.

Lemma digit_val_bounds (c : ascii) (d : Z) :
  digit_val c = Some d -> 0 <= d.
Proof.
  unfold digit_val.
  destruct (Z.leb_spec 48 (Z.of_nat (nat_of_ascii c))); cbn [andb];
    [|discriminate].
  destruct (_ <=? 57); [|discriminate]. intros [= <-]. lia.
Qed.

Lemma digits_value_digits (cs : list ascii) :
  Forall (fun c => is_digit c = true) cs ->
  forall acc, 0 <= acc ->
              exists v, digits_value cs acc = Some v /\ 0 <= v.
Proof.
  induction 1 as [|c cs Hc _ IH]; intros acc Ha; cbn [digits_value].
  - exists acc. auto.
  - unfold is_digit in Hc.
    destruct (digit_val c) as [d|] eqn:D; [|discriminate].
    apply IH. pose proof (digit_val_bounds c d D). lia.
Qed.

Lemma int_of_digits (ds : list ascii) :
  ds <> [] -> Forall (fun c => is_digit c = true) ds ->
  exists v, int_of_string (string_of_list_ascii ds) = Ok v /\
            digits_value ds 0 = Some v /\ 0 <= v.
Proof.
  intros Hne F. unfold int_of_string.
  rewrite list_ascii_of_string_of_list_ascii.
  destruct ds as [|c cs]; [congruence|].
  inversion F as [|? ? Hc _]; subst.
  destruct (Ascii.eqb_spec c "-") as [-> | _]; [discriminate Hc|].
  destruct (Ascii.eqb_spec c "+") as [-> | _]; [discriminate Hc|].
  destruct (digits_value_digits (c :: cs) F 0 ltac:(lia)) as (v & E & Hv).
  rewrite E. exists v. auto.
Qed.

Lemma fetch_contributor_count_spec (srv : server) (full_name : string)
      (w : world) :
  exists n,
    fetch_contributor_count srv full_name w
    = (Ok n, snd (requests_get srv (contributors_request full_name) w)) /\
    0 <= n.
Proof.
  unfold fetch_contributor_count, try_except, io_bind, lift, io_ret.
  fold (contributors_request full_name).
  unfold requests_get.
  destruct (result (srv (sent w) (contributors_request full_name)))
    as [|status headers body]; cbn [snd].
  { exists 0. split; [reflexivity | lia]. }
  destruct (ok (Response status headers body)).
  2:{ exists 0. split; [reflexivity | lia]. }
  set (link := match header "Link" _ with Some s => _ | None => _ end).
  destruct (if contains REL_LAST link then last_page link else None)
    as [ds|] eqn:L.
  - assert (P : last_page link = Some ds)
      by (destruct (contains REL_LAST link); [exact L | discriminate]).
    apply last_page_spec in P. destruct P as [Hne F].
    destruct (int_of_digits ds Hne F) as (v & -> & _ & Hv).
    exists v. split; [reflexivity | exact Hv].
  - destruct (response_json (Response status headers body)) as [doc|].
    2:{ exists 0. split; [reflexivity | lia]. }
    destruct doc as [|z|s|l|d]; cbn [len].
    + exists 0. split; [reflexivity | lia].
    + exists 0. split; [reflexivity | lia].
    + eexists. split; [reflexivity | lia].
    + eexists. split; [reflexivity | lia].
    + eexists. split; [reflexivity | lia].
Qed.

(** X20.  [fetch_contributor_count] never raises: it sends exactly one
    request, to the contributors URL of the repository, it does not sleep,
    and the count it returns is not negative. *)
Theorem X20_contributor_count (srv : server) (full_name : string)
        (w : world) :
  exists n,
    fetch_contributor_count srv full_name w
    = (Ok n, snd (requests_get srv (contributors_request full_name) w)) /\
    0 <= n.
Proof. apply fetch_contributor_count_spec. Qed.

(** *** The last page *)

Lemma first_split (x : ascii) (l : list ascii) :
  ~ In x l \/ exists u v, l = (u ++ x :: v)%list /\ ~ In x u.
Proof.
  induction l as [|c l IH]; [left; intros []|].
  destruct (Ascii.eqb_spec c x) as [-> | Hc].
  - right. exists [], l. split; [reflexivity | intros []].
  - destruct IH as [Hn | (u & v & -> & Hu)].
    + left. intros [E | Hin]; [exact (Hc E) | exact (Hn Hin)].
    + right. exists (c :: u), v. split; [reflexivity|].
      intros [E | Hin]; [exact (Hc E) | exact (Hu Hin)].
Qed.

Lemma first_unique (x : ascii) (u u' : list ascii) :
  forall v v',
    (u ++ x :: v)%list = (u' ++ x :: v')%list ->
    ~ In x u -> ~ In x u' -> u = u' /\ v = v'.
Proof.
  revert u'. induction u as [|c u IH]; intros u' v v' E Hu Hu'.
  - destruct u' as [|c' u']; cbn [app] in E.
    + injection E as ->. auto.
    + injection E as <- _. exfalso. apply Hu'. now left.
  - destruct u' as [|c' u']; cbn [app] in E.
    + injection E as -> _. exfalso. apply Hu. now left.
    + injection E as <- E. destruct (IH u' v v' E) as [-> ->].
      * intros H. apply Hu. now right.
      * intros H. apply Hu'. now right.
      * auto.
Qed.

Lemma digits_exclude (x : ascii) (ds : list ascii) :
  is_digit x = false ->
  Forall (fun c => is_digit c = true) ds -> ~ In x ds.
Proof.
  intros Hx F Hin. rewrite Forall_forall in F.
  specialize (F x Hin). congruence.
Qed.

Lemma no_match_before (a ds post : list ascii) :
  a <> [] ->
  contains LAST_MARK a = false ->
  Forall (fun c => is_digit c = true) ds ->
  match_here (a ++ list_ascii_of_string "page=" ++ ds ++ LAST_MARK ++ post)
  = None.
Proof.
  intros Ha Hc F.
  destruct (match_here _) as [ds'|] eqn:M; [exfalso | reflexivity].
  apply match_here_spec in M. destruct M as (_ & F' & rest' & E).
  set (gt := ascii_of_nat 62) in *.
  set (tail := (list_ascii_of_string "; " ++ REL_LAST)%list) in *.
  change LAST_MARK with (gt :: tail) in *.
  assert (Hgt : is_digit gt = false) by reflexivity.
  assert (Hp : is_digit "p" = false) by reflexivity.
  assert (P1 : ~ In gt (list_ascii_of_string "page=" ++ ds')).
  { intros H. apply in_app_or in H. destruct H as [H | H].
    - cbn in H. repeat (destruct H as [H | H]; [discriminate H|]). exact H.
    - exact (digits_exclude gt ds' Hgt F' H). }
  assert (P2 : ~ In gt (list_ascii_of_string "page=" ++ ds)).
  { intros H. apply in_app_or in H. destruct H as [H | H].
    - cbn in H. repeat (destruct H as [H | H]; [discriminate H|]). exact H.
    - exact (digits_exclude gt ds Hgt F H). }
  assert (T : ~ In "p"%char tail).
  { cbn. intros H. repeat (destruct H as [H | H]; [discriminate H|]).
    exact H. }
  destruct (first_split gt a) as [Hn | (u & v & -> & Hu)].
  - (* no [>] in [a] *)
    assert (E' : ((a ++ list_ascii_of_string "page=" ++ ds) ++ gt :: tail ++ post
                  = (list_ascii_of_string "page=" ++ ds') ++ gt :: tail ++ rest')
                 %list).
    { etransitivity; [|etransitivity; [exact E|]];
        rewrite <- ?app_assoc; reflexivity. }
    apply first_unique in E'; [|intros H; apply in_app_or in H; tauto | exact P1].
    destruct E' as [E' _].
    destruct a as [|c a']; [congruence|].
    cbn [app list_ascii_of_string] in E'. injection E' as _ E'.
    match type of E' with
    | ?l = _ =>
        assert (Hin : In "p"%char l) by (apply in_or_app; right; now left)
    end.
    rewrite E' in Hin. cbn in Hin.
    repeat (destruct Hin as [Hin | Hin]; [discriminate Hin|]).
    exact (digits_exclude "p"%char ds' Hp F' Hin).
  - (* the first [>] of [a] *)
    assert (E' : (u ++ gt :: (v ++ list_ascii_of_string "page=" ++ ds
                                ++ gt :: tail ++ post)
                  = (list_ascii_of_string "page=" ++ ds') ++ gt :: tail ++ rest')
                 %list).
    { etransitivity; [|etransitivity; [exact E|]];
        rewrite <- ?app_assoc; reflexivity. }
    apply first_unique in E'; [|exact Hu | exact P1].
    destruct E' as [_ E'].
    apply app_eq_app in E'. destruct E' as (l & [[Hv _] | [Ht Hl]]).
    + rewrite Hv in Hc.
      change (u ++ gt :: tail ++ l)%list with (u ++ (gt :: tail) ++ l)%list in Hc.
      rewrite contains_app in Hc. discriminate Hc.
    + destruct l as [|x l].
      * rewrite app_nil_r in Ht. subst v.
        replace (u ++ gt :: tail)%list with (u ++ (gt :: tail) ++ [])%list in Hc
          by (rewrite app_nil_r; reflexivity).
        rewrite contains_app in Hc. discriminate Hc.
      * cbn [app list_ascii_of_string] in Hl. injection Hl as <- _.
        apply T. rewrite Ht. apply in_or_app. right. now left.
Qed.

Lemma last_page_found (ds post : list ascii) :
  ds <> [] ->
  Forall (fun c => is_digit c = true) ds ->
  forall a,
    contains LAST_MARK a = false ->
    last_page (a ++ list_ascii_of_string "page=" ++ ds ++ LAST_MARK ++ post)
    = Some ds.
Proof.
  intros Hne F. induction a as [|c a IH]; intros Hc.
  - cbn [app].
    assert (M : match_here (list_ascii_of_string "page=" ++ ds
                            ++ LAST_MARK ++ post) = Some ds).
    { unfold match_here. rewrite strip_prefix_app.
      rewrite (span_digits_app ds (LAST_MARK ++ post) F) by reflexivity.
      destruct ds as [|d ds]; [congruence|].
      rewrite starts_with_app. reflexivity. }
    destruct (list_ascii_of_string "page=" ++ ds ++ LAST_MARK ++ post)%list;
      cbn [last_page]; rewrite M; reflexivity.
  - assert (Hc' : contains LAST_MARK a = false).
    { cbn [contains] in Hc. apply orb_false_iff in Hc. tauto. }
    pose proof (no_match_before (c :: a) ds post ltac:(discriminate) Hc F) as N.
    cbn [app] in N |- *. cbn [last_page]. rewrite N. apply IH, Hc'.
Qed.

(** X21.  When the response is [ok] and, in its [Link] header, the first
    [>; rel="last"] comes right after [page=] and digits, the count is the
    number these digits spell: the number of the last page, at one
    contributor a page, whatever the body of the response holds. *)
Theorem X21_last_page_is_the_count (srv : server) (full_name : string)
        (w : world) (status : Z) (headers : list (string * string))
        (body : option json) (before ds after : list ascii) (n : Z) :
  result (srv (sent w) (contributors_request full_name))
  = Response status headers body ->
  status < 400 ->
  header "Link" headers = Some (link_to_last before ds after) ->
  contains LAST_MARK before = false ->
  ds <> [] ->
  digits_value ds 0 = Some n ->
  fst (fetch_contributor_count srv full_name w) = Ok n.
Proof.
  intros Hr Hs Hl Hb Hne Hd.
  assert (F : Forall (fun c => is_digit c = true) ds).
  { clear - Hd. revert Hd. generalize 0.
    induction ds as [|c ds IH]; intros acc H; [constructor|].
    cbn [digits_value] in H. unfold is_digit.
    destruct (digit_val c) as [d|] eqn:D; [|discriminate].
    constructor; [rewrite D; reflexivity | exact (IH _ H)]. }
  unfold fetch_contributor_count, try_except, io_bind, lift, io_ret.
  fold (contributors_request full_name).
  unfold requests_get. rewrite Hr.
  unfold ok, raise_for_status. cbn [status_of headers_of].
  destruct (Z.leb_spec 400 status); [lia|]. cbn [andb].
  rewrite Hl. unfold link_to_last.
  rewrite list_ascii_of_string_of_list_ascii.
  assert (C : contains REL_LAST
                (before ++ list_ascii_of_string "page=" ++ ds
                 ++ LAST_MARK ++ after) = true).
  { unfold LAST_MARK.
    replace (before ++ list_ascii_of_string "page=" ++ ds
             ++ (list_ascii_of_string ">; " ++ REL_LAST) ++ after)%list
      with ((before ++ list_ascii_of_string "page=" ++ ds
             ++ list_ascii_of_string ">; ") ++ REL_LAST ++ after)%list
      by (rewrite <- !app_assoc; reflexivity).
    apply contains_app. }
  rewrite C, (last_page_found ds after Hne F before Hb).
  destruct (int_of_digits ds Hne F) as (v & -> & E & _).
  cbn [fst]. congruence.
Qed.

Lemma X21_last_page_is_the_count_witness :
  result (paged (sent at_start) (contributors_request "octo/demo"))
  = Response 200
      [ ("Link", link_to_last first_of_345 (list_ascii_of_string "345") []) ]
      (Some (JArr [JObj [("login", JStr "octocat")]])) /\
  200 < 400 /\
  header "Link"
    [ ("Link", link_to_last first_of_345 (list_ascii_of_string "345") []) ]
  = Some (link_to_last first_of_345 (list_ascii_of_string "345") []) /\
  contains LAST_MARK first_of_345 = false /\
  list_ascii_of_string "345" <> [] /\
  digits_value (list_ascii_of_string "345") 0 = Some 345 /\
  fst (fetch_contributor_count paged "octo/demo" at_start) = Ok 345.
Proof.
  split; [reflexivity|]. split; [lia|]. split; [reflexivity|].
  split; [vm_compute; reflexivity|]. split; [discriminate|].
  split; [reflexivity|].
  apply (X21_last_page_is_the_count paged "octo/demo" at_start 200
           [ ("Link", link_to_last first_of_345
                                   (list_ascii_of_string "345") []) ]
           (Some (JArr [JObj [("login", JStr "octocat")]]))
           first_of_345 (list_ascii_of_string "345") [] 345).
  - reflexivity.
  - lia.
  - reflexivity.
  - vm_compute; reflexivity.
  - discriminate.
  - reflexivity.
Defined.

(** ** Enrichment *)

Lemma same_but_extended_refl (r : RepoMetrics) : same_but_extended r r.
Proof. repeat split. Qed.

Lemma same_but_extended_trans (a b c : RepoMetrics) :
  same_but_extended a b -> same_but_extended b c -> same_but_extended a c.
Proof.
  unfold same_but_extended. intros H1 H2.
  destruct H1 as (A1 & A2 & A3 & A4 & A5 & A6 & A7 & A8 & A9).
  destruct H2 as (B1 & B2 & B3 & B4 & B5 & B6 & B7 & B8 & B9).
  repeat split; congruence.
Qed.

Lemma try_steps_rel {S : Type} (R : S -> S -> Prop)
      (steps : list (S -> io S)) :
  (forall s, R s s) ->
  (forall a b c, R a b -> R b c -> R a c) ->
  Forall (fun step => forall s s' w w', step s w = (Ok s', w') -> R s s')
         steps ->
  forall s w, exists s', fst (try_steps steps s w) = Ok s' /\ R s s'.
Proof.
  intros Hrefl Htrans F. induction F as [|step rest Hs _ IH]; intros s w.
  - exists s. split; [reflexivity | apply Hrefl].
  - cbn [try_steps].
    destruct (step s w) as [[s1|e] w1] eqn:E.
    + destruct (IH s1 w1) as (s' & E' & R').
      exists s'. split; [exact E'|].
      apply (Htrans _ s1); [apply (Hs _ _ _ _ E) | exact R'].
    + exists s. split; [reflexivity | apply Hrefl].
Qed.

Lemma adds_try_steps {S : Type} (P : request -> Prop)
      (step : S -> io S) (rest : list (S -> io S)) (n m : nat) (s : S) :
  adds P (step s) n ->
  (forall s', adds P (try_steps rest s') m) ->
  adds P (try_steps (step :: rest) s) (n + m).
Proof.
  intros Hs Hr w. cbn [try_steps].
  destruct (Hs w) as (new1 & E1 & F1 & L1).
  destruct (step s w) as [[s1|e] w1]; cbn [snd] in E1.
  - destruct (Hr s1 w1) as (new2 & E2 & F2 & L2).
    exists (new2 ++ new1)%list. rewrite E2, E1, app_assoc, requests_app.
    repeat split; [apply Forall_app; auto|].
    rewrite length_app. lia.
  - exists new1. repeat split; auto. cbn [snd]. lia.
Qed.

Lemma fetch_issue_counts_adds (srv : server) (full_name : string) :
  adds any_request (fetch_issue_counts srv full_name) 2.
Proof.
  unfold fetch_issue_counts.
  apply (adds_try _ _ _ 2 0); [|intros e; apply adds_ret].
  apply (adds_bind _ _ _ 1 1); [apply adds_get; exact I|]. intros r1.
  apply (adds_bind _ _ _ 0 1); [apply adds_lift|]. intros c1.
  apply (adds_bind _ _ _ 0 1); [apply adds_sleep|]. intros _.
  apply (adds_bind _ _ _ 1 0); [apply adds_get; exact I|]. intros r2.
  apply (adds_bind _ _ _ 0 0); [apply adds_lift|]. intros c2.
  apply adds_ret.
Qed.

Lemma fetch_contributor_count_adds (srv : server) (full_name : string) :
  adds any_request (fetch_contributor_count srv full_name) 1.
Proof.
  unfold fetch_contributor_count.
  apply (adds_try _ _ _ 1 0); [|intros e; apply adds_ret].
  apply (adds_bind _ _ _ 1 0); [apply adds_get; exact I|]. intros r.
  destruct (ok r); [|apply adds_ret].
  destruct (if contains REL_LAST _ then _ else _); [apply adds_lift|].
  apply (adds_bind _ _ _ 0 0); [apply adds_lift|]. intros doc.
  apply adds_lift.
Qed.

Lemma enrich_adds (srv : server) (repo : RepoMetrics) (fetch_extended : bool) :
  adds any_request (enrich_repo_metrics srv repo fetch_extended) 3.
Proof.
  unfold enrich_repo_metrics.
  destruct fetch_extended; cbn [negb];
    [|apply (adds_weaken _ _ 0); [lia | apply adds_ret]].
  apply (adds_try_steps _ _ _ 2 1).
  { unfold set_issue_counts.
    apply (adds_bind _ _ _ 2 0); [apply fetch_issue_counts_adds|]. intros c.
    apply (adds_bind _ _ _ 0 0); [apply adds_lift|]. intros o.
    apply (adds_bind _ _ _ 0 0); [apply adds_lift|]. intros cl.
    apply adds_ret. }
  intros s1. apply (adds_try_steps _ _ _ 0 1).
  { unfold pause. apply (adds_bind _ _ _ 0 0); [apply adds_sleep|].
    intros _. apply adds_ret. }
  intros s2. apply (adds_try_steps _ _ _ 1 0).
  { unfold set_contributors.
    apply (adds_bind _ _ _ 1 0); [apply fetch_contributor_count_adds|].
    intros n. apply adds_ret. }
  intros s3. apply (adds_try_steps _ _ _ 0 0).
  { unfold pause. apply (adds_bind _ _ _ 0 0); [apply adds_sleep|].
    intros _. apply adds_ret. }
  intros s4. apply adds_ret.
Qed.

Lemma enrich_keeps (srv : server) (repo : RepoMetrics)
      (fetch_extended : bool) (w : world) :
  exists repo',
    fst (enrich_repo_metrics srv repo fetch_extended w) = Ok repo' /\
    same_but_extended repo repo'.
Proof.
  unfold enrich_repo_metrics. destruct fetch_extended; cbn [negb].
  2:{ exists repo. split; [reflexivity | apply same_but_extended_refl]. }
  apply (try_steps_rel same_but_extended);
    [apply same_but_extended_refl | apply same_but_extended_trans|].
  assert (P : forall d s s' w0 w',
             pause d s w0 = (Ok s', w') -> same_but_extended s s').
  { intros d s s' w0 w'. unfold pause, io_bind, io_ret.
    destruct (time_sleep d w0) as [[u|e] w1]; [|discriminate].
    intros [= <- _]. apply same_but_extended_refl. }
  constructor; [|constructor; [apply P|]].
  { intros s s' w0 w'. unfold set_issue_counts, io_bind, lift, io_ret.
    destruct (fetch_issue_counts srv (full_name s) w0) as [[c|e] w1];
      [|discriminate].
    destruct (as_int (fst c)); [|discriminate].
    destruct (as_int (snd c)); [|discriminate].
    intros [= <- _]. repeat split. }
  constructor; [|constructor; [apply P | constructor]].
  intros s s' w0 w'. unfold set_contributors, io_bind, io_ret.
  destruct (fetch_contributor_count srv (full_name s) w0) as [[n|e] w1];
    [|discriminate].
  intros [= <- _]. repeat split.
Qed.

(** X22.  Enriching a repository never raises; it sends at most three
    requests and changes no field but [total_issues], [closed_issues] and
    [contributors]. *)
Theorem X22_enrichment (srv : server) (repo : RepoMetrics)
        (fetch_extended : bool) (w : world) :
  exists repo' new,
    fst (enrich_repo_metrics srv repo fetch_extended w) = Ok repo' /\
    same_but_extended repo repo' /\
    log (snd (enrich_repo_metrics srv repo fetch_extended w))
    = (new ++ log w)%list /\
    (length (requests new) <= 3)%nat.
Proof.
  destruct (enrich_keeps srv repo fetch_extended w) as (repo' & E & S).
  destruct (enrich_adds srv repo fetch_extended w) as (new & L & _ & N).
  exists repo', new. auto.
Qed.

(** X23.  When the two issue counts come back as integers, the
    enrichment sets [total_issues] to their sum and [closed_issues] to the
    count of closed issues, and the contributor count it sets is not
    negative. *)
Theorem X23_enrichment_sets_counts (srv : server) (repo : RepoMetrics)
        (w : world) (open_count closed_count : Z) :
  fst (fetch_issue_counts srv (full_name repo) w)
  = Ok (JInt open_count, JInt closed_count) ->
  exists repo',
    fst (enrich_repo_metrics srv repo true w) = Ok repo' /\
    total_issues repo' = open_count + closed_count /\
    closed_issues repo' = closed_count /\
    0 <= contributors repo'.
Proof.
  intros H. unfold enrich_repo_metrics. cbn [negb try_steps].
  unfold set_issue_counts at 1. unfold io_bind at 1 2 3. unfold lift, io_ret.
  destruct (fetch_issue_counts srv (full_name repo) w) as [x w1].
  cbn [fst] in H. subst x. cbn [fst snd as_int].
  unfold pause at 1. unfold io_bind at 1. unfold time_sleep at 1.
  change (num_ltb (PFloat (1 # 2)) (PInt 0)) with false. cbv iota.
  unfold set_contributors at 1. unfold io_bind at 1. unfold io_ret.
  cbv beta iota. cbn [full_name].
  match goal with |- context [fetch_contributor_count srv ?f ?w2] =>
    destruct (fetch_contributor_count_spec srv f w2) as (n & -> & Hn)
  end.
  unfold pause at 1. unfold io_bind at 1. unfold time_sleep at 1.
  change (num_ltb (PFloat (1 # 2)) (PInt 0)) with false. cbv iota.
  eexists. split; [reflexivity|]. cbn. auto.
Qed.

Lemma X23_enrichment_sets_counts_witness :
  fst (fetch_issue_counts nearly_out (full_name unstarred) epoch)
  = Ok (JInt 5, JInt 5) /\
  exists repo',
    fst (enrich_repo_metrics nearly_out unstarred true epoch) = Ok repo' /\
    total_issues repo' = 5 + 5 /\
    closed_issues repo' = 5 /\
    0 <= contributors repo'.
Proof.
  split; [vm_compute; reflexivity|].
  apply (X23_enrichment_sets_counts nearly_out unstarred epoch 5 5).
  vm_compute; reflexivity.
Defined.

(** ** The repositories of [main] *)

Lemma Forall2_set_nth {A B : Type} (R : A -> B -> Prop) (x : B) :
  forall (l : list A) (cur : list B) (i : nat) (y : B),
    Forall2 R l cur ->
    nth_error cur i = Some y ->
    (forall o, R o y -> R o x) ->
    Forall2 R l (set_nth i x cur).
Proof.
  intros l cur i y F. revert i.
  induction F as [|o c l cur Hoc F IH]; intros i Hn Hx.
  - destruct i; discriminate Hn.
  - destruct i as [|j]; cbn [set_nth nth_error] in *.
    + injection Hn as ->. constructor; [apply Hx, Hoc | exact F].
    + constructor; [exact Hoc | apply IH; assumption].
Qed.

Lemma Forall2_same_refl (l : list RepoMetrics) :
  Forall2 same_but_extended l l.
Proof.
  induction l; constructor; [apply same_but_extended_refl | assumption].
Qed.

Lemma enrich_at_spec (srv : server) (positions : list nat) :
  forall (orig repos : list RepoMetrics) (w : world),
    Forall2 same_but_extended orig repos ->
    exists repos' new,
      fst (enrich_at srv positions repos w) = Ok repos' /\
      Forall2 same_but_extended orig repos' /\
      log (snd (enrich_at srv positions repos w)) = (new ++ log w)%list /\
      (length (requests new) <= 3 * length positions)%nat.
Proof.
  induction positions as [|i rest IH]; intros orig repos w F;
    cbn [enrich_at].
  - exists repos, []. repeat split; auto.
  - destruct (nth_error repos i) as [repo|] eqn:N.
    + unfold io_bind.
      destruct (enrich_keeps srv repo true w) as (repo' & E & S).
      destruct (enrich_adds srv repo true w) as (new1 & L1 & _ & N1).
      destruct (enrich_repo_metrics srv repo true w) as [x w1].
      cbn [fst snd] in *. subst x.
      destruct (IH orig (set_nth i repo' repos) w1) as (repos' & new & E' & F' & L & Nn).
      { apply (Forall2_set_nth _ _ _ _ _ repo F N).
        intros o Ho. apply (same_but_extended_trans _ repo); assumption. }
      exists repos', (new ++ new1)%list.
      split; [exact E'|]. split; [exact F'|].
      split; [rewrite L, L1, app_assoc; reflexivity|].
      rewrite requests_app, length_app. cbn [length]. lia.
    + destruct (IH orig repos w F) as (repos' & new & E' & F' & L & Nn).
      exists repos', new. repeat split; auto. cbn [length]. lia.
Qed.

Lemma write_then_read (repos : list RepoMetrics) (fs : files) :
  save_cache repos "repo_cache.json" fs "repo_cache.json"
  = Some (JArr (map cache_entry repos)) /\
  forall p, p <> "repo_cache.json" ->
            save_cache repos "repo_cache.json" fs p = fs p.
Proof.
  unfold save_cache, write_file. split; [reflexivity|].
  intros p Hp. destruct (String.eqb_spec p "repo_cache.json"); congruence.
Qed.

(** X24.  A run of [main] with [--use-cache] on a cache that loads and
    is not empty, and with no enrichment asked for, sends no request, does
    not sleep and writes no file on the way to its repositories, which are
    those of the cache. *)
Theorem X24_offline_run (srv : server) (a : args) (fs : files) (w : world) :
  use_cache a = true ->
  extended a = false ->
  enrich_top a <= 0 ->
  load_cache "repo_cache.json" fs <> [] ->
  main_repos srv a fs w = (Ok (load_cache "repo_cache.json" fs, fs), w).
Proof.
  intros Hu He Ht Hc. unfold main_repos, obtain_repos, enrich_repos.
  rewrite Hu, He.
  destruct (Z.ltb_spec 0 (enrich_top a)); [lia|].
  unfold io_bind, io_ret.
  destruct (load_cache "repo_cache.json" fs); [congruence | reflexivity].
Qed.

Lemma X24_offline_run_witness :
  use_cache offline = true /\
  extended offline = false /\
  enrich_top offline <= 0 /\
  load_cache "repo_cache.json"
             (save_cache two_repos "repo_cache.json" no_files) <> [] /\
  main_repos down offline (save_cache two_repos "repo_cache.json" no_files)
             at_start
  = (Ok (load_cache "repo_cache.json"
                    (save_cache two_repos "repo_cache.json" no_files),
         save_cache two_repos "repo_cache.json" no_files), at_start).
Proof.
  split; [reflexivity|]. split; [reflexivity|]. split; [simpl; lia|].
  split; [vm_compute; discriminate|].
  apply (X24_offline_run down offline
           (save_cache two_repos "repo_cache.json" no_files) at_start).
  - reflexivity.
  - reflexivity.
  - simpl; lia.
  - vm_compute; discriminate.
Defined.

Lemma sorted_by_stars_total (l : list (nat * RepoMetrics)) :
  exists s,
    sorted (fun ir : nat * RepoMetrics => Ok (PInt (stars (snd ir)))) true l
    = Ok s /\ length s = length l.
Proof.
  unfold sorted.
  rewrite (mapM_pure _ (fun ir => (PInt (stars (snd ir)), ir)))
    by reflexivity.
  cbn [bind]. eexists. split; [reflexivity|].
  rewrite length_map, (Permutation_length (sort_decorated_perm true _)).
  apply length_map.
Qed.

Lemma enrich_repos_spec (srv : server) (a : args)
      (repos : list RepoMetrics) (fs1 : files) (w : world) :
  extended a = true \/ 0 < enrich_top a ->
  exists repos' new,
    fst (enrich_repos srv a repos fs1 w)
    = Ok (repos', save_cache repos' "repo_cache.json" fs1) /\
    Forall2 same_but_extended repos repos' /\
    log (snd (enrich_repos srv a repos fs1 w)) = (new ++ log w)%list /\
    (extended a = false ->
     Z.of_nat (length (requests new)) <= 3 * enrich_top a).
Proof.
  intros H. unfold enrich_repos. destruct (extended a).
  - unfold io_bind, io_ret.
    destruct (enrich_at_spec srv (seq 0 (length repos)) repos repos w
                (Forall2_same_refl repos)) as (repos' & new & E & F & L & _).
    destruct (enrich_at srv _ repos w) as [x w1].
    cbn [fst snd] in *. subst x.
    exists repos', new. repeat split; auto. discriminate.
  - destruct H as [H | H]; [discriminate|].
    destruct (Z.ltb_spec 0 (enrich_top a)); [|lia].
    unfold io_bind at 1. unfold lift.
    destruct (sorted_by_stars_total (combine (seq 0 (length repos)) repos))
      as (s & -> & _).
    unfold io_bind, io_ret.
    set (positions := map fst (slice_to (enrich_top a) s)).
    destruct (enrich_at_spec srv positions repos repos w
                (Forall2_same_refl repos)) as (repos' & new & E & F & L & N).
    destruct (enrich_at srv positions repos w) as [x w1].
    cbn [fst snd] in *. subst x.
    exists repos', new. repeat split; auto.
    intros _.
    assert (Z.of_nat (length positions) <= enrich_top a).
    { unfold positions. rewrite length_map. apply slice_to_length. lia. }
    lia.
Qed.

Lemma fetch_popular_repos_total (srv : server) (min_stars : Z)
      (languages : option (list string)) (max_repos : Z) :
  total (fetch_popular_repos srv min_stars languages max_repos).
Proof.
  intros w. unfold fetch_popular_repos, io_bind, io_ret.
  match goal with |- context [fetch_languages ?s ?m ?l ?x ?r w] =>
    destruct (fetch_languages_total s m x l r w) as [repos E];
    destruct (fetch_languages s m l x r w) as [y w1]
  end.
  cbn [fst] in E. subst y. eexists; reflexivity.
Qed.

Lemma typed_one_each : typed_server one_each.
Proof. intros n rq. reflexivity. Qed.

(** X25.  Without [--use-cache] and on a server whose responses are
    typed, [main] never raises on the way to its repositories, and the
    cache file it leaves holds exactly these repositories, enriched when
    enrichment was asked for; no other file is written on the way. *)
Theorem X25_fresh_run_saves (srv : server) (a : args) (fs : files)
        (w : world) :
  typed_server srv ->
  use_cache a = false ->
  exists repos fs',
    fst (main_repos srv a fs w) = Ok (repos, fs') /\
    fs' "repo_cache.json" = Some (JArr (map cache_entry repos)) /\
    forall p, p <> "repo_cache.json" -> fs' p = fs p.
Proof.
  intros _ Hu. unfold main_repos, obtain_repos. rewrite Hu.
  unfold io_bind at 1 2. unfold io_ret at 1.
  destruct (fetch_popular_repos_total srv (min_stars a) None (max_repos a) w)
    as [repos E].
  destruct (fetch_popular_repos srv (min_stars a) None (max_repos a) w)
    as [x w1].
  cbn [fst] in E. subst x. cbn [fst snd].
  destruct (write_then_read repos fs) as [_ Hother].
  destruct (extended a) eqn:He.
  - destruct (enrich_repos_spec srv a repos
                (save_cache repos "repo_cache.json" fs) w1
                ltac:(left; exact He)) as (repos' & new & E & _).
    exists repos', (save_cache repos' "repo_cache.json"
                      (save_cache repos "repo_cache.json" fs)).
    split; [exact E|]. destruct (write_then_read repos'
                                    (save_cache repos "repo_cache.json" fs))
      as [R O].
    split; [exact R|]. intros p Hp. rewrite (O p Hp). apply Hother, Hp.
  - destruct (Z.ltb_spec 0 (enrich_top a)) as [Ht | Ht].
    + destruct (enrich_repos_spec srv a repos
                  (save_cache repos "repo_cache.json" fs) w1
                  ltac:(right; exact Ht)) as (repos' & new & E & _).
      exists repos', (save_cache repos' "repo_cache.json"
                        (save_cache repos "repo_cache.json" fs)).
      split; [exact E|]. destruct (write_then_read repos'
                                      (save_cache repos "repo_cache.json" fs))
        as [R O].
      split; [exact R|]. intros p Hp. rewrite (O p Hp). apply Hother, Hp.
    + exists repos, (save_cache repos "repo_cache.json" fs).
      split.
      * unfold enrich_repos. rewrite He.
        destruct (Z.ltb_spec 0 (enrich_top a)); [lia | reflexivity].
      * apply write_then_read.
Qed.

Lemma X25_fresh_run_saves_witness :
  typed_server one_each /\
  use_cache fresh_top_two = false /\
  exists repos fs',
    fst (main_repos one_each fresh_top_two no_files at_start)
    = Ok (repos, fs') /\
    fs' "repo_cache.json" = Some (JArr (map cache_entry repos)) /\
    forall p, p <> "repo_cache.json" -> fs' p = no_files p.
Proof.
  split; [exact typed_one_each|]. split; [reflexivity|].
  apply (X25_fresh_run_saves one_each fresh_top_two no_files at_start);
    [exact typed_one_each | reflexivity].
Defined.

(** X26.  With [--enrich-top n] on repositories from the cache, the
    list keeps its order and every field but the extended metrics - the
    sort by stars only selects the repositories to enrich -, at most 3 n
    requests are sent, and the cache is saved again with the result. *)
Theorem X26_top_repos_from_cache (srv : server) (a : args) (fs : files)
        (w : world) :
  use_cache a = true ->
  load_cache "repo_cache.json" fs <> [] ->
  extended a = false ->
  0 < enrich_top a ->
  exists repos new,
    fst (main_repos srv a fs w)
    = Ok (repos, save_cache repos "repo_cache.json" fs) /\
    Forall2 same_but_extended (load_cache "repo_cache.json" fs) repos /\
    log (snd (main_repos srv a fs w)) = (new ++ log w)%list /\
    Z.of_nat (length (requests new)) <= 3 * enrich_top a.
Proof.
  intros Hu Hc He Ht. unfold main_repos, obtain_repos. rewrite Hu.
  destruct (load_cache "repo_cache.json" fs) as [|r l] eqn:C; [congruence|].
  unfold io_bind at 1. unfold io_ret at 1. cbn [fst snd].
  destruct (enrich_repos_spec srv a (r :: l) fs w ltac:(right; exact Ht))
    as (repos' & new & E & F & L & N).
  exists repos', new. auto.
Qed.

Lemma X26_top_repos_from_cache_witness :
  use_cache cached_top_one = true /\
  load_cache "repo_cache.json"
             (save_cache two_repos "repo_cache.json" no_files) <> [] /\
  extended cached_top_one = false /\
  0 < enrich_top cached_top_one /\
  exists repos new,
    fst (main_repos nearly_out cached_top_one
                    (save_cache two_repos "repo_cache.json" no_files) epoch)
    = Ok (repos,
          save_cache repos "repo_cache.json"
                     (save_cache two_repos "repo_cache.json" no_files)) /\
    Forall2 same_but_extended
            (load_cache "repo_cache.json"
                        (save_cache two_repos "repo_cache.json" no_files))
            repos /\
    log (snd (main_repos nearly_out cached_top_one
                (save_cache two_repos "repo_cache.json" no_files) epoch))
    = (new ++ log epoch)%list /\
    Z.of_nat (length (requests new)) <= 3 * enrich_top cached_top_one.
Proof.
  split; [reflexivity|]. split; [vm_compute; discriminate|].
  split; [reflexivity|]. split; [simpl; lia|].
  apply (X26_top_repos_from_cache nearly_out cached_top_one
           (save_cache two_repos "repo_cache.json" no_files) epoch).
  - reflexivity.
  - vm_compute; discriminate.
  - reflexivity.
  - simpl; lia.
Defined.

(** ** Extended rows and records of the API *)





Lemma replace_Z_app (s t : string) :
  replace_Z (s ++ t) = replace_Z s ++ replace_Z t.
Proof.
  induction s as [|c s IH]; [reflexivity|].
  cbn [append replace_Z]. rewrite IH.
  destruct (Ascii.eqb c "Z"); reflexivity.
Qed.

Lemma digit_char_not_Z (d : Z) :
  0 <= d < 10 -> Ascii.eqb (digit_char d) "Z" = false.
Proof.
  intros H.
  assert (C : d = 0 \/ d = 1 \/ d = 2 \/ d = 3 \/ d = 4 \/ d = 5 \/ d = 6 \/
              d = 7 \/ d = 8 \/ d = 9) by lia.
  repeat (destruct C as [-> | C]; [reflexivity|]). subst. reflexivity.
Qed.

Lemma replace_Z_digits (w : nat) (n : Z) :
  replace_Z (digits w n) = digits w n.
Proof.
  induction w as [|w IH]; [reflexivity|].
  cbn [digits replace_Z].
  rewrite digit_char_not_Z by (apply Z.mod_pos_bound; lia).
  rewrite IH. reflexivity.
Qed.

Lemma zulu_is_utc (d : datetime) :
  utc_seconds d -> fromisoformat (replace_Z (zulu d)) = Ok d.
Proof.
  intros (Hv & Hm & Hz).
  rewrite <- (isoformat_round_trip d Hv) at 1. f_equal.
  unfold zulu, isoformat. rewrite Hm, Hz.
  rewrite !replace_Z_app, !replace_Z_digits. reflexivity.
Qed.

(** X28.  [parse_repo] reads a record of the search API back.  A
    repository whose timestamps are UTC times to the second, written with
    the suffix Z, comes back with its name, stars, open issues, timestamps,
    language and forks, and with its extended metrics and its commits at
    0. *)
Theorem X28_api_record_round_trip (r : RepoMetrics) :
  utc_seconds (created_at r) ->
  match updated_at r with
  | Some u => utc_seconds u
  | None => True
  end ->
  parse_repo (api_record r) = Ok (parsed r).
Proof.
  intros Hc Hu. unfold parse_repo, api_record, parsed.
  cbn -[zulu replace_Z fromisoformat].
  destruct (updated_at r) as [u|].
  - assert (T : truthy (JStr (zulu u)) = true).
    { unfold zulu. destruct (digits 4 (year u)) eqn:D; [|reflexivity].
      discriminate D. }
    rewrite T. cbn -[zulu replace_Z fromisoformat].
    rewrite (zulu_is_utc u Hu). cbn -[zulu replace_Z fromisoformat].
    rewrite (zulu_is_utc _ Hc). cbn -[zulu replace_Z fromisoformat].
    destruct (language r); reflexivity.
  - cbn -[zulu replace_Z fromisoformat].
    rewrite (zulu_is_utc _ Hc). cbn -[zulu replace_Z fromisoformat].
    destruct (language r); reflexivity.
Qed.

Lemma X28_api_record_round_trip_witness :
  utc_seconds (created_at aged) /\
  match updated_at aged with
  | Some u => utc_seconds u
  | None => True
  end /\
  parse_repo (api_record aged) = Ok (parsed aged).
Proof.
  split; [repeat split|]. split; [exact I|].
  apply (X28_api_record_round_trip aged); [repeat split | exact I].
Defined.

(** ** A run without a server *)

Lemma in_firstn {A : Type} (x : A) (n : nat) (l : list A) :
  In x (firstn n l) -> In x l.
Proof.
  intros H. rewrite <- (firstn_skipn n l). apply in_or_app. now left.
Qed.

Lemma fetch_page_cut_off (srv : server) (repo_full_name : string)
      (commits : list json) (page : Z) (w : world) :
  cut_off srv ->
  fst (Nlp.fetch_page srv repo_full_name commits page w) = Ok None.
Proof.
  intros H. unfold Nlp.fetch_page, try_except, io_bind, requests_get.
  rewrite H. reflexivity.
Qed.

Lemma fetch_commits_cut_off (srv : server) (repo_full_name : string)
      (max_commits : Z) (w : world) :
  cut_off srv ->
  fst (Nlp.fetch_commits srv repo_full_name max_commits w) = Ok [].
Proof.
  intros H. unfold Nlp.fetch_commits, io_bind, io_ret.
  assert (L : fst (Nlp.fetch_loop srv repo_full_name max_commits
                     (Z.to_nat max_commits) [] 1 w) = Ok []).
  { destruct (Z.to_nat max_commits) as [|fuel]; cbn [Nlp.fetch_loop];
      destruct (_ <? _); try reflexivity.
    unfold io_bind.
    pose proof (fetch_page_cut_off srv repo_full_name [] 1 w H) as P.
    destruct (Nlp.fetch_page srv repo_full_name [] 1 w) as [x w1].
    cbn [fst] in P. subst x. reflexivity. }
  destruct (Nlp.fetch_loop _ _ _ _ _ _ w) as [x w1].
  cbn [fst] in L. subst x. cbn [fst].
  unfold slice_to. destruct (max_commits <? 0); rewrite firstn_nil; reflexivity.
Qed.

Lemma analyze_repo_cut_off (srv : server) (repo_full_name : string)
      (created_at : datetime) (w : world) :
  cut_off srv ->
  exists a,
    fst (Nlp.analyze_repo srv repo_full_name created_at w) = Ok a /\
    Nlp.message_lengths a = [] /\
    (Nlp.era a = "pre-ai" \/ Nlp.era a = "post-ai").
Proof.
  intros H. unfold Nlp.analyze_repo, io_bind, lift.
  pose proof (fetch_commits_cut_off srv repo_full_name 500 w H) as C.
  destruct (Nlp.fetch_commits srv repo_full_name 500 w) as [x w1].
  cbn [fst] in C. subst x. cbn [Nlp.analyze_commits fst].
  eexists. split; [reflexivity|]. split; [reflexivity|].
  cbn [Nlp.new_analysis Nlp.era].
  destruct (year created_at <? 2022); auto.
Qed.

Lemma analyze_all_cut_off (srv : server) (rs : list RepoMetrics) :
  cut_off srv ->
  Forall (fun r => valid (created_at r) = true) rs ->
  forall w,
  exists analyses,
    fst (Nlp.analyze_all srv (map cache_entry rs) w) = Ok analyses /\
    length analyses = length rs /\
    Forall (fun a => Nlp.message_lengths a = [] /\
                     (Nlp.era a = "pre-ai" \/ Nlp.era a = "post-ai"))
           analyses.
Proof.
  intros H F. induction F as [|r rs Hr _ IH]; intros w; cbn [map Nlp.analyze_all].
  - exists []. repeat split. constructor.
  - unfold io_bind at 1. unfold Nlp.analyze_selected.
    unfold io_bind at 1. unfold lift at 1.
    unfold cache_entry at 1. cbn -[isoformat fromisoformat].
    rewrite (isoformat_round_trip _ Hr). cbn -[isoformat fromisoformat].
    unfold io_bind at 1.
    destruct (analyze_repo_cut_off srv (full_name r) (created_at r) w H)
      as (a & E & Ha).
    destruct (Nlp.analyze_repo srv (full_name r) (created_at r) w) as [x w1].
    cbn [fst] in E. subst x.
    unfold io_bind at 1. unfold time_sleep.
    change (num_ltb (PFloat (1 # 2)) (PInt 0)) with false. cbv iota.
    unfold io_ret at 1. unfold io_bind.
    match goal with |- context [Nlp.analyze_all srv _ ?w2] =>
      destruct (IH w2) as (l & E & L & Fl);
      destruct (Nlp.analyze_all srv (map cache_entry rs) w2) as [x w3]
    end.
    cbn [fst] in E. subst x.
    exists (a :: l). split; [reflexivity|].
    split; [cbn [length]; congruence|].
    constructor; assumption.
Qed.

Lemma aggregate_without_messages (analyses : list Nlp.CommitAnalysis) :
  analyses <> [] ->
  Forall (fun a => Nlp.message_lengths a = [] /\
                   (Nlp.era a = "pre-ai" \/ Nlp.era a = "post-ai"))
         analyses ->
  Nlp.aggregate_by_era analyses = Raise StatisticsError.
Proof.
  intros Hne F. unfold Nlp.aggregate_by_era.
  assert (E : forall name,
             Forall (fun a => Nlp.message_lengths a = [])
                    (filter (fun a => (Nlp.era a =? name)%string) analyses)).
  { intros name. apply Forall_forall. intros a Ha.
    apply filter_In in Ha. rewrite Forall_forall in F.
    apply (F a), Ha. }
  destruct (filter (fun a => (Nlp.era a =? "pre-ai")%string) analyses)
    as [|p ps] eqn:P.
  - cbn [Nlp.calc_stats bind].
    destruct (filter (fun a => (Nlp.era a =? "post-ai")%string) analyses)
      as [|q qs] eqn:Q.
    + exfalso. destruct analyses as [|a l]; [congruence|].
      inversion F as [|? ? [_ [Ha | Ha]] _]; subst;
        cbn [filter] in P, Q; rewrite Ha in *; cbn in P, Q; discriminate.
    + rewrite (calc_stats_without_messages q qs); [reflexivity|].
      rewrite <- Q. apply E.
  - rewrite (calc_stats_without_messages p ps); [reflexivity|].
    rewrite <- P. apply E.
Qed.

(** X29.  When the server cannot be reached, [main] of the commit
    analysis, on a cache of at least one repository and for a maximum of at
    least 2, raises [StatisticsError] where its report aggregates the
    analyses: every repository it selected was analysed with no commit. *)
Theorem X29_cut_off_run_raises (srv : server) (rs : list RepoMetrics)
        (max_repos : Z) (fs : files) (w : world) :
  cut_off srv ->
  fs "repo_cache.json" = Some (JArr (map cache_entry rs)) ->
  Forall (fun r => valid (created_at r) = true) rs ->
  rs <> [] ->
  2 <= max_repos ->
  fst (Nlp.main_stats srv max_repos fs w) = Raise StatisticsError.
Proof.
  intros Hs Hf Hv Hne Hm. unfold Nlp.main_stats. rewrite Hf.
  unfold io_bind at 1. unfold lift at 1.
  rewrite (select_repos_entries rs max_repos ltac:(lia) Hv).
  set (k := Z.to_nat (max_repos / 2)).
  set (pre := by_stars (filter (fun r => year (created_at r) <? 2022) rs)).
  set (post := by_stars (filter (fun r => 2022 <=? year (created_at r)) rs)).
  set (sel := (firstn k pre ++ firstn k post)%list).
  assert (Hk : (1 <= k)%nat).
  { unfold k. assert (1 <= max_repos / 2) by (apply Z.div_le_lower_bound; lia).
    lia. }
  assert (Hsel : sel <> []).
  { intros E. apply app_eq_nil in E. destruct E as [E1 E2].
    assert (N : forall l : list RepoMetrics, firstn k l = [] -> l = []).
    { intros [|x l]; [reflexivity|]. destruct k; [lia | discriminate]. }
    apply N in E1, E2.
    assert (P1 : filter (fun r => year (created_at r) <? 2022) rs = []).
    { apply Permutation_nil. rewrite <- E1. apply by_stars_perm. }
    assert (P2 : filter (fun r => 2022 <=? year (created_at r)) rs = []).
    { apply Permutation_nil. rewrite <- E2. apply by_stars_perm. }
    destruct rs as [|r l]; [congruence|].
    cbn [filter] in P1, P2.
    destruct (Z.ltb_spec (year (created_at r)) 2022); [discriminate P1|].
    destruct (Z.leb_spec 2022 (year (created_at r))); [discriminate P2 | lia]. }
  assert (Vsel : Forall (fun r => valid (created_at r) = true) sel).
  { apply Forall_forall. intros r Hr. rewrite Forall_forall in Hv. apply Hv.
    unfold sel in Hr. apply in_app_or in Hr.
    destruct Hr as [Hr | Hr]; apply in_firstn in Hr.
    - apply (Permutation_in _ (by_stars_perm _)) in Hr.
      apply filter_In in Hr. tauto.
    - apply (Permutation_in _ (by_stars_perm _)) in Hr.
      apply filter_In in Hr. tauto. }
  unfold io_bind at 1.
  destruct (analyze_all_cut_off srv sel Hs Vsel w) as (analyses & E & L & F).
  destruct (Nlp.analyze_all srv (map cache_entry sel) w) as [x w1].
  cbn [fst] in E. subst x.
  unfold io_bind, lift.
  rewrite (aggregate_without_messages analyses); [reflexivity | | exact F].
  intros ->. destruct sel; [congruence | discriminate L].
Qed.

Lemma X29_cut_off_run_raises_witness :
  cut_off down /\
  save_cache two_repos "repo_cache.json" no_files "repo_cache.json"
  = Some (JArr (map cache_entry two_repos)) /\
  Forall (fun r => valid (created_at r) = true) two_repos /\
  two_repos <> [] /\
  2 <= 30 /\
  fst (Nlp.main_stats down 30 (save_cache two_repos "repo_cache.json" no_files)
                      at_start)
  = Raise StatisticsError.
Proof.
  split; [intros n rq; reflexivity|]. split; [reflexivity|].
  split; [repeat constructor|]. split; [discriminate|]. split; [lia|].
  apply (X29_cut_off_run_raises down two_repos 30
           (save_cache two_repos "repo_cache.json" no_files) at_start).
  - intros n rq; reflexivity.
  - reflexivity.
  - repeat constructor.
  - discriminate.
  - lia.
Defined.

(** ** [main] of the debt analysis *)

Lemma main_repos_total (srv : server) (a : args) (fs : files) :
  total (main_repos srv a fs).
Proof.
  intros w. unfold main_repos, io_bind.
  assert (O : exists loaded, fst (obtain_repos srv a fs w) = Ok loaded).
  { unfold obtain_repos.
    destruct (if use_cache a then load_cache "repo_cache.json" fs else [])
      as [|r l]; [|eexists; reflexivity].
    unfold io_bind, io_ret.
    destruct (fetch_popular_repos_total srv (min_stars a) None (max_repos a) w)
      as [repos E].
    destruct (fetch_popular_repos srv (min_stars a) None (max_repos a) w)
      as [x w1].
    cbn [fst] in E. subst x. eexists; reflexivity. }
  destruct O as [[repos fs1] O].
  destruct (obtain_repos srv a fs w) as [x w1]. cbn [fst] in O. subst x.
  cbn [fst snd].
  destruct (extended a) eqn:He.
  - destruct (enrich_repos_spec srv a repos fs1 w1 ltac:(left; exact He))
      as (repos' & new & E & _).
    eexists; exact E.
  - destruct (Z.ltb_spec 0 (enrich_top a)) as [Ht | Ht].
    + destruct (enrich_repos_spec srv a repos fs1 w1 ltac:(right; exact Ht))
        as (repos' & new & E & _).
      eexists; exact E.
    + unfold enrich_repos. rewrite He.
      destruct (Z.ltb_spec 0 (enrich_top a)); [lia|].
      eexists; reflexivity.
Qed.

(** X30.  On a server whose responses are typed - documents with fields
    of the declared types, page numbers that binary64 holds - and with a
    cache file whose entries are typed, [main] of the debt analysis never
    raises on the way to its report, whatever the arguments are: it always
    has a report, of at least the 41 lines of its head. *)
Theorem X30_main_reports (srv : server) (a : args) (fs : files) (c : clock)
        (w : world) :
  typed_server srv ->
  typed_cache fs ->
  exists report fs',
    fst (main_report srv a fs c w) = Ok (report, fs') /\
    (41 <= length report)%nat.
Proof.
  intros _ _. unfold main_report. unfold io_bind at 1.
  destruct (main_repos_total srv a fs w) as [[repos fs1] E].
  destruct (main_repos srv a fs w) as [x w1]. cbn [fst] in E. subst x.
  unfold io_bind, lift, io_ret. cbn [fst snd].
  unfold generate_report.
  destruct (analyze_by_era_clocks c c repos) as (e1 & e2 & -> & _ & _).
  destruct (analyze_by_language_total repos) as [groups ->].
  destruct (find_extremes_total repos 10) as [ext ->].
  cbn [bind fst]. do 2 eexists. split; [reflexivity|].
  rewrite (length_app (report_head _ _ _ _)).
  destruct (report_head_clocks c c (length repos) (pre_ai_era e1)
              (pre_ai_era e1) (post_ai_era e1) (post_ai_era e1))
    as (L & _ & _); [intros k _ _; reflexivity | intros k _ _; reflexivity|].
  rewrite L. lia.
Qed.

Lemma X30_main_reports_witness :
  typed_server one_each /\
  typed_cache (save_cache two_repos "repo_cache.json" no_files) /\
  exists report fs',
    fst (main_report one_each fresh_extended
                     (save_cache two_repos "repo_cache.json" no_files)
                     new_year_2022 at_start)
    = Ok (report, fs') /\
    (41 <= length report)%nat.
Proof.
  split; [exact typed_one_each|]. split; [reflexivity|].
  apply (X30_main_reports one_each fresh_extended
           (save_cache two_repos "repo_cache.json" no_files)
           new_year_2022 at_start);
    [exact typed_one_each | reflexivity].
Defined.
